(** * smartdns: the DNS answer cache (src/dns_cache.c)

    A shallow embedding of the cache engine and the properties of its
    specification.

    Modelling conventions.
    - A [struct dns_cache *] is an address into an explicit heap; a freed
      block stays in the heap as [None], and a block that [malloc] hands
      out has a fresh address, so a dangling handle is recognisable.
      Dereferencing a dangling handle is undefined behaviour in C; here it
      makes the operation return [None].
    - What the environment answers is an argument of the operation that
      asks: [time(&now)] is an argument [now] of the operation that reads
      the clock, and whether [malloc] returns a block or NULL is an argument
      [alloc] of the operation that allocates.
    - [time_t] is the 64-bit [long] of an LP64 Linux; clock values are far
      from its limits, so [time_t] arithmetic is exact and written in [Z].
      The assignment of a [time_t] expression to [int ttl] narrows to 32
      bits; the narrowing is written out ([int_of_time_t]).
    - The counters [num] and [ref] are [int]s that count heap blocks and
      handles; they stay far below 2^31 and are written in [Z].
    - The mutex serialises the operations; the model is the sequential
      behaviour of one operation at a time. *)

From Stdlib Require Import ZArith List String Ascii Bool Lia.
From Stdlib Require Import Strings.Byte.
Import ListNotations.
Open Scope Z_scope.

(** ** Data *)

(** The [dns_type_t] enumeration of the absent dns.h: the two address record
    types the cache accepts, and every other enumerator by its code. *)
Inductive dns_type_t : Type :=
| DNS_T_A
| DNS_T_AAAA
| DNS_T_OTHER (code : Z).

Definition dns_type_eqb (a b : dns_type_t) : bool :=
  match a, b with
  | DNS_T_A, DNS_T_A => true
  | DNS_T_AAAA, DNS_T_AAAA => true
  | DNS_T_OTHER x, DNS_T_OTHER y => x =? y
  | _, _ => false
  end.

(** Modelled from the spec: the constants DNS_RR_A_LEN and DNS_RR_AAAA_LEN
    of the absent dns.h ("4 bytes for A, 16 bytes for AAAA"). *)
Definition DNS_RR_A_LEN : Z := 4.
Definition DNS_RR_AAAA_LEN : Z := 16.

(** Addresses of heap blocks. *)
Definition ptr : Type := nat.

(** [struct dns_cache] (declared in the absent dns_cache.h): the fields the
    source reads and writes.  The intrusive [node] and [list] members are
    represented by membership in the table's two structures. *)
Record dns_cache : Type := mk_dns_cache {
  domain : string;
  qtype : dns_type_t;
  ttl : Z;
  addr : list byte;
  insert_time : Z;
  ref : Z
}.

Definition set_ref (e : dns_cache) (r : Z) : dns_cache :=
  mk_dns_cache (domain e) (qtype e) (ttl e) (addr e) (insert_time e) r.

Definition set_addr (e : dns_cache) (a : list byte) : dns_cache :=
  mk_dns_cache (domain e) (qtype e) (ttl e) a (insert_time e) (ref e).

(** The global [struct dns_cache_head dns_cache_head] together with the heap.
    [cache_hash] lists the (bucket, node) pairs of the 1024-bucket table,
    the most recently added first, so that the chain of a bucket is the
    sub-list of the pairs with that bucket, in chain order.  [cache_list] is
    the list from its head to its tail. *)
Record world : Type := mk_world {
  cache_hash : list (Z * ptr);
  cache_list : list ptr;
  num : Z;
  size : Z;
  heap : list (option dns_cache)
}.

Definition set_cache_hash (h : list (Z * ptr)) (w : world) : world :=
  mk_world h (cache_list w) (num w) (size w) (heap w).
Definition set_cache_list (l : list ptr) (w : world) : world :=
  mk_world (cache_hash w) l (num w) (size w) (heap w).
Definition set_num (n : Z) (w : world) : world :=
  mk_world (cache_hash w) (cache_list w) n (size w) (heap w).
Definition set_size (n : Z) (w : world) : world :=
  mk_world (cache_hash w) (cache_list w) (num w) n (heap w).
Definition set_heap (h : list (option dns_cache)) (w : world) : world :=
  mk_world (cache_hash w) (cache_list w) (num w) (size w) h.

(** ** Machine arithmetic and C strings *)

(** The conversion of a [time_t] value to [int]: reduction modulo 2^32 into
    the signed range. *)
Definition int_of_time_t (z : Z) : Z := (z + 2 ^ 31) mod 2 ^ 32 - 2 ^ 31.

Definition INT_MIN : Z := - 2 ^ 31.
Definition INT_MAX : Z := 2 ^ 31 - 1.

(** The first [n] characters of a C string. *)
Fixpoint str_prefix (n : nat) (s : string) : string :=
  match n, s with
  | O, _ => EmptyString
  | S _, EmptyString => EmptyString
  | S n', String c s' => String c (str_prefix n' s')
  end.

(** [strncpy(dst, src, n)] into a [char dst[n]]: the content of [dst] up to
    its first NUL, or all [n] bytes when [src] is at least [n] long. *)
Definition strncpy (src : string) (n : nat) : string := str_prefix n src.

(** [strncmp(s1, s2, n)]: the order of the first [n] characters, as -1, 0
    or 1 (the source only tests the result against 0). *)
Definition strncmp (s1 s2 : string) (n : nat) : Z :=
  match String.compare (str_prefix n s1) (str_prefix n s2) with
  | Eq => 0
  | Lt => -1
  | Gt => 1
  end.

(** [memcpy(dst, src, n)]: the [n] bytes copied. *)
Definition memcpy (src : list byte) (n : Z) : list byte := firstn (Z.to_nat n) src.

(** ** The heap *)

Fixpoint heap_set (p : ptr) (v : option dns_cache) (h : list (option dns_cache))
  : list (option dns_cache) :=
  match h, p with
  | [], _ => []
  | _ :: t, O => v :: t
  | x :: t, S p' => x :: heap_set p' v t
  end.

Definition heap_get (p : ptr) (h : list (option dns_cache)) : option dns_cache :=
  match nth_error h p with
  | Some (Some e) => Some e
  | _ => None
  end.

(** ** Undefined behaviour and state: the monad of the operations *)

Definition M (A : Type) : Type := world -> option (A * world).

Definition ret {A : Type} (a : A) : M A := fun w => Some (a, w).

Definition bind {A B : Type} (m : M A) (k : A -> M B) : M B :=
  fun w => match m w with
           | Some (a, w') => k a w'
           | None => None
           end.

Definition undefined_behaviour {A : Type} : M A := fun _ => None.

Definition get_world : M world := fun w => Some (w, w).

Definition modify (f : world -> world) : M unit := fun w => Some (tt, f w).

Declare Scope cache_scope.
Delimit Scope cache_scope with cache.
Notation "x <- m ;; k" := (bind m (fun x => k))
  (at level 61, m at next level, right associativity) : cache_scope.
Notation "m ;; k" := (bind m (fun _ => k))
  (at level 61, right associativity) : cache_scope.
Open Scope cache_scope.

(** Reading through a handle: undefined when the block is not allocated. *)
Definition deref (p : ptr) : M dns_cache :=
  fun w => match heap_get p (heap w) with
           | Some e => Some (e, w)
           | None => None
           end.

Definition store (p : ptr) (e : dns_cache) (w : world) : world :=
  set_heap (heap_set p (Some e) (heap w)) w.

(** [malloc]: a fresh block, which the caller fills with [e], or NULL when
    the allocator has no block to give ([alloc = false]). *)
Definition malloc (alloc : bool) (e : dns_cache) : M (option ptr) :=
  fun w => if alloc
           then Some (Some (List.length (heap w)), set_heap (heap w ++ [Some e]) w)
           else Some (None, w).

(** [free]. *)
Definition free (p : ptr) (w : world) : world :=
  set_heap (heap_set p None (heap w)) w.

(** ** The list and hash-table primitives *)

(** Modelled from the spec: [hash_add] of the absent hashtable.h; the node
    is put at the front of its bucket's chain ("adds it to the Index"). *)
Definition hash_add (p : ptr) (bucket : Z) (w : world) : world :=
  set_cache_hash ((bucket, p) :: cache_hash w) w.

(** Modelled from the spec: [hash_del] of the absent hashtable.h; the node
    is taken out of its chain, and a node in no chain is left alone
    ("unlinked from Index"). *)
Definition hash_del (p : ptr) (w : world) : world :=
  set_cache_hash (filter (fun bp => negb (Nat.eqb (snd bp) p)) (cache_hash w)) w.

(** Modelled from the spec: [list_add_tail] of the absent list.h ("appends
    it to the tail of the Recency List"). *)
Definition list_add_tail (p : ptr) (w : world) : world :=
  set_cache_list (cache_list w ++ [p]) w.

(** Modelled from the spec: [list_del_init] of the absent list.h; the node
    is taken out of the list and left self-linked, and a self-linked node is
    left alone ("unlinked from ... List"). *)
Definition list_del_init (p : ptr) (w : world) : world :=
  set_cache_list (filter (fun q => negb (Nat.eqb q p)) (cache_list w)) w.

(** Modelled from the spec: [list_empty(&dns_cache->list)] of the absent
    list.h: the node is self-linked, that is, the entry is not "currently
    list-linked". *)
Definition list_empty (p : ptr) (w : world) : bool :=
  negb (existsb (Nat.eqb p) (cache_list w)).

(** Modelled from the spec: the chain walked by [hash_for_each_possible] of
    the absent hashtable.h: the nodes of one bucket, in chain order. *)
Definition hash_possible (bucket : Z) (w : world) : list ptr :=
  map snd (filter (fun bp => fst bp =? bucket) (cache_hash w)).

(** The world after [_dns_cache_delete]. *)
Definition deleted (p : ptr) (w : world) : world :=
  mk_world (filter (fun bp => negb (Nat.eqb (snd bp) p)) (cache_hash w))
           (filter (fun q => negb (Nat.eqb q p)) (cache_list w))
           (num w - 1) (size w) (heap_set p None (heap w)).

(** The world after the two unlinking calls [hash_del] and [list_del_init]. *)
Definition unlinked (p : ptr) (w : world) : world :=
  list_del_init p (hash_del p w).

Section Cache.

(** The hash functions and the domain bound come from headers that are not
    part of the sources; the development is parametric in them.  [jhash] is
    [jhash(&qtype, sizeof(qtype), key)], [hash_min] is the bucket selection
    of the [hash_add] and [hash_for_each_possible] macros. *)
Variable hash_string : string -> Z.
Variable jhash : dns_type_t -> Z -> Z.
Variable hash_min : Z -> Z.
Variable DNS_MAX_CNAME_LEN : nat.

Definition cache_key (d : string) (t : dns_type_t) : Z :=
  jhash t (hash_string d).

(** ** The operations of dns_cache.c *)

Definition dns_cache_init (sz : Z) : M Z :=
  modify (set_cache_list []) ;;
  modify (set_cache_hash []) ;;
  modify (set_num 0) ;;
  modify (set_size sz) ;;
  ret 0.

Definition _dns_cache_first : M ptr :=
  w <- get_world ;;
  match cache_list w with
  | p :: _ => ret p
  | [] => undefined_behaviour
  end.

Definition _dns_cache_last : M ptr :=
  w <- get_world ;;
  match rev (cache_list w) with
  | p :: _ => ret p
  | [] => undefined_behaviour
  end.

Definition _dns_cache_delete (p : ptr) : M unit :=
  modify (hash_del p) ;;
  modify (list_del_init p) ;;
  modify (fun w => set_num (num w - 1) w) ;;
  modify (free p).

Definition dns_cache_release (p : ptr) : M unit :=
  e <- deref p ;;
  let r := ref e - 1 in
  modify (store p (set_ref e r)) ;;
  if negb (r =? 0) then ret tt
  else _dns_cache_delete p.

(** The [hash_for_each_possible] loop of [dns_cache_get] (lines 131-143). *)
Fixpoint cache_lookup (d : string) (t : dns_type_t) (chain : list ptr)
  : M (option ptr) :=
  match chain with
  | [] => ret None
  | p :: rest =>
      e <- deref p ;;
      if negb (dns_type_eqb (qtype e) t) then cache_lookup d t rest
      else if negb (strncmp d (domain e) DNS_MAX_CNAME_LEN =? 0)
           then cache_lookup d t rest
           else ret (Some p)
  end.

Definition dns_cache_get (now : Z) (d : string) (t : dns_type_t)
  : M (option ptr) :=
  w <- get_world ;;
  if size w <=? 0 then ret None
  else
    let key := cache_key d t in
    dns_cache_ret <- cache_lookup d t (hash_possible (hash_min key) w) ;;
    match dns_cache_ret with
    | Some p =>
        e <- deref p ;;
        if now - insert_time e >? ttl e
        then _dns_cache_delete p ;; ret None
        else modify (store p (set_ref e (ref e + 1))) ;; ret (Some p)
    | None => ret None
    end.

(** The [errout] exit of [dns_cache_insert] (lines 107-112); [None] is the
    NULL that [malloc] returned. *)
Definition insert_errout (dns_cache : option ptr) : M Z :=
  match dns_cache with
  | Some p => modify (free p) ;; ret (-1)
  | None => ret (-1)
  end.

(** Lines 99-106 of [dns_cache_insert]: the eviction on overflow. *)
Definition insert_evict : M Z :=
  w <- get_world ;;
  (if num w >? size w
   then del_cache <- _dns_cache_first ;; dns_cache_release del_cache
   else ret tt) ;;
  ret 0.

(** Lines 94-106 of [dns_cache_insert]: linking the new entry, then the
    eviction. *)
Definition insert_link (p : ptr) (key : Z) : M Z :=
  modify (hash_add p (hash_min key)) ;;
  modify (list_add_tail p) ;;
  modify (fun w => set_num (num w + 1) w) ;;
  insert_evict.

(** Lines 73-106 of [dns_cache_insert], for the block [p] that [malloc]
    returned: the checks of the request, then the linking. *)
Definition insert_fill (p : ptr) (key : Z) (t : dns_type_t) (a : list byte)
  (addr_len : Z) : M Z :=
  e <- deref p ;;
  match t with
  | DNS_T_A =>
      if negb (addr_len =? DNS_RR_A_LEN) then insert_errout (Some p)
      else modify (store p (set_addr e (memcpy a DNS_RR_A_LEN))) ;;
           insert_link p key
  | DNS_T_AAAA =>
      if negb (addr_len =? DNS_RR_AAAA_LEN) then insert_errout (Some p)
      else modify (store p (set_addr e (memcpy a DNS_RR_AAAA_LEN))) ;;
           insert_link p key
  | DNS_T_OTHER _ => insert_errout (Some p)
  end.

(** [now] is the clock read by the lookup, [stamp] the clock read into
    [insert_time], [alloc] tells whether [malloc] returns a block. *)
Definition dns_cache_insert (now stamp : Z) (alloc : bool) (d : string) (ttl0 : Z)
  (t : dns_type_t) (a : list byte) (addr_len : Z) : M Z :=
  w <- get_world ;;
  if size w <=? 0 then ret 0
  else
    found <- dns_cache_get now d t ;;
    match found with
    | Some p => dns_cache_release p ;; ret 0
    | None =>
        dns_cache <- malloc alloc
          (mk_dns_cache (strncpy d DNS_MAX_CNAME_LEN) t ttl0 [] stamp 1) ;;
        match dns_cache with
        | None => insert_errout None
        | Some p => insert_fill p (cache_key d t) t a addr_len
        end
    end.

Definition dns_cache_get_ttl (now : Z) (p : ptr) : M Z :=
  e <- deref p ;;
  let ttl0 := int_of_time_t (insert_time e + ttl e - now) in
  if ttl0 <? 0 then ret 0 else ret ttl0.

Definition dns_cache_delete (p : ptr) : M unit :=
  _ <- deref p ;;
  modify (hash_del p) ;;
  modify (list_del_init p) ;;
  dns_cache_release p.

Definition dns_cache_update (p : ptr) : M unit :=
  _ <- deref p ;;
  w <- get_world ;;
  if negb (list_empty p w)
  then modify (list_del_init p) ;; modify (list_add_tail p)
  else ret tt.

(** The [list_for_each_entry_safe] loop of [dns_cache_invalidate] over the
    entries that were listed when the sweep began; the body unlinks the
    current entry only. *)
Fixpoint invalidate_loop (now : Z) (l : list ptr) : M unit :=
  match l with
  | [] => ret tt
  | p :: rest =>
      e <- deref p ;;
      let ttl0 := int_of_time_t (insert_time e + ttl e - now) in
      if ttl0 >? 0 then ret tt
      else
        modify (hash_del p) ;;
        modify (list_del_init p) ;;
        dns_cache_release p ;;
        invalidate_loop now rest
  end.

Definition dns_cache_invalidate (now : Z) : M unit :=
  w <- get_world ;;
  if size w <=? 0 then ret tt
  else invalidate_loop now (cache_list w).

Fixpoint destroy_loop (l : list ptr) : M unit :=
  match l with
  | [] => ret tt
  | p :: rest => _ <- deref p ;; _dns_cache_delete p ;; destroy_loop rest
  end.

Definition dns_cache_destroy : M unit :=
  w <- get_world ;;
  destroy_loop (cache_list w).

End Cache.

(** ** Sequences of operations *)

(** The arguments of one [dns_cache_insert] call, with what the
    environment answers during the call: the two clock values it reads and
    whether its [malloc] returns a block. *)
Record request : Type := mk_request {
  r_now : Z;
  r_stamp : Z;
  r_alloc : bool;
  r_domain : string;
  r_ttl : Z;
  r_type : dns_type_t;
  r_addr : list byte;
  r_len : Z
}.

(** The calls a collaborator can make, handles being addresses. *)
Inductive op : Type :=
| OpInsert (r : request)
| OpGet (now : Z) (d : string) (t : dns_type_t)
| OpRelease (p : ptr)
| OpUpdate (p : ptr)
| OpDelete (p : ptr)
| OpInvalidate (now : Z).

Section Runs.

Variable hash_string : string -> Z.
Variable jhash : dns_type_t -> Z -> Z.
Variable hash_min : Z -> Z.
Variable DNS_MAX_CNAME_LEN : nat.

(** The chain the lookup of a key walks. *)
Definition chain_of (d : string) (t : dns_type_t) (w : world) : list ptr :=
  hash_possible (hash_min (cache_key hash_string jhash d t)) w.

Definition insert_request (r : request) : M Z :=
  dns_cache_insert hash_string jhash hash_min DNS_MAX_CNAME_LEN
    (r_now r) (r_stamp r) (r_alloc r) (r_domain r) (r_ttl r) (r_type r)
    (r_addr r) (r_len r).

(** The inserts of a list of requests, one after the other, with the
    statuses they return. *)
Fixpoint insert_all (l : list request) : M (list Z) :=
  match l with
  | [] => ret []
  | r :: rest =>
      s <- insert_request r ;;
      ss <- insert_all rest ;;
      ret (s :: ss)
  end.

Definition run_op (o : op) : M unit :=
  match o with
  | OpInsert r => insert_request r ;; ret tt
  | OpGet now d t =>
      dns_cache_get hash_string jhash hash_min DNS_MAX_CNAME_LEN now d t ;; ret tt
  | OpRelease p => dns_cache_release p
  | OpUpdate p => dns_cache_update p
  | OpDelete p => dns_cache_delete p
  | OpInvalidate now => dns_cache_invalidate now
  end.

Fixpoint run_ops (l : list op) : M unit :=
  match l with
  | [] => ret tt
  | o :: rest => run_op o ;; run_ops rest
  end.

End Runs.

(** The entry a request creates, as [dns_cache_insert] fills it in. *)
Definition entry_of (n : nat) (r : request) : dns_cache :=
  mk_dns_cache (strncpy (r_domain r) n) (r_type r) (r_ttl r)
    (match r_type r with
     | DNS_T_A => memcpy (r_addr r) DNS_RR_A_LEN
     | DNS_T_AAAA => memcpy (r_addr r) DNS_RR_AAAA_LEN
     | DNS_T_OTHER _ => []
     end)
    (r_stamp r) 1.

(** The world once lines 68-98 have allocated, filled in and linked the entry
    of a request, before the capacity test. *)
Definition linked_world (hash_string : string -> Z) (jhash : dns_type_t -> Z -> Z)
  (hash_min : Z -> Z) (n : nat) (r : request) (w : world) : world :=
  mk_world
    ((hash_min (cache_key hash_string jhash (r_domain r) (r_type r)),
      List.length (heap w)) :: cache_hash w)
    (cache_list w ++ [List.length (heap w)])
    (num w + 1) (size w)
    (heap w ++ [Some (entry_of n r)]).

(** The record type is supported and the address length is the one of the
    type: the request passes the checks of lines 80-92. *)
Definition valid_request (r : request) : bool :=
  match r_type r with
  | DNS_T_A => r_len r =? DNS_RR_A_LEN
  | DNS_T_AAAA => r_len r =? DNS_RR_AAAA_LEN
  | DNS_T_OTHER _ => false
  end.

(** The key under which the table compares an entry: the domain as far as
    [strncmp] looks, and the type. *)
Definition stored_key (n : nat) (d : string) (t : dns_type_t) : string * dns_type_t :=
  (str_prefix n d, t).

(** The test of lines 133-139 on one entry of a chain. *)
Definition key_match (n : nat) (d : string) (t : dns_type_t) (e : dns_cache) : bool :=
  dns_type_eqb (qtype e) t && (strncmp d (domain e) n =? 0).

(** ** The sweep, entry by entry *)

(** The body of the loop of [dns_cache_invalidate] for an expired entry
    (lines 212-214). *)
Definition sweep_one (p : ptr) : M unit :=
  modify (hash_del p) ;;
  modify (list_del_init p) ;;
  dns_cache_release p.

(** One call after the other, from the head of [l] to its end. *)
Fixpoint for_each (f : ptr -> M unit) (l : list ptr) : M unit :=
  match l with
  | [] => ret tt
  | p :: rest => f p ;; for_each f rest
  end.

(** The remaining TTL of an entry as [dns_cache_get_ttl] reports it. *)
Definition remaining_ttl (now : Z) (p : ptr) (w : world) : option Z :=
  option_map fst (dns_cache_get_ttl now p w).

(** Following the spec's words: the remaining TTL of the entry at [p],
    "max(0, inserted_at + ttl - now)", computed without any narrowing. *)
Definition spec_remaining_ttl (now : Z) (p : ptr) (w : world) : option Z :=
  option_map (fun e => Z.max 0 (insert_time e + ttl e - now)) (heap_get p (heap w)).

(** The value [insert_time + ttl - now] of the entry at [p] is representable
    in the [int] that lines 165 and 207 assign it to. *)
Definition ttl_fits_int (now : Z) (w : world) (p : ptr) : bool :=
  match heap_get p (heap w) with
  | Some e => (INT_MIN <=? insert_time e + ttl e - now)
              && (insert_time e + ttl e - now <=? INT_MAX)
  | None => false
  end.

(** The test of lines 207-210 on the entry at [p]: the sweep goes on. *)
Definition sweep_expired (now : Z) (w : world) (p : ptr) : bool :=
  match heap_get p (heap w) with
  | Some e => negb (int_of_time_t (insert_time e + ttl e - now) >? 0)
  | None => false
  end.

(** The entries at the head of [l] up to the first one that is not expired. *)
Fixpoint expired_prefix (now : Z) (w : world) (l : list ptr) : list ptr :=
  match l with
  | [] => []
  | p :: rest =>
      if sweep_expired now w p then p :: expired_prefix now w rest else []
  end.

(** Membership of an address in a list of addresses. *)
Definition mem_ptr (p : ptr) (l : list ptr) : bool := existsb (Nat.eqb p) l.

(** ** Well-formed tables *)

(** The nodes of the list and of the chains are allocated blocks, and no
    node is listed twice. *)
Record table_ok (w : world) : Prop := mk_table_ok {
  ok_list_live : forall p, In p (cache_list w) -> heap_get p (heap w) <> None;
  ok_hash_live : forall b p, In (b, p) (cache_hash w) -> heap_get p (heap w) <> None;
  ok_list_nodup : NoDup (cache_list w)
}.

(** The world of a process that has not used the cache yet. *)
Definition boot : world := mk_world [] [] 0 0 [].

(** ** Tables described by their content *)

Section Contents.

Variable hash_string : string -> Z.
Variable jhash : dns_type_t -> Z -> Z.
Variable hash_min : Z -> Z.
Variable DNS_MAX_CNAME_LEN : nat.

(** The key of a request as the table compares it. *)
Definition request_key (r : request) : string * dns_type_t :=
  stored_key DNS_MAX_CNAME_LEN (r_domain r) (r_type r).

(** The (bucket, node) pair of the entry at [fst it] created by [snd it]. *)
Definition item_node (it : ptr * request) : Z * ptr :=
  (hash_min (cache_key hash_string jhash (r_domain (snd it)) (r_type (snd it))),
   fst it).

(** [holds w items]: the table of [w] consists of the entries of [items],
    each at its address and as its request created it with the table's
    reference only, listed in the order of [items] and chained in the
    reverse order. *)
Record holds (w : world) (items : list (ptr * request)) : Prop := mk_holds {
  h_list : cache_list w = map fst items;
  h_hash : cache_hash w = rev (map item_node items);
  h_num : num w = Z.of_nat (List.length items);
  h_heap : forall it, In it items ->
             heap_get (fst it) (heap w) = Some (entry_of DNS_MAX_CNAME_LEN (snd it));
  h_nodup : NoDup (map fst items)
}.

End Contents.

(** ** Further predicates on worlds and calls *)

(** The calls that test [dns_cache_head.size <= 0] first and return at once
    on a disabled cache (lines 58, 122 and 199). *)
Definition guarded_call (o : op) : bool :=
  match o with
  | OpInsert _ => true
  | OpGet _ _ _ => true
  | OpInvalidate _ => true
  | OpRelease _ => false
  | OpUpdate _ => false
  | OpDelete _ => false
  end.

(** The number of allocated blocks of a heap. *)
Fixpoint live_count (h : list (option dns_cache)) : Z :=
  match h with
  | [] => 0
  | Some _ :: t => 1 + live_count t
  | None :: t => live_count t
  end.

(** Every allocated entry holds at least one reference. *)
Definition refs_positive (w : world) : Prop :=
  forall p e, heap_get p (heap w) = Some e -> 1 <= ref e.

(** An entry is in the list exactly when it is in a chain. *)
Definition list_matches_chains (w : world) : Prop :=
  forall p, In p (cache_list w) <-> exists b, In (b, p) (cache_hash w).

(** [num] is the number of allocated blocks, less the [k] blocks that were
    allocated when the table was initialised. *)
Definition counts_blocks (k : Z) (w : world) : Prop :=
  num w + k = live_count (heap w).

(** ** Sample instances of the parameters

    Used to run the model on concrete inputs: 256 for the domain bound, a
    multiplicative string hash, a mixing step for the type, and the low ten
    bits for the bucket. *)
Definition sample_hash_string (s : string) : Z :=
  fold_left (fun h c => (h * 33 + Z.of_nat (nat_of_ascii c)) mod 2 ^ 32)
            (list_ascii_of_string s) 5381.

Definition sample_jhash (t : dns_type_t) (k : Z) : Z :=
  match t with
  | DNS_T_A => (k * 31 + 1) mod 2 ^ 32
  | DNS_T_AAAA => (k * 31 + 28) mod 2 ^ 32
  | DNS_T_OTHER c => (k * 31 + c) mod 2 ^ 32
  end.

Definition sample_hash_min (k : Z) : Z := k mod 2 ^ 10.

Definition sample_len : nat := 256.

Definition s_insert (r : request) : M Z :=
  insert_request sample_hash_string sample_jhash sample_hash_min sample_len r.

Definition s_get (now : Z) (d : string) (t : dns_type_t) : M (option ptr) :=
  dns_cache_get sample_hash_string sample_jhash sample_hash_min sample_len now d t.

Definition addr4 (a b c d : byte) : list byte := [a; b; c; d].

Definition req_a : request :=
  mk_request 0 0 true "a.com" 10 DNS_T_A (addr4 x01 x02 x03 x04) 4.
Definition req_b : request :=
  mk_request 0 0 true "b.com" 10 DNS_T_A (addr4 x05 x06 x07 x08) 4.
Definition req_c : request :=
  mk_request 0 0 true "c.com" 10 DNS_T_A (addr4 x09 x09 x09 x09) 4.

Definition req_x : request :=
  mk_request 0 0 true "x.com" 1 DNS_T_A (addr4 x01 x01 x01 x01) 4.


(** A domain of 260 characters and a request for it. *)
Definition long_domain : string :=
  string_of_list_ascii (repeat "a"%char 256 ++ list_ascii_of_string ".com").

Definition req_long : request :=
  mk_request 0 0 true long_domain 10 DNS_T_A (addr4 x01 x02 x03 x04) 4.

(** The world a computation leaves ([w] itself when it is undefined). *)
Definition world_after {A : Type} (m : M A) (w : world) : world :=
  match m w with
  | Some (_, w') => w'
  | None => w
  end.

(** [init(2)] and nothing else. *)
Definition w_empty : world :=
  Eval vm_compute in world_after (dns_cache_init 2) boot.

(** [init(1)], the insert of "a.com". *)
Definition w_one : world :=
  Eval vm_compute in world_after (dns_cache_init 1 ;; s_insert req_a) boot.

(** [init(1)], the insert of "a.com" and a lookup whose handle is kept. *)
Definition w_held : world :=
  Eval vm_compute in
    world_after (dns_cache_init 1 ;; s_insert req_a ;; s_get 0 "a.com" DNS_T_A) boot.

(** [init(1)], the insert of "x.com" with ttl 1 at time 0 and a lookup at
    time 0 whose handle is kept. *)
Definition w_stale : world :=
  Eval vm_compute in
    world_after (dns_cache_init 1 ;; s_insert req_x ;; s_get 0 "x.com" DNS_T_A) boot.

(** [init(3)], the inserts of "x.com" (ttl 1) and "a.com" (ttl 10) at time 0. *)
Definition w_two : world :=
  Eval vm_compute in
    world_after (dns_cache_init 3 ;; s_insert req_x ;; s_insert req_a) boot.

(** A request for "a.com" with an address length that is not the one of
    type A, and one for "x.com" made at time 2. *)
Definition req_bad : request :=
  mk_request 0 0 true "a.com" 10 DNS_T_A (addr4 x01 x02 x03 x04) 5.
Definition req_x_bad : request :=
  mk_request 2 2 true "x.com" 10 DNS_T_A (addr4 x01 x02 x03 x04) 16.

(** A request for "b.com" whose [malloc] returns NULL. *)
Definition req_nomem : request :=
  mk_request 0 0 false "b.com" 10 DNS_T_A (addr4 x05 x06 x07 x08) 4.

(** [init(3)], the inserts of "a.com" (ttl 10) and "x.com" (ttl 1) at time 0:
    the entry with the shorter ttl is behind the other. *)
Definition w_behind : world :=
  Eval vm_compute in
    world_after (dns_cache_init 3 ;; s_insert req_a ;; s_insert req_x) boot.

(** A request for "a.com" made at time 10 with the largest ttl an [int]
    holds, and the table of capacity 1 that holds its entry. *)
Definition req_far : request :=
  mk_request 10 10 true "a.com" 2147483647 DNS_T_A (addr4 x01 x02 x03 x04) 4.

Definition w_far : world :=
  Eval vm_compute in world_after (dns_cache_init 1 ;; s_insert req_far) boot.

(** [init(2)], the inserts of "a.com" and "b.com": a full table. *)
Definition w_full : world :=
  Eval vm_compute in
    world_after (dns_cache_init 2 ;; s_insert req_a ;; s_insert req_b) boot.

(** Calls of a collaborator: "x.com" is inserted, looked up (the handle is
    kept), deleted through the handle, then "a.com" is inserted. *)
Definition sample_calls : list op :=
  [OpInsert req_x; OpGet 0 "x.com" DNS_T_A; OpDelete 0%nat; OpInsert req_a].

Definition s_run (c : Z) (l : list op) : M unit :=
  dns_cache_init c ;;
  run_ops sample_hash_string sample_jhash sample_hash_min sample_len l.

Definition w_calls : world :=
  Eval vm_compute in world_after (s_run 3 sample_calls) boot.

(** * Properties *)

(** ** The heap *)

Lemma heap_get_set_same (p : ptr) (v : option dns_cache) (h : list (option dns_cache)) :
  (p < List.length h)%nat -> heap_get p (heap_set p v h) = v.
Proof.
  unfold heap_get. revert p.
  induction h as [|x h IH]; intros [|p] Hlt; simpl in *; try lia.
  - destruct v; reflexivity.
  - apply IH. lia.
Qed.

Lemma heap_get_set_other (p q : ptr) (v : option dns_cache) (h : list (option dns_cache)) :
  q <> p -> heap_get q (heap_set p v h) = heap_get q h.
Proof.
  unfold heap_get. revert p q.
  induction h as [|x h IH]; intros [|p] [|q] Hne; simpl; try reflexivity.
  - contradiction.
  - apply IH. congruence.
Qed.

Lemma heap_get_lt (p : ptr) (h : list (option dns_cache)) :
  heap_get p h <> None -> (p < List.length h)%nat.
Proof.
  unfold heap_get. intros H. apply nth_error_Some.
  destruct (nth_error h p); congruence.
Qed.

Lemma heap_set_set (p : ptr) (v v' : option dns_cache) (h : list (option dns_cache)) :
  heap_set p v (heap_set p v' h) = heap_set p v h.
Proof.
  revert p. induction h as [|x h IH]; intros [|p]; simpl; auto.
  f_equal. apply IH.
Qed.

Lemma heap_set_get (p : ptr) (e : dns_cache) (h : list (option dns_cache)) :
  heap_get p h = Some e -> heap_set p (Some e) h = h.
Proof.
  unfold heap_get. revert p.
  induction h as [|x h IH]; intros [|p] H; simpl in *; try reflexivity.
  - destruct x; congruence.
  - f_equal. apply IH. exact H.
Qed.

Lemma heap_get_app_old (p : ptr) (h h' : list (option dns_cache)) :
  (p < List.length h)%nat -> heap_get p (h ++ h') = heap_get p h.
Proof.
  intros Hlt. unfold heap_get. rewrite nth_error_app1 by exact Hlt. reflexivity.
Qed.

Lemma heap_get_app_new (e : option dns_cache) (h : list (option dns_cache)) :
  heap_get (List.length h) (h ++ [e]) = e.
Proof.
  unfold heap_get. rewrite nth_error_app2 by lia.
  rewrite Nat.sub_diag. simpl. destruct e; reflexivity.
Qed.

Lemma heap_set_app_new (v e : option dns_cache) (h : list (option dns_cache)) :
  heap_set (List.length h) v (h ++ [e]) = h ++ [v].
Proof.
  induction h as [|x h IH]; simpl; [reflexivity | f_equal; exact IH].
Qed.

(** ** C strings and machine integers *)

Lemma str_prefix_idem (n : nat) (s : string) :
  str_prefix n (str_prefix n s) = str_prefix n s.
Proof.
  revert s. induction n as [|n IH]; intros [|c s]; simpl; try reflexivity.
  f_equal. apply IH.
Qed.

Lemma str_prefix_all (n : nat) (s : string) :
  (String.length s <= n)%nat -> str_prefix n s = s.
Proof.
  revert s. induction n as [|n IH]; intros [|c s] H; simpl in *; try reflexivity; try lia.
  f_equal. apply IH. lia.
Qed.

Lemma string_compare_refl (s : string) : String.compare s s = Eq.
Proof.
  induction s as [|c s IH]; simpl; [reflexivity|].
  unfold Ascii.compare. rewrite N.compare_refl. exact IH.
Qed.

Lemma strncmp_zero (s1 s2 : string) (n : nat) :
  strncmp s1 s2 n = 0 <-> str_prefix n s1 = str_prefix n s2.
Proof.
  unfold strncmp. split.
  - destruct (String.compare (str_prefix n s1) (str_prefix n s2)) eqn:Hc;
      try discriminate.
    intros _. apply String.compare_eq_iff. exact Hc.
  - intros ->. rewrite string_compare_refl. reflexivity.
Qed.

Lemma dns_type_eqb_eq (a b : dns_type_t) : dns_type_eqb a b = true <-> a = b.
Proof.
  destruct a, b; simpl; split; intros H; try congruence; try discriminate.
  - apply Z.eqb_eq in H. congruence.
  - inversion H. apply Z.eqb_refl.
Qed.

(** An entry passes the test of the lookup loop exactly when its stored key
    is the key the table compares the query under. *)
Lemma key_match_stored (n : nat) (d : string) (t : dns_type_t) (e : dns_cache) :
  str_prefix n (domain e) = domain e ->
  key_match n d t e = true <-> stored_key n d t = (domain e, qtype e).
Proof.
  intros Hpre. unfold key_match, stored_key.
  rewrite andb_true_iff, dns_type_eqb_eq, Z.eqb_eq, strncmp_zero, Hpre.
  split; [intros [-> ->]; reflexivity | intros H; inversion H; auto].
Qed.

Lemma int_of_time_t_small (z : Z) :
  INT_MIN <= z <= INT_MAX -> int_of_time_t z = z.
Proof.
  unfold INT_MIN, INT_MAX, int_of_time_t. intros H.
  rewrite Z.mod_small; lia.
Qed.

(** ** The operations, one equation per path *)

Ltac unfold_m :=
  unfold bind, ret, modify, get_world, deref, undefined_behaviour, malloc in *.

Lemma dns_cache_release_eq (p : ptr) (e : dns_cache) (w : world) :
  heap_get p (heap w) = Some e ->
  dns_cache_release p w =
  Some (tt, if ref e - 1 =? 0 then deleted p w
            else store p (set_ref e (ref e - 1)) w).
Proof.
  intros H. unfold dns_cache_release, _dns_cache_delete. unfold_m. rewrite H.
  destruct (ref e - 1 =? 0) eqn:Hr; simpl; rewrite ?Hr; simpl; [|reflexivity].
  unfold deleted, free, set_heap, store. simpl.
  rewrite heap_set_set. reflexivity.
Qed.

Section Properties.

Set Warnings "-notation-for-abbreviation".

Variable hash_string : string -> Z.
Variable jhash : dns_type_t -> Z -> Z.
Variable hash_min : Z -> Z.
Variable DNS_MAX_CNAME_LEN : nat.

Local Notation cache_get :=
  (dns_cache_get hash_string jhash hash_min DNS_MAX_CNAME_LEN).
Local Notation cache_insert :=
  (dns_cache_insert hash_string jhash hash_min DNS_MAX_CNAME_LEN).
Local Notation lookup := (cache_lookup DNS_MAX_CNAME_LEN).
Local Notation bucket_of d t := (hash_min (cache_key hash_string jhash d t)).
Local Notation matches := (key_match DNS_MAX_CNAME_LEN).
Local Notation chain_of := (chain_of hash_string jhash hash_min).

Lemma lookup_pure (d : string) (t : dns_type_t) (chain : list ptr) (w w' : world)
  (r : option ptr) :
  lookup d t chain w = Some (r, w') -> w' = w.
Proof.
  induction chain as [|p rest IH]; simpl; unfold_m.
  - intros H. inversion H. reflexivity.
  - destruct (heap_get p (heap w)) as [e|]; [|discriminate].
    destruct (negb (dns_type_eqb (qtype e) t)); [exact IH|].
    destruct (negb (strncmp d (domain e) DNS_MAX_CNAME_LEN =? 0)); [exact IH|].
    intros H. inversion H. reflexivity.
Qed.

Lemma lookup_step (d : string) (t : dns_type_t) (p : ptr) (rest : list ptr)
  (e : dns_cache) (w : world) :
  heap_get p (heap w) = Some e ->
  lookup d t (p :: rest) w =
  if matches d t e then Some (Some p, w) else lookup d t rest w.
Proof.
  intros H. simpl. unfold_m. rewrite H. unfold key_match.
  destruct (dns_type_eqb (qtype e) t); simpl; [|reflexivity].
  destruct (strncmp d (domain e) DNS_MAX_CNAME_LEN =? 0); reflexivity.
Qed.

(** A chain of allocated nodes none of which holds the key: a miss. *)
Lemma lookup_miss (d : string) (t : dns_type_t) (chain : list ptr) (w : world) :
  (forall p, In p chain ->
             exists e, heap_get p (heap w) = Some e /\ matches d t e = false) ->
  lookup d t chain w = Some (None, w).
Proof.
  induction chain as [|p rest IH]; intros H; [reflexivity|].
  destruct (H p (or_introl eq_refl)) as (e & He & Hm).
  rewrite (lookup_step _ _ _ _ _ _ He), Hm.
  apply IH. intros q Hq. apply H. right. exact Hq.
Qed.

(** A chain of allocated nodes exactly one of which holds the key: that
    node is found. *)
Lemma lookup_unique (d : string) (t : dns_type_t) (chain : list ptr) (w : world)
  (p : ptr) :
  In p chain ->
  (forall q, In q chain ->
             exists e, heap_get q (heap w) = Some e /\
                       (matches d t e = true <-> q = p)) ->
  lookup d t chain w = Some (Some p, w).
Proof.
  induction chain as [|q rest IH]; intros Hin H; [contradiction|].
  destruct (H q (or_introl eq_refl)) as (e & He & Hm).
  rewrite (lookup_step _ _ _ _ _ _ He).
  destruct (matches d t e) eqn:Hme.
  - assert (q = p) by (apply Hm; reflexivity). subst. reflexivity.
  - destruct Hin as [->|Hin].
    + destruct Hm as [_ Hm]. specialize (Hm eq_refl). discriminate.
    + apply IH; [exact Hin|]. intros q' Hq'. apply H. right. exact Hq'.
Qed.

(** A found node is an allocated node of the chain and holds the key. *)
Lemma lookup_sound (d : string) (t : dns_type_t) (chain : list ptr) (w w' : world)
  (p : ptr) :
  lookup d t chain w = Some (Some p, w') ->
  In p chain /\ exists e, heap_get p (heap w) = Some e /\ matches d t e = true.
Proof.
  induction chain as [|q rest IH]; simpl.
  - unfold_m. discriminate.
  - intros H. destruct (heap_get q (heap w)) as [e|] eqn:He.
    + change (lookup d t (q :: rest) w = Some (Some p, w')) in H.
      rewrite (lookup_step _ _ _ _ _ _ He) in H.
      destruct (matches d t e) eqn:Hm.
      * inversion H; subst. split; [left; reflexivity|]. exists e. auto.
      * destruct (IH H) as [Hin Hex]. split; [right; exact Hin | exact Hex].
    + unfold_m. rewrite He in H. discriminate.
Qed.

(** A chain of allocated nodes is walked without undefined behaviour. *)
Lemma lookup_defined (d : string) (t : dns_type_t) (chain : list ptr) (w : world) :
  (forall p, In p chain -> heap_get p (heap w) <> None) ->
  exists r, lookup d t chain w = Some (r, w).
Proof.
  induction chain as [|p rest IH]; intros H.
  - exists None. reflexivity.
  - destruct (heap_get p (heap w)) as [e|] eqn:He.
    + rewrite (lookup_step _ _ _ _ _ _ He).
      destruct (matches d t e); [exists (Some p); reflexivity|].
      apply IH. intros q Hq. apply H. right. exact Hq.
    + exfalso. apply (H p); [left; reflexivity | exact He].
Qed.

Lemma chain_of_in (d : string) (t : dns_type_t) (w : world) (p : ptr) :
  In p (chain_of d t w) <-> In (bucket_of d t, p) (cache_hash w).
Proof.
  unfold chain_of, hash_possible. rewrite in_map_iff. split.
  - intros ([b q] & Hq & Hin). simpl in Hq. subst q.
    apply filter_In in Hin. destruct Hin as [Hin Hb]. simpl in Hb.
    apply Z.eqb_eq in Hb. subst b. exact Hin.
  - intros Hin. exists (bucket_of d t, p). split; [reflexivity|].
    apply filter_In. split; [exact Hin | apply Z.eqb_refl].
Qed.

(** *** [dns_cache_get] *)

Lemma get_disabled (now : Z) (d : string) (t : dns_type_t) (w : world) :
  size w <= 0 -> cache_get now d t w = Some (None, w).
Proof.
  intros H. unfold dns_cache_get. unfold_m.
  apply Z.leb_le in H. rewrite H. reflexivity.
Qed.

Lemma get_miss (now : Z) (d : string) (t : dns_type_t) (w : world) :
  0 < size w ->
  lookup d t (chain_of d t w) w = Some (None, w) ->
  cache_get now d t w = Some (None, w).
Proof.
  intros Hs Hl. unfold dns_cache_get. unfold_m.
  apply Z.leb_gt in Hs. rewrite Hs.
  unfold chain_of in Hl. rewrite Hl. reflexivity.
Qed.

Lemma get_stale (now : Z) (d : string) (t : dns_type_t) (w : world) (p : ptr)
  (e : dns_cache) :
  0 < size w ->
  lookup d t (chain_of d t w) w = Some (Some p, w) ->
  heap_get p (heap w) = Some e ->
  now - insert_time e > ttl e ->
  cache_get now d t w = Some (None, deleted p w).
Proof.
  intros Hs Hl He Hold. unfold dns_cache_get. unfold_m.
  apply Z.leb_gt in Hs. rewrite Hs.
  unfold chain_of in Hl. rewrite Hl, He.
  apply Z.gtb_gt in Hold. rewrite Hold. reflexivity.
Qed.

Lemma get_fresh (now : Z) (d : string) (t : dns_type_t) (w : world) (p : ptr)
  (e : dns_cache) :
  0 < size w ->
  lookup d t (chain_of d t w) w = Some (Some p, w) ->
  heap_get p (heap w) = Some e ->
  now - insert_time e <= ttl e ->
  cache_get now d t w = Some (Some p, store p (set_ref e (ref e + 1)) w).
Proof.
  intros Hs Hl He Hnew. unfold dns_cache_get. unfold_m.
  apply Z.leb_gt in Hs. rewrite Hs.
  unfold chain_of in Hl. rewrite Hl, He.
  assert (Hg : (now - insert_time e >? ttl e) = false).
  { rewrite Z.gtb_ltb. apply Z.ltb_ge. exact Hnew. }
  rewrite Hg. reflexivity.
Qed.

Lemma deleted_not_listed (p : ptr) (w : world) : ~ In p (cache_list (deleted p w)).
Proof.
  simpl. intros H. apply filter_In in H. destruct H as [_ H].
  rewrite Nat.eqb_refl in H. discriminate.
Qed.

Lemma deleted_not_hashed (p : ptr) (w : world) (b : Z) :
  ~ In (b, p) (cache_hash (deleted p w)).
Proof.
  simpl. intros H. apply filter_In in H. destruct H as [_ H].
  simpl in H. rewrite Nat.eqb_refl in H. discriminate.
Qed.

Lemma deleted_freed (p : ptr) (w : world) :
  heap_get p (heap w) <> None -> nth_error (heap (deleted p w)) p = Some None.
Proof.
  intros H. apply heap_get_lt in H. simpl.
  revert p H. induction (heap w) as [|x h IH]; intros [|p] H; simpl in *; try lia.
  - reflexivity.
  - apply IH. lia.
Qed.

(** C3: [dns_cache_get] never hands out an entry that is stale by the test
    [now - insert_time > ttl].  On every table whose chain nodes are
    allocated the call returns; a returned handle designates an entry with
    [now - insert_time <= ttl]; and when the entry the lookup locates is
    stale, the caller gets the miss of an absent key and the entry is gone
    from the list and from every chain.  Nothing is assumed about earlier
    sweeps. *)
Theorem get_never_returns_expired (now : Z) (d : string) (t : dns_type_t) (w : world) :
  (forall b p, In (b, p) (cache_hash w) -> heap_get p (heap w) <> None) ->
  exists r w',
    cache_get now d t w = Some (r, w') /\
    (forall p, r = Some p ->
       exists e, heap_get p (heap w) = Some e /\
                 now - insert_time e <= ttl e /\
                 heap_get p (heap w') = Some (set_ref e (ref e + 1))) /\
    (forall p e,
       0 < size w ->
       lookup d t (chain_of d t w) w = Some (Some p, w) ->
       heap_get p (heap w) = Some e ->
       now - insert_time e > ttl e ->
       r = None /\ ~ In p (cache_list w') /\ forall b, ~ In (b, p) (cache_hash w')).
Proof.
  intros Hlive.
  destruct (Z_le_gt_dec (size w) 0) as [Hs|Hs].
  { exists None, w. rewrite get_disabled by exact Hs.
    split; [reflexivity|]. split; [discriminate | lia]. }
  assert (Hs' : 0 < size w) by lia.
  destruct (lookup_defined d t (chain_of d t w) w) as [r0 Hl].
  { intros p Hin. apply chain_of_in in Hin. exact (Hlive _ _ Hin). }
  destruct r0 as [p|].
  - destruct (lookup_sound _ _ _ _ _ _ Hl) as (_ & e & He & _).
    destruct (Z_le_gt_dec (now - insert_time e) (ttl e)) as [Hnew|Hold].
    + exists (Some p), (store p (set_ref e (ref e + 1)) w).
      rewrite (get_fresh _ _ _ _ _ _ Hs' Hl He Hnew).
      split; [reflexivity|]. split.
      * intros q Hq. inversion Hq; subst q. exists e.
        repeat split; try assumption. simpl.
        apply heap_get_set_same. apply heap_get_lt. congruence.
      * intros q e' _ Hl' He' Hold. rewrite Hl in Hl'. inversion Hl'; subst q.
        rewrite He in He'. inversion He'; subst e'. lia.
    + exists None, (deleted p w).
      rewrite (get_stale _ _ _ _ _ _ Hs' Hl He Hold).
      split; [reflexivity|]. split; [discriminate|].
      intros q e' _ Hl' _ _. rewrite Hl in Hl'. inversion Hl'; subst q.
      split; [reflexivity|]. split;
        [apply deleted_not_listed | intros b; apply deleted_not_hashed].
  - exists None, w. rewrite (get_miss _ _ _ _ Hs' Hl).
    split; [reflexivity|]. split; [discriminate|].
    intros q e' _ Hl' _ _. rewrite Hl in Hl'. discriminate.
Qed.

(** C1: the path of [dns_cache_get] for a stale entry calls
    [_dns_cache_delete], which frees the block whatever its reference count:
    an entry located by the lookup, stale at [now] and still referenced by an
    outstanding handle ([ref >= 2]: the table's unit and the caller's) is
    freed by the call, its count never having reached 0; the handle dangles,
    and its release is a use after free. *)
Theorem get_frees_stale_entry_with_handle (now : Z) (d : string) (t : dns_type_t)
  (w : world) (p : ptr) (e : dns_cache) :
  0 < size w ->
  lookup d t (chain_of d t w) w = Some (Some p, w) ->
  heap_get p (heap w) = Some e ->
  now - insert_time e > ttl e ->
  2 <= ref e ->
  exists w',
    cache_get now d t w = Some (None, w') /\
    nth_error (heap w') p = Some None /\
    ~ In p (cache_list w') /\
    num w' = num w - 1 /\
    dns_cache_release p w' = None.
Proof.
  intros Hs Hl He Hold _. exists (deleted p w).
  rewrite (get_stale _ _ _ _ _ _ Hs Hl He Hold).
  split; [reflexivity|]. split; [apply deleted_freed; congruence|].
  split; [apply deleted_not_listed|]. split; [reflexivity|].
  unfold dns_cache_release, bind, deref. simpl.
  rewrite heap_get_set_same by (apply heap_get_lt; congruence). reflexivity.
Qed.

(** *** [dns_cache_insert] *)

Lemma store_store_back (p : ptr) (e e' : dns_cache) (w : world) :
  heap_get p (heap w) = Some e -> store p e (store p e' w) = w.
Proof.
  intros H. destruct w as [ch cl n s h]. unfold store, set_heap. simpl in *.
  rewrite heap_set_set, (heap_set_get _ _ _ H). reflexivity.
Qed.

Lemma set_ref_back (e : dns_cache) (r : Z) : set_ref (set_ref e r) (ref e) = e.
Proof. destruct e. reflexivity. Qed.

Lemma insert_disabled (now stamp : Z) (alloc : bool) (d : string) (ttl0 : Z)
  (t : dns_type_t) (a : list byte) (len : Z) (w : world) :
  size w <= 0 -> cache_insert now stamp alloc d ttl0 t a len w = Some (0, w).
Proof.
  intros H. unfold dns_cache_insert. unfold_m.
  apply Z.leb_le in H. rewrite H. reflexivity.
Qed.

(** The insert for a key whose entry the lookup finds unexpired: the
    reference taken by the lookup is given back and nothing has changed. *)
Lemma insert_found_fresh (now stamp : Z) (alloc : bool) (d : string)
  (t : dns_type_t) (w : world) (p : ptr) (e : dns_cache) (ttl' : Z)
  (a' : list byte) (len' : Z) :
  0 < size w ->
  lookup d t (chain_of d t w) w = Some (Some p, w) ->
  heap_get p (heap w) = Some e ->
  now - insert_time e <= ttl e ->
  ref e <> 0 ->
  cache_insert now stamp alloc d ttl' t a' len' w = Some (0, w).
Proof.
  intros Hs Hl He Hnew Href.
  unfold dns_cache_insert.
  unfold bind at 1. unfold get_world.
  assert (Hs' : (size w <=? 0) = false) by (apply Z.leb_gt; exact Hs).
  rewrite Hs'. unfold bind at 1.
  rewrite (get_fresh _ _ _ _ _ _ Hs Hl He Hnew).
  unfold bind at 1.
  assert (Hget : heap_get p (heap (store p (set_ref e (ref e + 1)) w))
                 = Some (set_ref e (ref e + 1))).
  { simpl. apply heap_get_set_same. apply heap_get_lt. congruence. }
  rewrite (dns_cache_release_eq _ _ _ Hget). simpl.
  assert (Hr : (ref e + 1 - 1 =? 0) = false) by (apply Z.eqb_neq; lia).
  rewrite Hr. unfold ret. repeat f_equal.
  replace (ref e + 1 - 1) with (ref e) by lia.
  rewrite set_ref_back. apply store_store_back. exact He.
Qed.


Local Notation insert := (insert_request hash_string jhash hash_min DNS_MAX_CNAME_LEN).
Local Notation linked := (linked_world hash_string jhash hash_min DNS_MAX_CNAME_LEN).

Lemma insert_evict_eq (w : world) :
  insert_evict w =
  if num w >? size w
  then match cache_list w with
       | [] => None
       | p0 :: _ => match dns_cache_release p0 w with
                    | Some (_, w') => Some (0, w')
                    | None => None
                    end
       end
  else Some (0, w).
Proof.
  unfold insert_evict, _dns_cache_first. unfold_m.
  destruct (num w >? size w); [|reflexivity].
  destruct (cache_list w) as [|p0 l]; [reflexivity|].
  destruct (dns_cache_release p0 w) as [[[] w']|]; reflexivity.
Qed.

(** A request for a key the lookup does not return, when [malloc] returns
    NULL: -1 is returned and the world is the one the lookup left. *)
Lemma insert_nomem_eq (r : request) (w w1 : world) :
  0 < size w ->
  cache_get (r_now r) (r_domain r) (r_type r) w = Some (None, w1) ->
  r_alloc r = false ->
  insert r w = Some (-1, w1).
Proof.
  intros Hs Hg Ha. unfold insert_request, dns_cache_insert.
  unfold bind at 1. unfold get_world.
  assert (Hs' : (size w <=? 0) = false) by (apply Z.leb_gt; exact Hs).
  rewrite Hs'. unfold bind at 1. rewrite Hg.
  unfold bind at 1. unfold malloc. rewrite Ha. reflexivity.
Qed.

(** A valid request for a key the lookup does not return: the entry is
    allocated and linked, then the capacity test runs. *)
Lemma insert_new_eq (r : request) (w w1 : world) :
  0 < size w ->
  cache_get (r_now r) (r_domain r) (r_type r) w = Some (None, w1) ->
  r_alloc r = true ->
  valid_request r = true ->
  insert r w = insert_evict (linked r w1).
Proof.
  intros Hs Hg Ha Hv. unfold insert_request, dns_cache_insert.
  unfold bind at 1. unfold get_world.
  assert (Hs' : (size w <=? 0) = false) by (apply Z.leb_gt; exact Hs).
  rewrite Hs'. unfold bind at 1. rewrite Hg.
  unfold bind at 1. unfold malloc. rewrite Ha. unfold insert_fill.
  unfold bind at 1. unfold deref. simpl heap. rewrite heap_get_app_new.
  unfold valid_request in Hv. unfold linked_world, entry_of.
  destruct (r_type r) eqn:Ht; try discriminate; rewrite Hv; simpl negb; cbv iota;
    unfold insert_link, bind, modify, store, hash_add, list_add_tail, set_cache_hash,
      set_cache_list, set_num, set_heap, set_addr; simpl;
    rewrite heap_set_app_new; reflexivity.
Qed.

(** A request that fails the checks of lines 80-92: the block is freed and
    -1 is returned; the list, the chains and the count are those the lookup
    left. *)
Lemma insert_invalid_eq (r : request) (w w1 : world) :
  0 < size w ->
  cache_get (r_now r) (r_domain r) (r_type r) w = Some (None, w1) ->
  r_alloc r = true ->
  valid_request r = false ->
  insert r w = Some (-1, set_heap (heap w1 ++ [None]) w1).
Proof.
  intros Hs Hg Ha Hv. unfold insert_request, dns_cache_insert.
  unfold bind at 1. unfold get_world.
  assert (Hs' : (size w <=? 0) = false) by (apply Z.leb_gt; exact Hs).
  rewrite Hs'. unfold bind at 1. rewrite Hg.
  unfold bind at 1. unfold malloc. rewrite Ha. unfold insert_fill.
  unfold bind at 1. unfold deref. simpl heap. rewrite heap_get_app_new.
  unfold valid_request in Hv.
  destruct (r_type r) eqn:Ht; try rewrite Hv; simpl negb; cbv iota;
    unfold insert_errout, bind, modify, ret, free, set_heap; simpl;
    rewrite heap_set_app_new; reflexivity.
Qed.

Lemma str_prefix_length_exact (n : nat) (s : string) :
  (n <= String.length s)%nat -> String.length (str_prefix n s) = n.
Proof.
  revert s. induction n as [|n IH]; intros [|c s] H; simpl in *; try reflexivity; try lia.
  f_equal. apply IH. lia.
Qed.

(** C2: the eviction of lines 99-103 only drops a reference of the head of
    the list.  On a full table whose head entry is still referenced by an
    outstanding handle ([ref >= 2]), a valid insert of a new key (its
    [malloc] returning a block) returns 0 and leaves the head entry linked:
    the count and the length of the list are then one above the
    capacity. *)
Theorem insert_overflow_keeps_held_head (r : request) (w : world) (p0 : ptr)
  (rest : list ptr) (e0 : dns_cache) :
  0 < size w ->
  num w = size w ->
  num w = Z.of_nat (List.length (cache_list w)) ->
  lookup (r_domain r) (r_type r) (chain_of (r_domain r) (r_type r) w) w
    = Some (None, w) ->
  r_alloc r = true ->
  valid_request r = true ->
  cache_list w = p0 :: rest ->
  heap_get p0 (heap w) = Some e0 ->
  2 <= ref e0 ->
  exists w',
    insert r w = Some (0, w') /\
    cache_list w' = p0 :: rest ++ [List.length (heap w)] /\
    size w' = size w /\
    num w' = size w' + 1 /\
    Z.of_nat (List.length (cache_list w')) = size w' + 1 /\
    heap_get p0 (heap w') = Some (set_ref e0 (ref e0 - 1)).
Proof.
  intros Hs Hfull Hnum Hl Ha Hv Hlist He0 Href.
  pose proof (get_miss (r_now r) _ _ _ Hs Hl) as Hg.
  rewrite (insert_new_eq r w w Hs Hg Ha Hv), insert_evict_eq.
  assert (Hover : (num (linked r w) >? size (linked r w)) = true).
  { simpl. apply Z.gtb_gt. lia. }
  rewrite Hover.
  change (cache_list (linked r w)) with (cache_list w ++ [List.length (heap w)]).
  rewrite Hlist. simpl app. cbv iota.
  assert (He0' : heap_get p0 (heap (linked r w)) = Some e0).
  { simpl. rewrite heap_get_app_old; [exact He0|].
    apply heap_get_lt. congruence. }
  rewrite (dns_cache_release_eq _ _ _ He0').
  assert (Hr : (ref e0 - 1 =? 0) = false) by (apply Z.eqb_neq; lia).
  rewrite Hr. eexists. split; [reflexivity|]. simpl.
  split; [rewrite Hlist; reflexivity|].
  split; [reflexivity|]. split; [lia|]. split.
  - rewrite length_app. simpl List.length. lia.
  - apply heap_get_set_same. rewrite length_app. simpl.
    assert (p0 < List.length (heap w))%nat by (apply heap_get_lt; congruence). lia.
Qed.

(** C4 (amended): a domain longer than DNS_MAX_CNAME_LEN is not rejected.
    On a well-formed enabled table, a request with a supported type and
    matching address length whose key the lookup does not find (its
    [malloc] returning a block) returns 0 and leaves a new entry linked in
    the list and in the chain of its key; the entry holds the first
    DNS_MAX_CNAME_LEN characters of the domain. *)
Theorem insert_long_domain_truncates (r : request) (w : world) :
  (DNS_MAX_CNAME_LEN < String.length (r_domain r))%nat ->
  0 < size w ->
  table_ok w ->
  num w < size w \/ cache_list w <> [] ->
  lookup (r_domain r) (r_type r) (chain_of (r_domain r) (r_type r) w) w
    = Some (None, w) ->
  r_alloc r = true ->
  valid_request r = true ->
  exists w' e,
    insert r w = Some (0, w') /\
    heap_get (List.length (heap w)) (heap w') = Some e /\
    domain e = str_prefix DNS_MAX_CNAME_LEN (r_domain r) /\
    String.length (domain e) = DNS_MAX_CNAME_LEN /\
    domain e <> r_domain r /\
    In (List.length (heap w)) (cache_list w') /\
    In (bucket_of (r_domain r) (r_type r), List.length (heap w)) (cache_hash w').
Proof.
  intros Hlong Hs Hok Hroom Hl Ha Hv.
  pose proof (get_miss (r_now r) _ _ _ Hs Hl) as Hg.
  rewrite (insert_new_eq r w w Hs Hg Ha Hv), insert_evict_eq.
  set (p := List.length (heap w)).
  assert (Hdom : domain (entry_of DNS_MAX_CNAME_LEN r)
                 = str_prefix DNS_MAX_CNAME_LEN (r_domain r)) by reflexivity.
  assert (Hlen : String.length (domain (entry_of DNS_MAX_CNAME_LEN r))
                 = DNS_MAX_CNAME_LEN).
  { rewrite Hdom. apply str_prefix_length_exact. lia. }
  assert (Hne : domain (entry_of DNS_MAX_CNAME_LEN r) <> r_domain r).
  { intros Heq. rewrite Heq in Hlen. lia. }
  assert (Hnew : heap_get p (heap (linked r w)) = Some (entry_of DNS_MAX_CNAME_LEN r)).
  { simpl. apply heap_get_app_new. }
  destruct (num (linked r w) >? size (linked r w)) eqn:Hover.
  2:{ exists (linked r w), (entry_of DNS_MAX_CNAME_LEN r).
      repeat split; try assumption.
      - simpl. apply in_or_app. right. left. reflexivity.
      - simpl. left. reflexivity. }
  simpl in Hover. apply Z.gtb_gt in Hover.
  destruct Hroom as [Hroom|Hroom]; [lia|].
  destruct (cache_list w) as [|p0 rest] eqn:Hlist; [contradiction|].
  change (cache_list (linked r w)) with (cache_list w ++ [p]).
  rewrite Hlist. simpl app. cbv iota.
  assert (Hp0 : heap_get p0 (heap w) <> None).
  { apply (ok_list_live w Hok). rewrite Hlist. left. reflexivity. }
  assert (Hlt : (p0 < p)%nat) by (apply heap_get_lt; exact Hp0).
  destruct (heap_get p0 (heap w)) as [e0|] eqn:He0; [|contradiction].
  assert (He0' : heap_get p0 (heap (linked r w)) = Some e0).
  { simpl. rewrite heap_get_app_old; [exact He0 | exact Hlt]. }
  rewrite (dns_cache_release_eq _ _ _ He0').
  assert (Hpp : Nat.eqb p p0 = false) by (apply Nat.eqb_neq; lia).
  eexists. exists (entry_of DNS_MAX_CNAME_LEN r).
  split; [reflexivity|].
  destruct (ref e0 - 1 =? 0); simpl; rewrite ?Hlist;
    (split; [rewrite heap_get_set_other by lia; apply heap_get_app_new|]);
    repeat split; try assumption.
  - change (In p (filter (fun q => negb (Nat.eqb q p0)) ((p0 :: rest) ++ [p]))).
    apply filter_In. split; [apply in_or_app; right; left; reflexivity|].
    rewrite Hpp. reflexivity.
  - fold p. rewrite Hpp. simpl. left. reflexivity.
  - right. apply in_or_app. right. left. reflexivity.
  - left. reflexivity.
Qed.

(** *** [dns_cache_update] and [dns_cache_get_ttl] *)

Lemma list_empty_false_iff (p : ptr) (w : world) :
  list_empty p w = false <-> In p (cache_list w).
Proof.
  unfold list_empty. rewrite negb_false_iff, existsb_exists. split.
  - intros (q & Hin & Heq). apply Nat.eqb_eq in Heq. subst. exact Hin.
  - intros Hin. exists p. split; [exact Hin | apply Nat.eqb_refl].
Qed.

Lemma get_ttl_eq (now : Z) (p : ptr) (w : world) (e : dns_cache) :
  heap_get p (heap w) = Some e ->
  dns_cache_get_ttl now p w =
  Some (Z.max 0 (int_of_time_t (insert_time e + ttl e - now)), w).
Proof.
  intros H. unfold dns_cache_get_ttl. unfold_m. rewrite H.
  destruct (int_of_time_t (insert_time e + ttl e - now) <? 0) eqn:Hneg.
  - apply Z.ltb_lt in Hneg. rewrite Z.max_l by lia. reflexivity.
  - apply Z.ltb_ge in Hneg. rewrite Z.max_r by lia. reflexivity.
Qed.

(** C8: [dns_cache_update] through a valid handle returns and changes
    nothing but the list: the heap (hence every field of every entry), the
    chains, the count and the capacity are the same; a listed entry moves
    to the tail, and for an entry that is not listed the world is
    unchanged.  The remaining TTL of every entry is the same before and
    after. *)
Theorem update_only_moves_entry (p : ptr) (w : world) :
  heap_get p (heap w) <> None ->
  exists w',
    dns_cache_update p w = Some (tt, w') /\
    heap w' = heap w /\
    cache_hash w' = cache_hash w /\
    num w' = num w /\
    size w' = size w /\
    (In p (cache_list w) ->
     cache_list w' = filter (fun q => negb (Nat.eqb q p)) (cache_list w) ++ [p]) /\
    (~ In p (cache_list w) -> w' = w) /\
    (forall now q, remaining_ttl now q w' = remaining_ttl now q w).
Proof.
  intros Hlive. unfold dns_cache_update. unfold_m.
  destruct (heap_get p (heap w)) as [e|] eqn:He; [|contradiction].
  destruct (list_empty p w) eqn:Hemp; simpl.
  - exists w. repeat split; try reflexivity.
    intros Hin. apply list_empty_false_iff in Hin. congruence.
  - eexists. split; [reflexivity|]. simpl. repeat split.
    + intros Hn. exfalso. apply Hn. apply list_empty_false_iff. exact Hemp.
    + intros now q. unfold remaining_ttl, dns_cache_get_ttl. unfold_m. simpl.
      destruct (heap_get q (heap w)) as [e'|]; [|reflexivity].
      destruct (int_of_time_t (insert_time e' + ttl e' - now) <? 0); reflexivity.
Qed.

(** C9 (amended): when [insert_time + ttl - now] fits the [int] it is
    assigned to, [dns_cache_get_ttl] returns max(0, insert_time + ttl - now)
    and leaves the world as it is. *)
Theorem get_ttl_is_clamped_remaining (now : Z) (p : ptr) (w : world) (e : dns_cache) :
  heap_get p (heap w) = Some e ->
  INT_MIN <= insert_time e + ttl e - now <= INT_MAX ->
  dns_cache_get_ttl now p w = Some (Z.max 0 (insert_time e + ttl e - now), w).
Proof.
  intros He Hrange. rewrite (get_ttl_eq _ _ _ _ He).
  rewrite (int_of_time_t_small _ Hrange). reflexivity.
Qed.

(** *** [dns_cache_invalidate] *)

Lemma sweep_expired_remaining (now : Z) (w : world) (p : ptr) :
  sweep_expired now w p = true <-> remaining_ttl now p w = Some 0.
Proof.
  unfold sweep_expired, remaining_ttl.
  destruct (heap_get p (heap w)) as [e|] eqn:He.
  - rewrite (get_ttl_eq _ _ _ _ He). simpl.
    rewrite negb_true_iff, Z.gtb_ltb, Z.ltb_ge. split.
    + intros H. f_equal. lia.
    + intros H. inversion H. lia.
  - unfold dns_cache_get_ttl. unfold_m. rewrite He. simpl.
    split; discriminate.
Qed.

Lemma sweep_fresh_remaining (now : Z) (w : world) (p : ptr) :
  (exists n, remaining_ttl now p w = Some n /\ 0 < n) ->
  sweep_expired now w p = false.
Proof.
  intros (n & Hn & Hpos).
  destruct (sweep_expired now w p) eqn:Hs; [|reflexivity].
  apply sweep_expired_remaining in Hs. rewrite Hs in Hn. inversion Hn. lia.
Qed.

Lemma filter_idem {A : Type} (f : A -> bool) (l : list A) :
  filter f (filter f l) = filter f l.
Proof.
  induction l as [|x l IH]; simpl; [reflexivity|].
  destruct (f x) eqn:Hx; simpl; rewrite ?Hx, IH; reflexivity.
Qed.

Lemma sweep_one_eq (p : ptr) (e : dns_cache) (w : world) :
  heap_get p (heap w) = Some e ->
  sweep_one p w =
  Some (tt, if ref e - 1 =? 0 then deleted p w
            else store p (set_ref e (ref e - 1)) (unlinked p w)).
Proof.
  intros He. unfold sweep_one. unfold bind at 1. unfold modify at 1.
  unfold bind at 1. unfold modify at 1.
  rewrite (dns_cache_release_eq p e); [|exact He].
  destruct (ref e - 1 =? 0); [|reflexivity].
  unfold deleted, unlinked, list_del_init, hash_del, set_cache_list, set_cache_hash.
  simpl. rewrite !filter_idem. reflexivity.
Qed.

Lemma expired_prefix_ext (now : Z) (w w1 : world) (l : list ptr) :
  (forall q, In q l -> heap_get q (heap w1) = heap_get q (heap w)) ->
  expired_prefix now w1 l = expired_prefix now w l.
Proof.
  induction l as [|q l IH]; intros H; [reflexivity|].
  simpl. unfold sweep_expired. rewrite (H q (or_introl eq_refl)).
  rewrite IH; [reflexivity|]. intros q' Hq'. apply H. right. exact Hq'.
Qed.

(** The loop of the sweep is the sequence of [sweep_one] over the expired
    entries at the head of the list. *)
Lemma invalidate_loop_prefix (now : Z) (l : list ptr) (w : world) :
  NoDup l ->
  (forall p, In p l -> heap_get p (heap w) <> None) ->
  invalidate_loop now l w = for_each sweep_one (expired_prefix now w l) w.
Proof.
  revert w. induction l as [|p rest IH]; intros w Hnd Hlive; [reflexivity|].
  inversion Hnd as [|? ? Hnotin Hnd']; subst.
  destruct (heap_get p (heap w)) as [e|] eqn:He.
  2:{ exfalso. apply (Hlive p); [left; reflexivity | exact He]. }
  simpl. unfold sweep_expired. rewrite He.
  unfold bind at 1. unfold deref. rewrite He.
  destruct (int_of_time_t (insert_time e + ttl e - now) >? 0); simpl; [reflexivity|].
  transitivity ((sweep_one p;; invalidate_loop now rest) w).
  { unfold sweep_one, bind, modify. reflexivity. }
  unfold bind. rewrite (sweep_one_eq p e w He).
  set (w1 := if ref e - 1 =? 0 then deleted p w
             else store p (set_ref e (ref e - 1)) (unlinked p w)).
  assert (Hother : forall q, q <> p -> heap_get q (heap w1) = heap_get q (heap w)).
  { intros q Hq. unfold w1. destruct (ref e - 1 =? 0); simpl;
      apply heap_get_set_other; exact Hq. }
  assert (Hpre : expired_prefix now w1 rest = expired_prefix now w rest).
  { apply expired_prefix_ext. intros q Hq. apply Hother.
    intros ->. contradiction. }
  rewrite <- Hpre. apply IH; [exact Hnd'|].
  intros q Hq. rewrite Hother.
  - apply Hlive. right. exact Hq.
  - intros ->. contradiction.
Qed.

Lemma filter_filter {A : Type} (f g : A -> bool) (l : list A) :
  filter f (filter g l) = filter (fun x => g x && f x) l.
Proof.
  induction l as [|x l IH]; simpl; [reflexivity|].
  destruct (g x) eqn:Hg; simpl; [destruct (f x)|]; rewrite IH; reflexivity.
Qed.

Lemma mem_ptr_iff (p : ptr) (l : list ptr) : mem_ptr p l = true <-> In p l.
Proof.
  unfold mem_ptr. rewrite existsb_exists. split.
  - intros (q & Hin & Heq). apply Nat.eqb_eq in Heq. subst. exact Hin.
  - intros Hin. exists p. split; [exact Hin | apply Nat.eqb_refl].
Qed.

(** What [sweep_one] does to the world, whichever way the release goes. *)
Lemma sweep_one_effect (p : ptr) (e : dns_cache) (w : world) :
  heap_get p (heap w) = Some e ->
  exists w1,
    sweep_one p w = Some (tt, w1) /\
    cache_list w1 = filter (fun q => negb (Nat.eqb q p)) (cache_list w) /\
    cache_hash w1 = filter (fun bq => negb (Nat.eqb (snd bq) p)) (cache_hash w) /\
    size w1 = size w /\
    (forall q, q <> p -> heap_get q (heap w1) = heap_get q (heap w)) /\
    heap_get p (heap w1)
    = (if ref e - 1 =? 0 then None else Some (set_ref e (ref e - 1))).
Proof.
  intros He. rewrite (sweep_one_eq p e w He). eexists. split; [reflexivity|].
  assert (Hlt : (p < List.length (heap w))%nat) by (apply heap_get_lt; congruence).
  destruct (ref e - 1 =? 0); simpl; repeat split;
    try (intros q Hq; apply heap_get_set_other; exact Hq);
    apply heap_get_set_same; exact Hlt.
Qed.

(** The sweep of a duplicate-free sequence of allocated entries: each is
    unlinked from the list and from its chain and released once; everything
    else is as before. *)
Lemma sweep_all_spec (pre : list ptr) (w : world) :
  NoDup pre ->
  (forall p, In p pre -> heap_get p (heap w) <> None) ->
  exists w',
    for_each sweep_one pre w = Some (tt, w') /\
    cache_list w' = filter (fun q => negb (mem_ptr q pre)) (cache_list w) /\
    cache_hash w' = filter (fun bq => negb (mem_ptr (snd bq) pre)) (cache_hash w) /\
    size w' = size w /\
    (forall q, ~ In q pre -> heap_get q (heap w') = heap_get q (heap w)) /\
    (forall q e, In q pre -> heap_get q (heap w) = Some e ->
       heap_get q (heap w')
       = if ref e - 1 =? 0 then None else Some (set_ref e (ref e - 1))).
Proof.
  revert w. induction pre as [|p rest IH]; intros w Hnd Hlive.
  - exists w. split; [reflexivity|]. simpl.
    repeat split; try reflexivity.
    + induction (cache_list w) as [|q l IHl]; simpl; congruence.
    + induction (cache_hash w) as [|q l IHl]; simpl; congruence.
    + intros q e [].
  - inversion Hnd as [|? ? Hnotin Hnd']; subst.
    destruct (heap_get p (heap w)) as [e|] eqn:He.
    2:{ exfalso. apply (Hlive p); [left; reflexivity | exact He]. }
    destruct (sweep_one_effect p e w He)
      as (w1 & Hrun & Hlist & Hhash & Hsize & Hother & Hself).
    destruct (IH w1 Hnd') as (w' & Hrun' & Hlist' & Hhash' & Hsize' & Hother' & Hrel').
    { intros q Hq. rewrite Hother; [apply Hlive; right; exact Hq|].
      intros ->. contradiction. }
    exists w'. split.
    { simpl. unfold bind. rewrite Hrun. exact Hrun'. }
    split.
    { rewrite Hlist', Hlist, filter_filter. apply filter_ext.
      intros q. simpl. rewrite negb_orb. reflexivity. }
    split.
    { rewrite Hhash', Hhash, filter_filter. apply filter_ext.
      intros q. simpl. rewrite negb_orb. reflexivity. }
    split; [congruence|]. split.
    { intros q Hq. rewrite Hother'; [apply Hother|].
      - intros ->. apply Hq. left. reflexivity.
      - intros Hin. apply Hq. right. exact Hin. }
    intros q e' [->|Hin] He'.
    + rewrite Hother' by exact Hnotin. rewrite Hself.
      rewrite He in He'. inversion He'. reflexivity.
    + apply Hrel'; [exact Hin|]. rewrite Hother; [exact He'|].
      intros ->. contradiction.
Qed.

Lemma expired_prefix_incl (now : Z) (w : world) (l : list ptr) (q : ptr) :
  In q (expired_prefix now w l) -> In q l.
Proof.
  induction l as [|p rest IH]; simpl; [auto|].
  destruct (sweep_expired now w p); simpl; [|contradiction].
  intros [->|H]; [left; reflexivity | right; apply IH; exact H].
Qed.

Lemma expired_prefix_nodup (now : Z) (w : world) (l : list ptr) :
  NoDup l -> NoDup (expired_prefix now w l).
Proof.
  induction l as [|p rest IH]; simpl; intros H; [constructor|].
  inversion H; subst.
  destruct (sweep_expired now w p); [|constructor].
  constructor; [|apply IH; assumption].
  intros Hin. apply expired_prefix_incl in Hin. contradiction.
Qed.

(** The expired prefix of a list that splits into expired entries followed
    by nothing or by an unexpired entry. *)
Lemma expired_prefix_split (now : Z) (w : world) (pre suf : list ptr) :
  Forall (fun p => sweep_expired now w p = true) pre ->
  match suf with
  | [] => True
  | q :: _ => sweep_expired now w q = false
  end ->
  expired_prefix now w (pre ++ suf) = pre.
Proof.
  intros Hpre Hsuf. induction Hpre as [|p pre Hp _ IH]; simpl.
  - destruct suf as [|q suf]; [reflexivity|]. simpl. rewrite Hsuf. reflexivity.
  - rewrite Hp, IH. reflexivity.
Qed.

Lemma expired_prefix_reaches (now : Z) (w : world) (pre rest : list ptr) (p : ptr) :
  Forall (fun q => sweep_expired now w q = true) pre ->
  sweep_expired now w p = true ->
  In p (expired_prefix now w (pre ++ p :: rest)).
Proof.
  intros Hpre Hp. induction Hpre as [|q pre Hq _ IH]; simpl.
  - rewrite Hp. left. reflexivity.
  - rewrite Hq. right. exact IH.
Qed.

Lemma filter_out_prefix (pre suf : list ptr) :
  NoDup (pre ++ suf) ->
  filter (fun q => negb (mem_ptr q pre)) (pre ++ suf) = suf.
Proof.
  intros Hnd. rewrite filter_app.
  assert (Hpre : filter (fun q => negb (mem_ptr q pre)) pre = []).
  { assert (H: forall l, (forall q, In q l -> In q pre) ->
                         filter (fun q => negb (mem_ptr q pre)) l = []).
    { induction l as [|q l IH]; intros Hl; [reflexivity|]. simpl.
      assert (Hq : mem_ptr q pre = true)
        by (apply mem_ptr_iff; apply Hl; left; reflexivity).
      rewrite Hq. simpl. apply IH. intros q' Hq'. apply Hl. right. exact Hq'. }
    apply H. auto. }
  rewrite Hpre. simpl.
  assert (H : forall l, (forall q, In q l -> ~ In q pre) ->
                        filter (fun q => negb (mem_ptr q pre)) l = l).
  { induction l as [|q l IH]; intros Hl; [reflexivity|]. simpl.
    destruct (mem_ptr q pre) eqn:Hq.
    - apply mem_ptr_iff in Hq. exfalso. apply (Hl q); [left; reflexivity | exact Hq].
    - simpl. f_equal. apply IH. intros q' Hq'. apply Hl. right. exact Hq'. }
  apply H. intros q Hsuf Hin.
  revert Hnd Hin Hsuf. clear. induction pre as [|x pre IH]; simpl; [auto|].
  intros Hnd [->|Hin] Hsuf; inversion Hnd; subst.
  - apply H1. apply in_or_app. right. exact Hsuf.
  - apply IH; assumption.
Qed.

(** The sweep on a well-formed enabled table: it returns, and its effect is
    the one of [sweep_one] on each entry of the expired prefix of the list,
    from the head on. *)
Lemma invalidate_spec (now : Z) (w : world) :
  0 < size w ->
  table_ok w ->
  exists w',
    dns_cache_invalidate now w = Some (tt, w') /\
    for_each sweep_one (expired_prefix now w (cache_list w)) w = Some (tt, w') /\
    cache_list w'
    = filter (fun q => negb (mem_ptr q (expired_prefix now w (cache_list w))))
             (cache_list w) /\
    cache_hash w'
    = filter (fun bq => negb (mem_ptr (snd bq) (expired_prefix now w (cache_list w))))
             (cache_hash w) /\
    (forall q, ~ In q (expired_prefix now w (cache_list w)) ->
               heap_get q (heap w') = heap_get q (heap w)) /\
    (forall q e, In q (expired_prefix now w (cache_list w)) ->
       heap_get q (heap w) = Some e ->
       heap_get q (heap w')
       = if ref e - 1 =? 0 then None else Some (set_ref e (ref e - 1))).
Proof.
  intros Hs Hok.
  destruct (sweep_all_spec (expired_prefix now w (cache_list w)) w)
    as (w' & Hrun & Hlist & Hhash & _ & Hother & Hrel).
  { apply expired_prefix_nodup. exact (ok_list_nodup w Hok). }
  { intros p Hin. apply (ok_list_live w Hok).
    apply (expired_prefix_incl _ _ _ _ Hin). }
  exists w'. split; [|repeat split; assumption].
  unfold dns_cache_invalidate. unfold bind at 1. unfold get_world.
  assert (Hs' : (size w <=? 0) = false) by (apply Z.leb_gt; exact Hs).
  rewrite Hs'. rewrite invalidate_loop_prefix; [exact Hrun | |].
  - exact (ok_list_nodup w Hok).
  - exact (ok_list_live w Hok).
Qed.

(** Within the [int] range the remaining TTL that the code computes is the
    one of the specification. *)
Lemma ttl_fits_int_remaining (now : Z) (w : world) (p : ptr) :
  ttl_fits_int now w p = true ->
  remaining_ttl now p w = spec_remaining_ttl now p w.
Proof.
  unfold ttl_fits_int, remaining_ttl, spec_remaining_ttl.
  destruct (heap_get p (heap w)) as [e|] eqn:He; [|discriminate].
  intros Hfit. apply andb_true_iff in Hfit. destruct Hfit as [Hlo Hhi].
  apply Z.leb_le in Hlo. apply Z.leb_le in Hhi.
  rewrite (get_ttl_eq _ _ _ _ He). simpl.
  rewrite int_of_time_t_small by (split; assumption). reflexivity.
Qed.

Lemma sweep_expired_spec (now : Z) (w : world) (p : ptr) :
  ttl_fits_int now w p = true ->
  (sweep_expired now w p = true <-> spec_remaining_ttl now p w = Some 0).
Proof.
  intros Hfit. rewrite <- (ttl_fits_int_remaining _ _ _ Hfit).
  apply sweep_expired_remaining.
Qed.

Lemma sweep_fresh_spec (now : Z) (w : world) (p : ptr) :
  ttl_fits_int now w p = true ->
  (exists n, spec_remaining_ttl now p w = Some n /\ 0 < n) ->
  sweep_expired now w p = false.
Proof.
  intros Hfit Hpos. apply sweep_fresh_remaining.
  rewrite (ttl_fits_int_remaining _ _ _ Hfit). exact Hpos.
Qed.

(** C7 (amended): the sweep takes the entries from the head of the list.
    When the list is a run [pre] of expired entries (remaining TTL
    max(0, insert_time + ttl - now) = 0) followed by nothing or by an entry
    whose remaining TTL is positive, and [insert_time + ttl - now] of these
    entries is representable in the [int] of line 207, the sweep returns the
    world that [sweep_one] (unlink from chain and list, release) produces on
    the entries of [pre] in list order; the list that remains is [suf], the
    entries of [pre] are in no chain and have lost one reference (being
    freed when it was the last), and every other entry, up to the tail, has
    its block and its chain membership untouched. *)
Theorem invalidate_stops_at_first_unexpired (now : Z) (w : world)
  (pre suf : list ptr) :
  0 < size w ->
  table_ok w ->
  cache_list w = pre ++ suf ->
  Forall (fun p => ttl_fits_int now w p = true) (pre ++ firstn 1 suf) ->
  Forall (fun p => spec_remaining_ttl now p w = Some 0) pre ->
  match suf with
  | [] => True
  | q :: _ => exists n, spec_remaining_ttl now q w = Some n /\ 0 < n
  end ->
  exists w',
    dns_cache_invalidate now w = Some (tt, w') /\
    for_each sweep_one pre w = Some (tt, w') /\
    cache_list w' = suf /\
    (forall p, In p pre -> forall b, ~ In (b, p) (cache_hash w')) /\
    (forall p e, In p pre -> heap_get p (heap w) = Some e ->
       heap_get p (heap w')
       = if ref e - 1 =? 0 then None else Some (set_ref e (ref e - 1))) /\
    (forall q, ~ In q pre ->
       heap_get q (heap w') = heap_get q (heap w) /\
       forall b, In (b, q) (cache_hash w') <-> In (b, q) (cache_hash w)).
Proof.
  intros Hs Hok Hlist Hfit Hpre Hsuf.
  apply Forall_app in Hfit. destruct Hfit as [Hfpre Hfsuf].
  assert (Hxs : expired_prefix now w (cache_list w) = pre).
  { rewrite Hlist. apply expired_prefix_split.
    - apply Forall_forall. intros p Hin.
      apply sweep_expired_spec.
      + exact (proj1 (Forall_forall _ _) Hfpre p Hin).
      + exact (proj1 (Forall_forall _ _) Hpre p Hin).
    - destruct suf as [|q suf]; [exact I|].
      apply sweep_fresh_spec; [|exact Hsuf].
      simpl in Hfsuf. inversion Hfsuf. assumption. }
  destruct (invalidate_spec now w Hs Hok)
    as (w' & Hrun & Heach & Hl & Hh & Hother & Hrel).
  rewrite Hxs in Heach, Hl, Hh, Hother, Hrel. exists w'.
  split; [exact Hrun|]. split; [exact Heach|]. split.
  { rewrite Hl, Hlist. apply filter_out_prefix. rewrite <- Hlist.
    exact (ok_list_nodup w Hok). }
  split.
  { intros p Hin b Hb. rewrite Hh in Hb. apply filter_In in Hb.
    destruct Hb as [_ Hb]. simpl in Hb.
    apply mem_ptr_iff in Hin. rewrite Hin in Hb. discriminate. }
  split; [exact Hrel|].
  intros q Hq. split; [apply Hother; exact Hq|].
  intros b. rewrite Hh, filter_In. simpl.
  destruct (mem_ptr q pre) eqn:Hm.
  - apply mem_ptr_iff in Hm. contradiction.
  - simpl. split; [intros [H _]; exact H | intros H; split; [exact H | reflexivity]].
Qed.

(** An entry behind one at which the sweep stops is not in the expired
    prefix. *)
Lemma expired_prefix_blocked (now : Z) (w : world) (pre rest : list ptr) (p : ptr) :
  NoDup (pre ++ p :: rest) ->
  Exists (fun q => sweep_expired now w q = false) pre ->
  ~ In p (expired_prefix now w (pre ++ p :: rest)).
Proof.
  induction pre as [|q pre IH]; intros Hnd Hex.
  - inversion Hex.
  - simpl. destruct (sweep_expired now w q) eqn:Hq.
    + simpl in Hnd. inversion Hnd as [|? ? Hnotin Hnd']; subst.
      inversion Hex as [? ? Hq'|? ? Hex']; subst; [congruence|].
      intros [Heq|Hin].
      * subst. apply Hnotin. apply in_or_app. right. left. reflexivity.
      * exact (IH Hnd' Hex' Hin).
    + intros [].
Qed.

(** C10 (amended): the boundary [age = ttl].  For an entry whose age at
    [now] is exactly its ttl: the lookup that locates it returns it as a hit
    (the read path tests [age > ttl]) and its remaining TTL is 0.  A sweep
    at the same [now] removes it from the list and from its chain and
    releases it (the sweep keeps an entry only when its remaining TTL is
    > 0) provided the sweep reaches it, that is, when every entry before it
    in the list is expired too; when an entry before it has a positive
    remaining TTL the sweep stops there and the entry stays, with its block
    and its chain membership untouched.  ([insert_time + ttl - now] of the
    entries before it being representable in the [int] of line 207.) *)
Theorem boundary_age_equals_ttl (now : Z) (d : string) (t : dns_type_t)
  (w : world) (p : ptr) (e : dns_cache) (pre rest : list ptr) :
  0 < size w ->
  table_ok w ->
  heap_get p (heap w) = Some e ->
  now - insert_time e = ttl e ->
  lookup d t (chain_of d t w) w = Some (Some p, w) ->
  cache_list w = pre ++ p :: rest ->
  Forall (fun q => ttl_fits_int now w q = true) pre ->
  cache_get now d t w = Some (Some p, store p (set_ref e (ref e + 1)) w) /\
  dns_cache_get_ttl now p w = Some (0, w) /\
  exists w',
    dns_cache_invalidate now w = Some (tt, w') /\
    (Forall (fun q => spec_remaining_ttl now q w = Some 0) pre ->
       ~ In p (cache_list w') /\
       (forall b, ~ In (b, p) (cache_hash w')) /\
       heap_get p (heap w')
       = if ref e - 1 =? 0 then None else Some (set_ref e (ref e - 1))) /\
    (Exists (fun q => exists n, spec_remaining_ttl now q w = Some n /\ 0 < n) pre ->
       In p (cache_list w') /\
       heap_get p (heap w') = Some e /\
       forall b, In (b, p) (cache_hash w') <-> In (b, p) (cache_hash w)).
Proof.
  intros Hs Hok He Hage Hl Hlist Hfit.
  assert (Hzero : insert_time e + ttl e - now = 0) by lia.
  assert (Httl : dns_cache_get_ttl now p w = Some (0, w)).
  { rewrite (get_ttl_eq _ _ _ _ He), Hzero. reflexivity. }
  split; [apply get_fresh; try assumption; lia|].
  split; [exact Httl|].
  destruct (invalidate_spec now w Hs Hok)
    as (w' & Hrun & _ & Hcl & Hch & Hother & Hrel).
  exists w'. split; [exact Hrun|]. split.
  - intros Hpre.
    assert (Hin : In p (expired_prefix now w (cache_list w))).
    { rewrite Hlist. apply expired_prefix_reaches.
      - apply Forall_forall. intros q Hq. apply sweep_expired_spec.
        + exact (proj1 (Forall_forall _ _) Hfit q Hq).
        + exact (proj1 (Forall_forall _ _) Hpre q Hq).
      - apply sweep_expired_remaining. unfold remaining_ttl. rewrite Httl.
        reflexivity. }
    apply mem_ptr_iff in Hin. split; [|split].
    + rewrite Hcl. intros H. apply filter_In in H. destruct H as [_ H].
      rewrite Hin in H. discriminate.
    + intros b H. rewrite Hch in H. apply filter_In in H. destruct H as [_ H].
      simpl in H. rewrite Hin in H. discriminate.
    + apply Hrel; [apply mem_ptr_iff; exact Hin | exact He].
  - intros Hex.
    assert (Hnot : ~ In p (expired_prefix now w (cache_list w))).
    { rewrite Hlist. apply expired_prefix_blocked.
      - rewrite <- Hlist. exact (ok_list_nodup w Hok).
      - apply Exists_exists in Hex. destruct Hex as (q & Hq & Hpos).
        apply Exists_exists. exists q. split; [exact Hq|].
        apply sweep_fresh_spec; [|exact Hpos].
        exact (proj1 (Forall_forall _ _) Hfit q Hq). }
    assert (Hm : mem_ptr p (expired_prefix now w (cache_list w)) = false).
    { destruct (mem_ptr p (expired_prefix now w (cache_list w))) eqn:Hm;
        [|reflexivity].
      apply mem_ptr_iff in Hm. contradiction. }
    split; [|split].
    + rewrite Hcl. apply filter_In. split.
      * rewrite Hlist. apply in_or_app. right. left. reflexivity.
      * rewrite Hm. reflexivity.
    + rewrite (Hother p Hnot). exact He.
    + intros b. rewrite Hch, filter_In. simpl. rewrite Hm. simpl.
      split; [intros [H _]; exact H | intros H; split; [exact H | reflexivity]].
Qed.

Lemma nodup_snoc {A : Type} (l : list A) (a : A) :
  NoDup l -> ~ In a l -> NoDup (l ++ [a]).
Proof.
  intros Hnd Hnot. induction Hnd as [|x l Hx Hnd IH]; simpl.
  - constructor; [auto | constructor].
  - constructor.
    + intros Hin. apply in_app_or in Hin. destruct Hin as [Hin|[->|[]]].
      * contradiction.
      * apply Hnot. left. reflexivity.
    + apply IH. intros Hin. apply Hnot. right. exact Hin.
Qed.

(** ** Well-formedness is an invariant of the operations *)

Local Notation run_op := (run_op hash_string jhash hash_min DNS_MAX_CNAME_LEN).
Local Notation run_ops := (run_ops hash_string jhash hash_min DNS_MAX_CNAME_LEN).

Lemma heap_set_keeps_live (p q : ptr) (e : dns_cache) (h : list (option dns_cache)) :
  heap_get q h <> None -> heap_get q (heap_set p (Some e) h) <> None.
Proof.
  intros Hq. destruct (Nat.eq_dec q p) as [->|Hne].
  - rewrite heap_get_set_same by (apply heap_get_lt; exact Hq). discriminate.
  - rewrite heap_get_set_other by exact Hne. exact Hq.
Qed.

Lemma table_ok_deleted (p : ptr) (w : world) : table_ok w -> table_ok (deleted p w).
Proof.
  intros H. constructor; simpl.
  - intros q Hq. apply filter_In in Hq. destruct Hq as [Hq Hne].
    rewrite heap_get_set_other; [exact (ok_list_live w H q Hq)|].
    apply Nat.eqb_neq. apply negb_true_iff. exact Hne.
  - intros b q Hq. apply filter_In in Hq. destruct Hq as [Hq Hne]. simpl in Hne.
    rewrite heap_get_set_other; [exact (ok_hash_live w H b q Hq)|].
    apply Nat.eqb_neq. apply negb_true_iff. exact Hne.
  - apply NoDup_filter. exact (ok_list_nodup w H).
Qed.

Lemma table_ok_store (p : ptr) (e : dns_cache) (w : world) :
  table_ok w -> table_ok (store p e w).
Proof.
  intros H. constructor; simpl.
  - intros q Hq. apply heap_set_keeps_live. exact (ok_list_live w H q Hq).
  - intros b q Hq. apply heap_set_keeps_live. exact (ok_hash_live w H b q Hq).
  - exact (ok_list_nodup w H).
Qed.

Lemma table_ok_unlinked (p : ptr) (w : world) : table_ok w -> table_ok (unlinked p w).
Proof.
  intros H. constructor; simpl.
  - intros q Hq. apply filter_In in Hq. exact (ok_list_live w H q (proj1 Hq)).
  - intros b q Hq. apply filter_In in Hq. exact (ok_hash_live w H b q (proj1 Hq)).
  - apply NoDup_filter. exact (ok_list_nodup w H).
Qed.

Lemma table_ok_linked (r : request) (w : world) : table_ok w -> table_ok (linked r w).
Proof.
  intros H.
  assert (Hold : forall q, heap_get q (heap w) <> None ->
                 heap_get q (heap w ++ [Some (entry_of DNS_MAX_CNAME_LEN r)]) <> None).
  { intros q Hq. rewrite heap_get_app_old by (apply heap_get_lt; exact Hq). exact Hq. }
  assert (Hnew : heap_get (List.length (heap w))
                   (heap w ++ [Some (entry_of DNS_MAX_CNAME_LEN r)]) <> None).
  { rewrite heap_get_app_new. discriminate. }
  constructor; simpl.
  - intros q Hq. apply in_app_or in Hq. destruct Hq as [Hq|[<-|[]]].
    + apply Hold. exact (ok_list_live w H q Hq).
    + exact Hnew.
  - intros b q [Hq|Hq].
    + inversion Hq; subst. exact Hnew.
    + apply Hold. exact (ok_hash_live w H b q Hq).
  - apply nodup_snoc; [exact (ok_list_nodup w H)|].
    intros Hin. apply (ok_list_live w H) in Hin. apply heap_get_lt in Hin. lia.
Qed.

Lemma table_ok_release (p : ptr) (w w' : world) :
  table_ok w -> dns_cache_release p w = Some (tt, w') -> table_ok w'.
Proof.
  intros H Hrun. destruct (heap_get p (heap w)) as [e|] eqn:He.
  - rewrite (dns_cache_release_eq _ _ _ He) in Hrun. inversion Hrun.
    destruct (ref e - 1 =? 0); [apply table_ok_deleted | apply table_ok_store];
      exact H.
  - unfold dns_cache_release in Hrun. unfold_m. rewrite He in Hrun. discriminate.
Qed.

Lemma table_ok_get (now : Z) (d : string) (t : dns_type_t) (w w' : world)
  (r : option ptr) :
  table_ok w -> cache_get now d t w = Some (r, w') -> table_ok w'.
Proof.
  intros H. unfold dns_cache_get. unfold bind at 1. unfold get_world.
  destruct (size w <=? 0).
  { unfold ret. intros Hrun. inversion Hrun. subst. exact H. }
  unfold bind at 1.
  destruct (lookup d t (hash_possible (bucket_of d t) w) w) as [[found w1]|] eqn:Hl;
    [|discriminate].
  apply lookup_pure in Hl. subst w1. destruct found as [p|].
  - unfold_m. destruct (heap_get p (heap w)) as [e|]; [|discriminate].
    destruct (now - insert_time e >? ttl e); intros Hrun; inversion Hrun.
    + apply (table_ok_deleted p w H).
    + apply table_ok_store. exact H.
  - unfold ret. intros Hrun. inversion Hrun. subst. exact H.
Qed.

Lemma table_ok_evict (w w' : world) (s : Z) :
  table_ok w -> insert_evict w = Some (s, w') -> table_ok w'.
Proof.
  intros H. rewrite insert_evict_eq.
  destruct (num w >? size w).
  - destruct (cache_list w) as [|p0 l]; [discriminate|].
    destruct (dns_cache_release p0 w) as [[[] w1]|] eqn:Hrel; [|discriminate].
    intros Hrun. inversion Hrun. subst. exact (table_ok_release _ _ _ H Hrel).
  - intros Hrun. inversion Hrun. subst. exact H.
Qed.

Lemma table_ok_insert (r : request) (w w' : world) (s : Z) :
  table_ok w -> insert r w = Some (s, w') -> table_ok w'.
Proof.
  intros H Hrun.
  destruct (Z_le_gt_dec (size w) 0) as [Hs|Hs].
  { unfold insert_request in Hrun. rewrite insert_disabled in Hrun by exact Hs.
    inversion Hrun. subst. exact H. }
  assert (Hs' : 0 < size w) by lia.
  destruct (cache_get (r_now r) (r_domain r) (r_type r) w) as [[found w1]|] eqn:Hg.
  2:{ unfold insert_request, dns_cache_insert in Hrun.
      unfold bind at 1 in Hrun. unfold get_world in Hrun.
      assert (Hsb : (size w <=? 0) = false) by (apply Z.leb_gt; exact Hs').
      rewrite Hsb in Hrun. unfold bind at 1 in Hrun. rewrite Hg in Hrun.
      discriminate. }
  pose proof (table_ok_get _ _ _ _ _ _ H Hg) as H1.
  destruct found as [p|].
  - unfold insert_request, dns_cache_insert in Hrun.
    unfold bind at 1 in Hrun. unfold get_world in Hrun.
    assert (Hsb : (size w <=? 0) = false) by (apply Z.leb_gt; exact Hs').
    rewrite Hsb in Hrun. unfold bind at 1 in Hrun. rewrite Hg in Hrun.
    unfold bind, ret in Hrun.
    destruct (dns_cache_release p w1) as [[[] w2]|] eqn:Hrel; [|discriminate].
    inversion Hrun. subst. exact (table_ok_release _ _ _ H1 Hrel).
  - destruct (r_alloc r) eqn:Ha.
    2:{ rewrite (insert_nomem_eq r w w1 Hs' Hg Ha) in Hrun.
        inversion Hrun. subst. exact H1. }
    destruct (valid_request r) eqn:Hv.
    + rewrite (insert_new_eq r w w1 Hs' Hg Ha Hv) in Hrun.
      apply (table_ok_evict _ _ _ (table_ok_linked r w1 H1) Hrun).
    + rewrite (insert_invalid_eq r w w1 Hs' Hg Ha Hv) in Hrun.
      inversion Hrun. constructor; simpl.
      * intros q Hq. pose proof (ok_list_live w1 H1 q Hq) as Hlive.
        rewrite heap_get_app_old by (apply heap_get_lt; exact Hlive). exact Hlive.
      * intros b q Hq. pose proof (ok_hash_live w1 H1 b q Hq) as Hlive.
        rewrite heap_get_app_old by (apply heap_get_lt; exact Hlive). exact Hlive.
      * exact (ok_list_nodup w1 H1).
Qed.

Lemma table_ok_update (p : ptr) (w w' : world) :
  table_ok w -> dns_cache_update p w = Some (tt, w') -> table_ok w'.
Proof.
  intros H. unfold dns_cache_update. unfold_m.
  destruct (heap_get p (heap w)) as [e|] eqn:He; [|discriminate].
  destruct (list_empty p w) eqn:Hemp; simpl; intros Hrun; inversion Hrun.
  - subst. exact H.
  - constructor; simpl.
    + intros q Hq. apply in_app_or in Hq. destruct Hq as [Hq|[<-|[]]].
      * apply filter_In in Hq. exact (ok_list_live w H q (proj1 Hq)).
      * rewrite He. discriminate.
    + intros b q Hq. exact (ok_hash_live w H b q Hq).
    + apply nodup_snoc; [apply NoDup_filter; exact (ok_list_nodup w H)|].
      intros Hin. apply filter_In in Hin. destruct Hin as [_ Hin].
      rewrite Nat.eqb_refl in Hin. discriminate.
Qed.

Lemma table_ok_delete (p : ptr) (w w' : world) :
  table_ok w -> dns_cache_delete p w = Some (tt, w') -> table_ok w'.
Proof.
  intros H. unfold dns_cache_delete. unfold bind at 1. unfold deref.
  destruct (heap_get p (heap w)) as [e|]; [|discriminate].
  unfold bind at 1. unfold modify at 1. unfold bind at 1. unfold modify at 1.
  apply table_ok_release. apply (table_ok_unlinked p w H).
Qed.

Lemma table_ok_invalidate_loop (now : Z) (l : list ptr) :
  forall w w', table_ok w -> invalidate_loop now l w = Some (tt, w') -> table_ok w'.
Proof.
  induction l as [|p rest IH]; intros w w' H; simpl.
  - unfold ret. intros Hrun. inversion Hrun. subst. exact H.
  - unfold bind at 1. unfold deref.
    destruct (heap_get p (heap w)) as [e|]; [|discriminate].
    destruct (int_of_time_t (insert_time e + ttl e - now) >? 0).
    + unfold ret. intros Hrun. inversion Hrun. subst. exact H.
    + unfold bind at 1. unfold modify at 1. unfold bind at 1. unfold modify at 1.
      unfold bind at 1.
      destruct (dns_cache_release p (list_del_init p (hash_del p w)))
        as [[[] w1]|] eqn:Hrel; [|discriminate].
      apply IH. apply (table_ok_release _ _ _ (table_ok_unlinked p w H) Hrel).
Qed.

Lemma table_ok_invalidate (now : Z) (w w' : world) :
  table_ok w -> dns_cache_invalidate now w = Some (tt, w') -> table_ok w'.
Proof.
  intros H. unfold dns_cache_invalidate. unfold bind at 1. unfold get_world.
  destruct (size w <=? 0).
  - unfold ret. intros Hrun. inversion Hrun. subst. exact H.
  - apply table_ok_invalidate_loop. exact H.
Qed.

Lemma table_ok_run_op (o : op) (w w' : world) :
  table_ok w -> run_op o w = Some (tt, w') -> table_ok w'.
Proof.
  intros H. destruct o as [r|now d t|p|p|p|now]; simpl.
  - unfold bind, ret. destruct (insert r w) as [[s w1]|] eqn:Hrun; [|discriminate].
    intros Heq. inversion Heq. subst. exact (table_ok_insert _ _ _ _ H Hrun).
  - unfold bind, ret. destruct (cache_get now d t w) as [[r w1]|] eqn:Hrun;
      [|discriminate].
    intros Heq. inversion Heq. subst. exact (table_ok_get _ _ _ _ _ _ H Hrun).
  - apply table_ok_release. exact H.
  - apply table_ok_update. exact H.
  - apply table_ok_delete. exact H.
  - apply table_ok_invalidate. exact H.
Qed.

Lemma table_ok_run_ops (l : list op) :
  forall w1 w, table_ok w1 -> run_ops l w1 = Some (tt, w) -> table_ok w.
Proof.
  induction l as [|o rest IH]; intros w1 w H1; simpl.
  - unfold ret. intros Hrun. inversion Hrun. subst. exact H1.
  - unfold bind at 1. destruct (run_op o w1) as [[[] w2]|] eqn:Hrun; [|discriminate].
    apply IH. exact (table_ok_run_op _ _ _ H1 Hrun).
Qed.

Lemma table_ok_init (c : Z) (w0 : world) :
  exists w1, dns_cache_init c w0 = Some (0, w1) /\ table_ok w1.
Proof.
  eexists. split; [reflexivity|].
  constructor; simpl; try contradiction. constructor.
Qed.

(** Every world that calls of the operations reach from [dns_cache_init]
    without undefined behaviour has a well-formed table. *)
Lemma table_ok_reachable (c : Z) (l : list op) (w0 w : world) :
  (dns_cache_init c ;; run_ops l) w0 = Some (tt, w) -> table_ok w.
Proof.
  destruct (table_ok_init c w0) as (w1 & Hinit & H1).
  unfold bind at 1. rewrite Hinit. apply table_ok_run_ops. exact H1.
Qed.

(** ** Tables filled by inserts only *)

Local Notation holds := (holds hash_string jhash hash_min DNS_MAX_CNAME_LEN).
Local Notation key_of := (request_key DNS_MAX_CNAME_LEN).
Local Notation node_of := (item_node hash_string jhash hash_min).
Local Notation insert_all := (insert_all hash_string jhash hash_min DNS_MAX_CNAME_LEN).

Lemma entry_key_match (d : string) (t : dns_type_t) (r : request) :
  matches d t (entry_of DNS_MAX_CNAME_LEN r) = true <->
  stored_key DNS_MAX_CNAME_LEN d t = key_of r.
Proof.
  rewrite key_match_stored; [reflexivity|].
  simpl. unfold strncpy. apply str_prefix_idem.
Qed.

(** For domains within the bound the table compares the keys themselves. *)
Lemma request_keys_within_bound (rs : list request) :
  (forall r, In r rs -> (String.length (r_domain r) <= DNS_MAX_CNAME_LEN)%nat) ->
  map key_of rs = map (fun r => (r_domain r, r_type r)) rs.
Proof.
  intros H. apply map_ext_in. intros r Hr.
  unfold request_key, stored_key. rewrite str_prefix_all by (apply H; exact Hr).
  reflexivity.
Qed.

Lemma nodup_map_inj {A B : Type} (f : A -> B) (l : list A) (x y : A) :
  NoDup (map f l) -> In x l -> In y l -> f x = f y -> x = y.
Proof.
  induction l as [|a l IH]; simpl; intros Hnd Hx Hy Hf; [contradiction|].
  inversion Hnd as [|? ? Hnotin Hnd']; subst.
  destruct Hx as [->|Hx], Hy as [->|Hy]; auto.
  - exfalso. apply Hnotin. rewrite Hf. apply in_map. exact Hy.
  - exfalso. apply Hnotin. rewrite <- Hf. apply in_map. exact Hx.
Qed.

Lemma holds_chain_item (w : world) (items : list (ptr * request))
  (d : string) (t : dns_type_t) (q : ptr) :
  holds w items -> In q (chain_of d t w) ->
  exists it, In it items /\ fst it = q /\
             heap_get q (heap w) = Some (entry_of DNS_MAX_CNAME_LEN (snd it)).
Proof.
  intros H Hq. apply chain_of_in in Hq. rewrite (h_hash _ _ _ _ _ _ H) in Hq.
  apply in_rev in Hq. apply in_map_iff in Hq. destruct Hq as (it & Hit & Hin).
  exists it. unfold item_node in Hit. inversion Hit; subst.
  repeat split; [exact Hin|]. apply (h_heap _ _ _ _ _ _ H). exact Hin.
Qed.

(** A key none of the entries has: the lookup misses. *)
Lemma holds_lookup_miss (w : world) (items : list (ptr * request))
  (d : string) (t : dns_type_t) :
  holds w items ->
  ~ In (stored_key DNS_MAX_CNAME_LEN d t) (map (fun it => key_of (snd it)) items) ->
  lookup d t (chain_of d t w) w = Some (None, w).
Proof.
  intros H Hkey. apply lookup_miss. intros q Hq.
  destruct (holds_chain_item _ _ _ _ _ H Hq) as (it & Hin & _ & Hheap).
  exists (entry_of DNS_MAX_CNAME_LEN (snd it)). split; [exact Hheap|].
  destruct (matches d t (entry_of DNS_MAX_CNAME_LEN (snd it))) eqn:Hm; [|reflexivity].
  exfalso. apply Hkey. apply entry_key_match in Hm. rewrite Hm.
  apply (in_map (fun it => key_of (snd it))). exact Hin.
Qed.

(** The key of one of the entries, the keys being pairwise different: the
    lookup finds that entry. *)
Lemma holds_lookup_hit (w : world) (items : list (ptr * request))
  (p : ptr) (r : request) :
  holds w items ->
  NoDup (map (fun it => key_of (snd it)) items) ->
  In (p, r) items ->
  lookup (r_domain r) (r_type r) (chain_of (r_domain r) (r_type r) w) w
  = Some (Some p, w).
Proof.
  intros H Hkeys Hin. apply lookup_unique.
  - apply chain_of_in. rewrite (h_hash _ _ _ _ _ _ H). apply in_rev.
    rewrite rev_involutive.
    apply (in_map node_of _ _ Hin).
  - intros q Hq.
    destruct (holds_chain_item _ _ _ _ _ H Hq) as ([q' r'] & Hin' & Hfst & Hheap).
    simpl in Hfst. subst q'. simpl in Hheap.
    exists (entry_of DNS_MAX_CNAME_LEN r'). split; [exact Hheap|].
    rewrite entry_key_match. split.
    + intros Hk.
      assert (Heq : (q, r') = (p, r)).
      { apply (nodup_map_inj (fun it => key_of (snd it)) items);
          [exact Hkeys | exact Hin' | exact Hin |].
        simpl. symmetry. exact Hk. }
      inversion Heq. reflexivity.
    + intros ->.
      assert (Heq : (p, r') = (p, r)).
      { apply (nodup_map_inj fst items);
          [exact (h_nodup _ _ _ _ _ _ H) | exact Hin' | exact Hin | reflexivity]. }
      inversion Heq. reflexivity.
Qed.

Lemma holds_table_ok (w : world) (items : list (ptr * request)) :
  holds w items -> table_ok w.
Proof.
  intros H. constructor.
  - intros p Hp. rewrite (h_list _ _ _ _ _ _ H) in Hp.
    apply in_map_iff in Hp. destruct Hp as (it & <- & Hin).
    rewrite (h_heap _ _ _ _ _ _ H it Hin). discriminate.
  - intros b p Hp. rewrite (h_hash _ _ _ _ _ _ H) in Hp.
    apply in_rev in Hp. apply in_map_iff in Hp. destruct Hp as (it & Heq & Hin).
    inversion Heq; subst.
    rewrite (h_heap _ _ _ _ _ _ H it Hin). discriminate.
  - rewrite (h_list _ _ _ _ _ _ H). exact (h_nodup _ _ _ _ _ _ H).
Qed.

Lemma filter_all {A : Type} (f : A -> bool) (l : list A) :
  (forall x, In x l -> f x = true) -> filter f l = l.
Proof.
  induction l as [|x l IH]; intros H; simpl; [reflexivity|].
  rewrite (H x (or_introl eq_refl)). f_equal. apply IH.
  intros y Hy. apply H. right. exact Hy.
Qed.

(** The table once the entry of a new key is linked. *)
Lemma holds_linked (w : world) (items : list (ptr * request)) (r : request) :
  holds w items ->
  holds (linked r w) (items ++ [(List.length (heap w), r)]).
Proof.
  intros H.
  assert (Hlt : forall it, In it items -> (fst it < List.length (heap w))%nat).
  { intros it Hin. apply heap_get_lt. rewrite (h_heap _ _ _ _ _ _ H it Hin).
    discriminate. }
  constructor.
  - simpl. rewrite map_app, (h_list _ _ _ _ _ _ H). reflexivity.
  - simpl. rewrite map_app, rev_app_distr, (h_hash _ _ _ _ _ _ H). reflexivity.
  - simpl. rewrite length_app, (h_num _ _ _ _ _ _ H). simpl. lia.
  - intros it Hin. simpl. apply in_app_or in Hin. destruct Hin as [Hin|[<-|[]]].
    + rewrite heap_get_app_old by (apply Hlt; exact Hin).
      apply (h_heap _ _ _ _ _ _ H). exact Hin.
    + simpl. apply heap_get_app_new.
  - rewrite map_app. simpl. apply nodup_snoc; [exact (h_nodup _ _ _ _ _ _ H)|].
    intros Hin. apply in_map_iff in Hin. destruct Hin as (it & Heq & Hin).
    specialize (Hlt it Hin). lia.
Qed.

(** The table once its first entry is deleted. *)
Lemma holds_deleted (w : world) (p0 : ptr) (r0 : request)
  (its : list (ptr * request)) :
  holds w ((p0, r0) :: its) -> holds (deleted p0 w) its.
Proof.
  intros H.
  pose proof (h_nodup _ _ _ _ _ _ H) as Hnd. simpl in Hnd.
  inversion Hnd as [|? ? Hnotin Hnd']; subst.
  assert (Hne : forall it, In it its -> Nat.eqb (fst it) p0 = false).
  { intros it Hin. apply Nat.eqb_neq. intros Heq. apply Hnotin.
    rewrite <- Heq. apply in_map. exact Hin. }
  constructor.
  - simpl. rewrite (h_list _ _ _ _ _ _ H). simpl. rewrite Nat.eqb_refl. simpl.
    apply filter_all. intros q Hq. apply in_map_iff in Hq.
    destruct Hq as (it & <- & Hin). rewrite (Hne it Hin). reflexivity.
  - simpl. rewrite (h_hash _ _ _ _ _ _ H). simpl. rewrite filter_app. simpl.
    rewrite Nat.eqb_refl. simpl. rewrite app_nil_r.
    apply filter_all. intros bq Hbq. apply in_rev in Hbq.
    apply in_map_iff in Hbq. destruct Hbq as (it & <- & Hin).
    simpl. rewrite (Hne it Hin). reflexivity.
  - simpl. rewrite (h_num _ _ _ _ _ _ H). simpl List.length. lia.
  - intros it Hin. simpl. rewrite heap_get_set_other.
    + apply (h_heap _ _ _ _ _ _ H). right. exact Hin.
    + apply Nat.eqb_neq. apply Hne. exact Hin.
  - exact Hnd'.
Qed.

(** A valid insert of a new key into a table with room. *)
Lemma insert_holds_room (w : world) (items : list (ptr * request)) (r : request) :
  holds w items ->
  0 < size w ->
  num w < size w ->
  r_alloc r = true ->
  valid_request r = true ->
  ~ In (key_of r) (map (fun it => key_of (snd it)) items) ->
  exists w',
    insert r w = Some (0, w') /\
    size w' = size w /\
    List.length (heap w') = S (List.length (heap w)) /\
    holds w' (items ++ [(List.length (heap w), r)]).
Proof.
  intros H Hs Hroom Ha Hv Hkey.
  pose proof (holds_lookup_miss _ _ _ _ H Hkey) as Hl.
  pose proof (get_miss (r_now r) _ _ _ Hs Hl) as Hg.
  rewrite (insert_new_eq r w w Hs Hg Ha Hv), insert_evict_eq.
  assert (Hover : (num (linked r w) >? size (linked r w)) = false).
  { simpl. rewrite Z.gtb_ltb. apply Z.ltb_ge. lia. }
  rewrite Hover. exists (linked r w).
  split; [reflexivity|]. split; [reflexivity|]. split.
  - simpl. rewrite length_app. simpl. lia.
  - apply holds_linked; assumption.
Qed.

(** A valid insert of a new key into a full table: the first entry of the
    list is unlinked and freed. *)
Lemma insert_holds_full (w : world) (p0 : ptr) (r0 : request)
  (its : list (ptr * request)) (r : request) :
  holds w ((p0, r0) :: its) ->
  0 < size w ->
  size w <= num w ->
  r_alloc r = true ->
  valid_request r = true ->
  ~ In (key_of r) (map (fun it => key_of (snd it)) ((p0, r0) :: its)) ->
  exists w',
    insert r w = Some (0, w') /\
    size w' = size w /\
    nth_error (heap w') p0 = Some None /\
    holds w' (its ++ [(List.length (heap w), r)]).
Proof.
  intros H Hs Hfull Ha Hv Hkey.
  pose proof (holds_lookup_miss _ _ _ _ H Hkey) as Hl.
  pose proof (get_miss (r_now r) _ _ _ Hs Hl) as Hg.
  rewrite (insert_new_eq r w w Hs Hg Ha Hv), insert_evict_eq.
  assert (Hover : (num (linked r w) >? size (linked r w)) = true).
  { simpl. apply Z.gtb_gt. lia. }
  rewrite Hover.
  pose proof (holds_linked _ _ r H) as Hlinked.
  simpl app in Hlinked.
  rewrite (h_list _ _ _ _ _ _ Hlinked). simpl map. cbv iota.
  pose proof (h_heap _ _ _ _ _ _ Hlinked (p0, r0) (or_introl eq_refl)) as He0.
  simpl fst in He0. simpl snd in He0.
  rewrite (dns_cache_release_eq _ _ _ He0). simpl ref.
  change (1 - 1 =? 0) with true. cbv iota.
  exists (deleted p0 (linked r w)).
  split; [reflexivity|]. split; [reflexivity|]. split.
  - apply deleted_freed. rewrite He0. discriminate.
  - apply (holds_deleted _ _ r0). exact Hlinked.
Qed.

Lemma insert_all_app (l1 l2 : list request) (w : world) :
  insert_all (l1 ++ l2) w =
  (s1 <- insert_all l1 ;; s2 <- insert_all l2 ;; ret (s1 ++ s2)) w.
Proof.
  revert w. induction l1 as [|r l1 IH]; intros w; simpl.
  - unfold bind, ret. destruct (insert_all l2 w) as [[s w']|]; reflexivity.
  - unfold bind. destruct (insert r w) as [[s w1]|]; [|reflexivity].
    specialize (IH w1). unfold bind in IH. rewrite IH.
    destruct (insert_all l1 w1) as [[s1 w2]|]; [|reflexivity].
    unfold ret. destruct (insert_all l2 w2) as [[s2 w3]|]; reflexivity.
Qed.

(** Valid inserts of new, pairwise different keys while there is room: all
    return 0 and the entries are appended in the order of the calls, at the
    addresses handed out one after the other. *)
Lemma insert_all_room (rs : list request) :
  forall (w : world) (items : list (ptr * request)),
    holds w items ->
    0 < size w ->
    Z.of_nat (List.length items + List.length rs) <= size w ->
    forallb r_alloc rs = true ->
    forallb valid_request rs = true ->
    NoDup (map (fun it => key_of (snd it)) items ++ map key_of rs) ->
    exists w' items',
      insert_all rs w = Some (repeat 0 (List.length rs), w') /\
      size w' = size w /\
      holds w' (items ++ items') /\
      map snd items' = rs /\
      map fst items' = seq (List.length (heap w)) (List.length rs).
Proof.
  induction rs as [|r rs IH]; intros w items H Hs Hroom Ha Hv Hnd.
  - exists w, []. rewrite app_nil_r.
    split; [reflexivity|]. split; [reflexivity|]. split; [exact H|].
    split; reflexivity.
  - simpl in Hv. apply andb_true_iff in Hv. destruct Hv as [Hv Hvs].
    simpl in Ha. apply andb_true_iff in Ha. destruct Ha as [Ha Has].
    simpl in Hnd.
    assert (Hkey : ~ In (key_of r) (map (fun it => key_of (snd it)) items)).
    { intros Hin. apply NoDup_remove_2 in Hnd. apply Hnd.
      apply in_or_app. left. exact Hin. }
    destruct (insert_holds_room w items r H Hs) as (w1 & Hrun & Hs1 & Hlen & H1);
      try assumption.
    { rewrite (h_num _ _ _ _ _ _ H). simpl List.length in Hroom. lia. }
    destruct (IH w1 (items ++ [(List.length (heap w), r)]) H1)
      as (w' & items' & Hrun' & Hs' & H' & Hsnd & Hfst).
    + lia.
    + rewrite length_app. simpl List.length in *. lia.
    + exact Has.
    + exact Hvs.
    + rewrite map_app. simpl. rewrite <- app_assoc. exact Hnd.
    + exists w', ((List.length (heap w), r) :: items').
      split.
      { simpl. unfold bind at 1. rewrite Hrun. unfold bind at 1. rewrite Hrun'.
        reflexivity. }
      split; [lia|]. split.
      { rewrite <- app_assoc in H'. exact H'. }
      split; [simpl; rewrite Hsnd; reflexivity|].
      simpl. rewrite Hfst, Hlen. reflexivity.
Qed.

Lemma holds_init (c : Z) (w0 : world) :
  exists w1,
    dns_cache_init c w0 = Some (0, w1) /\
    size w1 = c /\ heap w1 = heap w0 /\ holds w1 [].
Proof.
  eexists. split; [reflexivity|]. simpl.
  split; [reflexivity|]. split; [reflexivity|].
  constructor; simpl; try reflexivity; try constructor. intros it [].
Qed.

(** ** The capacity bound when no handle is outstanding *)

Lemma filter_map_comm {A B : Type} (f : B -> bool) (g : A -> B) (l : list A) :
  filter f (map g l) = map g (filter (fun x => f (g x)) l).
Proof.
  induction l as [|x l IH]; simpl; [reflexivity|].
  destruct (f (g x)); simpl; rewrite IH; reflexivity.
Qed.

Lemma filter_one_out (items : list (ptr * request)) (p : ptr) (r : request) :
  NoDup (map fst items) -> In (p, r) items ->
  List.length items
  = S (List.length (filter (fun it => negb (Nat.eqb (fst it) p)) items)).
Proof.
  induction items as [|[q r'] items IH]; simpl; intros Hnd Hin; [contradiction|].
  inversion Hnd as [|? ? Hnotin Hnd']; subst.
  destruct (Nat.eqb q p) eqn:Hq; simpl.
  - apply Nat.eqb_eq in Hq. subst q. f_equal. f_equal. symmetry.
    apply filter_all. intros [q' r''] Hin'. simpl.
    apply negb_true_iff. apply Nat.eqb_neq. intros ->.
    apply Hnotin. apply (in_map fst _ _ Hin').
  - f_equal. apply IH; [exact Hnd'|].
    destruct Hin as [Heq|Hin]; [|exact Hin].
    inversion Heq; subst. rewrite Nat.eqb_refl in Hq. discriminate.
Qed.

(** The table once one of its entries, wherever it is, is deleted. *)
Lemma holds_deleted_any (w : world) (items : list (ptr * request))
  (p : ptr) (r : request) :
  holds w items -> In (p, r) items ->
  holds (deleted p w) (filter (fun it => negb (Nat.eqb (fst it) p)) items).
Proof.
  intros H Hin. constructor.
  - simpl. rewrite (h_list _ _ _ _ _ _ H).
    apply (filter_map_comm (fun q => negb (Nat.eqb q p)) fst).
  - simpl. rewrite (h_hash _ _ _ _ _ _ H), filter_rev. f_equal.
    apply (filter_map_comm (fun bq => negb (Nat.eqb (snd bq) p)) node_of).
  - simpl. rewrite (h_num _ _ _ _ _ _ H).
    rewrite (filter_one_out items p r (h_nodup _ _ _ _ _ _ H) Hin).
    rewrite Nat2Z.inj_succ. apply Z.pred_succ.
  - intros it Hit. apply filter_In in Hit. destruct Hit as [Hit Hne].
    simpl. rewrite heap_get_set_other.
    + apply (h_heap _ _ _ _ _ _ H). exact Hit.
    + apply Nat.eqb_neq. apply negb_true_iff. exact Hne.
  - rewrite <- (filter_map_comm (fun q => negb (Nat.eqb q p)) fst).
    apply NoDup_filter. exact (h_nodup _ _ _ _ _ _ H).
Qed.

(** The table after the [errout] exit. *)
Lemma holds_errout (w : world) (items : list (ptr * request)) :
  holds w items -> holds (set_heap (heap w ++ [None]) w) items.
Proof.
  intros H. constructor; simpl.
  - exact (h_list _ _ _ _ _ _ H).
  - exact (h_hash _ _ _ _ _ _ H).
  - exact (h_num _ _ _ _ _ _ H).
  - intros it Hit. pose proof (h_heap _ _ _ _ _ _ H it Hit) as Hget.
    rewrite heap_get_app_old; [exact Hget|].
    apply heap_get_lt. rewrite Hget. discriminate.
  - exact (h_nodup _ _ _ _ _ _ H).
Qed.

(** The capacity test on a table that holds only the table's references:
    an entry over the capacity is unlinked and freed. *)
Lemma insert_evict_holds (w : world) (items : list (ptr * request)) :
  holds w items ->
  0 < size w ->
  num w <= size w + 1 ->
  exists w' items',
    insert_evict w = Some (0, w') /\
    size w' = size w /\
    holds w' items' /\
    num w' <= size w'.
Proof.
  intros H Hs Hnum. rewrite insert_evict_eq.
  destruct (num w >? size w) eqn:Hover.
  - apply Z.gtb_gt in Hover.
    destruct items as [|[p0 r0] its].
    { pose proof (h_num _ _ _ _ _ _ H) as Hn. simpl in Hn. lia. }
    rewrite (h_list _ _ _ _ _ _ H). simpl map. cbv iota.
    pose proof (h_heap _ _ _ _ _ _ H (p0, r0) (or_introl eq_refl)) as He0.
    simpl fst in He0. simpl snd in He0.
    rewrite (dns_cache_release_eq _ _ _ He0). simpl ref.
    change (1 - 1 =? 0) with true. cbv iota.
    exists (deleted p0 w), its.
    split; [reflexivity|]. split; [reflexivity|].
    split; [exact (holds_deleted _ _ r0 _ H)|]. simpl. lia.
  - rewrite Z.gtb_ltb in Hover. apply Z.ltb_ge in Hover.
    exists w, items.
    split; [reflexivity|]. split; [reflexivity|]. split; assumption.
Qed.

(** Any insert, valid or not, of a new key or not, into a table that holds
    only the table's references and respects its capacity: it returns, and
    the table is again of that kind. *)
Lemma insert_holds_any (w : world) (items : list (ptr * request)) (r : request) :
  holds w items ->
  0 < size w ->
  num w <= size w ->
  exists s w' items',
    insert r w = Some (s, w') /\
    size w' = size w /\
    holds w' items' /\
    num w' <= size w'.
Proof.
  intros H Hs Hnum.
  assert (Hnew : forall w1 items1,
             cache_get (r_now r) (r_domain r) (r_type r) w = Some (None, w1) ->
             holds w1 items1 -> size w1 = size w -> num w1 <= size w1 ->
             exists s w' items',
               insert r w = Some (s, w') /\ size w' = size w /\
               holds w' items' /\ num w' <= size w').
  { intros w1 items1 Hg H1 Hs1 Hn1.
    destruct (r_alloc r) eqn:Ha.
    2:{ rewrite (insert_nomem_eq r w w1 Hs Hg Ha).
        exists (-1), w1, items1.
        split; [reflexivity|]. split; [exact Hs1|]. split; assumption. }
    destruct (valid_request r) eqn:Hv.
    - rewrite (insert_new_eq r w w1 Hs Hg Ha Hv).
      destruct (insert_evict_holds (linked r w1) _ (holds_linked w1 items1 r H1))
        as (w' & items' & Hrun & Hs' & H' & Hn').
      + simpl. lia.
      + simpl. lia.
      + exists 0, w', items'. simpl in Hs'.
        split; [exact Hrun|]. split; [congruence|]. split; assumption.
    - rewrite (insert_invalid_eq r w w1 Hs Hg Ha Hv).
      exists (-1), (set_heap (heap w1 ++ [None]) w1), items1.
      split; [reflexivity|]. split; [exact Hs1|].
      split; [apply holds_errout; exact H1 | exact Hn1]. }
  destruct (lookup_defined (r_domain r) (r_type r)
              (chain_of (r_domain r) (r_type r) w) w) as [found Hl].
  { intros p Hin. apply chain_of_in in Hin.
    exact (ok_hash_live w (holds_table_ok _ _ H) _ _ Hin). }
  destruct found as [p|].
  - destruct (lookup_sound _ _ _ _ _ _ Hl) as (Hin & _).
    destruct (holds_chain_item _ _ _ _ _ H Hin) as ([p' r'] & Hit & Hfst & Hheap).
    simpl in Hfst. subst p'. simpl in Hheap.
    destruct (Z_le_gt_dec (r_now r - r_stamp r') (r_ttl r')) as [Hfresh|Hstale].
    + exists 0, w, items.
      split; [|split; [reflexivity | split; assumption]].
      apply (insert_found_fresh _ _ _ _ _ _ p (entry_of DNS_MAX_CNAME_LEN r'));
        try assumption. simpl. lia.
    + apply (Hnew (deleted p w) (filter (fun it => negb (Nat.eqb (fst it) p)) items)).
      * apply (get_stale _ _ _ _ _ (entry_of DNS_MAX_CNAME_LEN r'));
          try assumption.
      * apply (holds_deleted_any _ _ _ r'); assumption.
      * reflexivity.
      * simpl. lia.
  - apply (Hnew w items); try assumption; try reflexivity.
    apply get_miss; assumption.
Qed.

Lemma insert_all_holds (rs : list request) :
  forall (w : world) (items : list (ptr * request)),
    holds w items ->
    0 < size w ->
    num w <= size w ->
    exists ss w' items',
      insert_all rs w = Some (ss, w') /\
      size w' = size w /\
      holds w' items' /\
      num w' <= size w'.
Proof.
  induction rs as [|r rs IH]; intros w items H Hs Hnum.
  - exists [], w, items.
    split; [reflexivity|]. split; [reflexivity|]. split; assumption.
  - destruct (insert_holds_any w items r H Hs Hnum)
      as (s & w1 & items1 & Hrun & Hs1 & H1 & Hn1).
    destruct (IH w1 items1 H1) as (ss & w' & items' & Hrun' & Hs' & H' & Hn');
      try lia.
    exists (s :: ss), w', items'.
    split; [|split; [lia | split; assumption]].
    simpl. unfold bind at 1. rewrite Hrun. unfold bind at 1. rewrite Hrun'.
    reflexivity.
Qed.

(** X19: after [dns_cache_init c] with [c > 0], any sequence of inserts
    (valid or not, of new keys or not, with [malloc] returning a block or
    NULL, no lookup handle being kept) returns and leaves at most [c]
    entries, the count being the number of listed entries. *)
Lemma inserts_respect_capacity (c : Z) (w0 : world) (rs : list request) :
  0 < c ->
  exists ss w,
    (dns_cache_init c ;; insert_all rs) w0 = Some (ss, w) /\
    num w <= c /\
    num w = Z.of_nat (List.length (cache_list w)).
Proof.
  intros Hc.
  destruct (holds_init c w0) as (w1 & Hinit & Hs1 & _ & H1).
  destruct (insert_all_holds rs w1 [] H1) as (ss & w & items & Hrun & Hs & H & Hn).
  - lia.
  - rewrite (h_num _ _ _ _ _ _ H1). simpl. lia.
  - exists ss, w. split; [|split].
    + unfold bind at 1. rewrite Hinit. exact Hrun.
    + lia.
    + rewrite (h_num _ _ _ _ _ _ H), (h_list _ _ _ _ _ _ H), length_map.
      reflexivity.
Qed.

(** C6: eviction order without touches.  After [dns_cache_init c] with
    [c > 0], [c + 1] valid inserts under pairwise different keys (each
    [malloc] returning a block; no other call in between, so no handle is
    outstanding and nothing is touched) all return 0, and the last one
    evicts the entry inserted first: the block of
    the first insert is freed, the count is [c], the list holds the entries
    of the other [c] requests in the order of their inserts, the lookup of
    the first key misses, and the lookup of each other key hits while its
    entry is unexpired. *)
Theorem eviction_order_without_touches (c : Z) (w0 : world) (r0 : request)
  (rs : list request) :
  0 < c ->
  Z.of_nat (List.length rs) = c ->
  forallb r_alloc (r0 :: rs) = true ->
  forallb valid_request (r0 :: rs) = true ->
  NoDup (map key_of (r0 :: rs)) ->
  exists w,
    (dns_cache_init c ;; insert_all (r0 :: rs)) w0
    = Some (repeat 0 (S (List.length rs)), w) /\
    num w = c /\
    nth_error (heap w) (List.length (heap w0)) = Some None /\
    map (fun p => heap_get p (heap w)) (cache_list w)
    = map (fun r => Some (entry_of DNS_MAX_CNAME_LEN r)) rs /\
    (forall now, cache_get now (r_domain r0) (r_type r0) w = Some (None, w)) /\
    (forall r now, In r rs -> now - r_stamp r <= r_ttl r ->
       exists p w',
         cache_get now (r_domain r) (r_type r) w = Some (Some p, w') /\
         heap_get p (heap w) = Some (entry_of DNS_MAX_CNAME_LEN r)).
Proof.
  intros Hc Hlen Ha Hv Hnd.
  destruct (holds_init c w0) as (w1 & Hinit & Hs1 & Hheap1 & H1).
  destruct (exists_last (l := rs)) as (rs' & rl & Hrs).
  { intros ->. simpl in Hlen. lia. }
  assert (Hlen' : List.length rs = S (List.length rs')).
  { rewrite Hrs, length_app. simpl. lia. }
  assert (Hsplit : r0 :: rs = (r0 :: rs') ++ [rl]) by (rewrite Hrs; reflexivity).
  rewrite Hsplit in Ha, Hv, Hnd. rewrite forallb_app in Ha, Hv.
  apply andb_true_iff in Hv. destruct Hv as [Hv Hvl].
  simpl in Hvl. rewrite andb_true_r in Hvl.
  apply andb_true_iff in Ha. destruct Ha as [Ha Hal].
  simpl in Hal. rewrite andb_true_r in Hal.
  rewrite map_app in Hnd. simpl map at 2 in Hnd.
  (* the first c inserts fill the table *)
  destruct (insert_all_room (r0 :: rs') w1 [] H1)
    as (wc & items & Hrun & Hsc & Hc_holds & Hsnd & Hfst).
  { lia. }
  { simpl List.length. lia. }
  { exact Ha. }
  { exact Hv. }
  { simpl app. apply NoDup_remove_1 in Hnd. rewrite app_nil_r in Hnd. exact Hnd. }
  simpl app in Hc_holds.
  destruct items as [|[p0 r0'] its]; [discriminate|].
  simpl in Hsnd, Hfst. inversion Hsnd as [[Hr0 Hsnd']]. subst r0'.
  inversion Hfst as [[Hp0 Hfst']]. clear Hsnd Hfst.
  assert (Hkeys : map (fun it => key_of (snd it)) ((p0, r0) :: its)
                  = map key_of (r0 :: rs')).
  { simpl. f_equal. rewrite <- Hsnd', map_map. reflexivity. }
  (* the last insert evicts the first entry *)
  destruct (insert_holds_full wc p0 r0 its rl Hc_holds)
    as (w & Hlast & Hsw & Hfreed & Hholds).
  { lia. }
  { rewrite (h_num _ _ _ _ _ _ Hc_holds). simpl List.length.
    rewrite <- (length_map snd its), Hsnd'. lia. }
  { exact Hal. }
  { exact Hvl. }
  { rewrite Hkeys. apply NoDup_remove_2 in Hnd. rewrite app_nil_r in Hnd.
    exact Hnd. }
  assert (Hreqs : map snd (its ++ [(List.length (heap wc), rl)]) = rs).
  { rewrite map_app, Hsnd', Hrs. reflexivity. }
  assert (Hsize : 0 < size w) by lia.
  exists w. split.
  { unfold bind at 1. rewrite Hinit. rewrite Hsplit, insert_all_app.
    unfold bind at 1. rewrite Hrun. unfold bind at 1. simpl insert_all.
    unfold bind at 1. rewrite Hlast. unfold bind, ret. simpl.
    rewrite Hlen'. simpl. repeat f_equal.
    clear. induction (List.length rs') as [|n IH]; simpl; [reflexivity|].
    f_equal. exact IH. }
  split.
  { rewrite (h_num _ _ _ _ _ _ Hholds), <- Hlen, <- Hreqs, length_map.
    reflexivity. }
  split.
  { rewrite <- Hheap1, <- Hp0. exact Hfreed. }
  split.
  { rewrite (h_list _ _ _ _ _ _ Hholds), <- Hreqs, !map_map.
    apply map_ext_in. intros it Hin. apply (h_heap _ _ _ _ _ _ Hholds). exact Hin. }
  split.
  { intros now. apply get_miss; [exact Hsize|].
    apply (holds_lookup_miss _ _ _ _ Hholds).
    assert (Hk : map (fun it => key_of (snd it)) (its ++ [(List.length (heap wc), rl)])
                 = map key_of rs).
    { rewrite <- Hreqs, map_map. reflexivity. }
    rewrite Hk, Hrs, map_app. simpl map at 2.
    simpl in Hnd. inversion Hnd. assumption. }
  intros r now Hin Hfresh.
  rewrite <- Hreqs in Hin. apply in_map_iff in Hin.
  destruct Hin as ([p r'] & Heq & Hin). simpl in Heq. subst r'.
  assert (Hfinal : NoDup (map (fun it => key_of (snd it))
                            (its ++ [(List.length (heap wc), rl)]))).
  { replace (map (fun it => key_of (snd it)) (its ++ [(List.length (heap wc), rl)]))
      with (map key_of (map snd (its ++ [(List.length (heap wc), rl)])))
      by (rewrite map_map; reflexivity).
    rewrite Hreqs, Hrs, map_app. simpl map at 2.
    simpl in Hnd. inversion Hnd. assumption. }
  pose proof (holds_lookup_hit _ _ _ _ Hholds Hfinal Hin) as Hl.
  pose proof (h_heap _ _ _ _ _ _ Hholds _ Hin) as He. simpl in He.
  exists p. eexists. split; [|exact He].
  apply (get_fresh now _ _ _ _ _ Hsize Hl He). simpl. exact Hfresh.
Qed.

(** * Further properties of the operations *)

(** ** The disabled cache and rejected requests *)

Lemma invalidate_disabled (now : Z) (w : world) :
  size w <= 0 -> dns_cache_invalidate now w = Some (tt, w).
Proof.
  intros H. unfold dns_cache_invalidate. unfold_m.
  apply Z.leb_le in H. rewrite H. reflexivity.
Qed.

(** X1: on a disabled cache ([size <= 0]) any sequence of inserts, lookups
    and sweeps, with whatever arguments, returns and leaves the world
    exactly as it was. *)
Theorem disabled_cache_is_inert (l : list op) (w : world) :
  size w <= 0 ->
  forallb guarded_call l = true ->
  run_ops l w = Some (tt, w).
Proof.
  intros Hs. induction l as [|o rest IH]; intros Hg; [reflexivity|].
  simpl in Hg. apply andb_true_iff in Hg. destruct Hg as [Ho Hrest].
  simpl. unfold bind at 1.
  assert (Hstep : run_op o w = Some (tt, w)).
  { destruct o as [r|now d t|p|p|p|now]; try discriminate; simpl.
    - unfold bind, ret, insert_request. rewrite insert_disabled by exact Hs.
      reflexivity.
    - unfold bind, ret. rewrite get_disabled by exact Hs. reflexivity.
    - apply invalidate_disabled. exact Hs. }
  rewrite Hstep. apply IH. exact Hrest.
Qed.

Lemma heap_get_app_freed (p : ptr) (h : list (option dns_cache)) :
  heap_get p (h ++ [None]) = heap_get p h.
Proof.
  destruct (Nat.lt_ge_cases p (List.length h)) as [Hlt|Hge].
  - apply heap_get_app_old. exact Hlt.
  - unfold heap_get. rewrite nth_error_app2 by exact Hge.
    assert (Hnone : nth_error h p = None) by (apply nth_error_None; exact Hge).
    rewrite Hnone. destruct (p - List.length h)%nat as [|n]; simpl.
    + reflexivity.
    + destruct n; reflexivity.
Qed.

(** X2: a request with an unsupported record type or with an address length
    that is not the one of its type, for a key the lookup does not find, is
    rejected with -1, whether [malloc] returned a block for it or not; the
    list, the chains, the count and the capacity are unchanged and no
    allocated block is added or altered. *)
Theorem invalid_request_is_rejected (r : request) (w : world) :
  0 < size w ->
  lookup (r_domain r) (r_type r) (chain_of (r_domain r) (r_type r) w) w
    = Some (None, w) ->
  valid_request r = false ->
  exists w',
    insert r w = Some (-1, w') /\
    cache_list w' = cache_list w /\
    cache_hash w' = cache_hash w /\
    num w' = num w /\
    size w' = size w /\
    forall p, heap_get p (heap w') = heap_get p (heap w).
Proof.
  intros Hs Hl Hv.
  pose proof (get_miss (r_now r) _ _ _ Hs Hl) as Hg.
  destruct (r_alloc r) eqn:Ha.
  - rewrite (insert_invalid_eq r w w Hs Hg Ha Hv).
    eexists. split; [reflexivity|]. simpl.
    repeat split. intros p. apply heap_get_app_freed.
  - rewrite (insert_nomem_eq r w w Hs Hg Ha).
    exists w. repeat split.
Qed.

(** X3: the checks of the request come after the lookup.  A request that
    fails them, for a key whose entry the lookup finds expired, returns -1
    and has nevertheless removed the expired entry: it is out of the list
    and of the chains, its block is freed and the count is one less. *)
Theorem rejected_insert_still_expires (r : request) (w : world) (p : ptr)
  (e : dns_cache) :
  0 < size w ->
  lookup (r_domain r) (r_type r) (chain_of (r_domain r) (r_type r) w) w
    = Some (Some p, w) ->
  heap_get p (heap w) = Some e ->
  r_now r - insert_time e > ttl e ->
  valid_request r = false ->
  exists w',
    insert r w = Some (-1, w') /\
    ~ In p (cache_list w') /\
    (forall b, ~ In (b, p) (cache_hash w')) /\
    heap_get p (heap w') = None /\
    num w' = num w - 1.
Proof.
  intros Hs Hl He Hold Hv.
  pose proof (get_stale (r_now r) _ _ _ _ _ Hs Hl He Hold) as Hg.
  assert (Hfreed : heap_get p (heap (deleted p w)) = None).
  { simpl. apply heap_get_set_same. apply heap_get_lt. congruence. }
  destruct (r_alloc r) eqn:Ha.
  - rewrite (insert_invalid_eq r w (deleted p w) Hs Hg Ha Hv).
    eexists. split; [reflexivity|].
    split; [apply deleted_not_listed|].
    split; [intros b; apply deleted_not_hashed|].
    split; [|reflexivity].
    simpl heap. rewrite heap_get_app_freed. exact Hfreed.
  - rewrite (insert_nomem_eq r w (deleted p w) Hs Hg Ha).
    eexists. split; [reflexivity|].
    split; [apply deleted_not_listed|].
    split; [intros b; apply deleted_not_hashed|].
    split; [exact Hfreed | reflexivity].
Qed.

(** X20: when [malloc] returns NULL (lines 68-71) for a key the lookup does
    not find, the request, valid or not, is answered -1 and the world is
    exactly the one before the call: nothing was allocated, and the [errout]
    exit frees nothing (line 108). *)
Theorem failed_allocation_changes_nothing (r : request) (w : world) :
  0 < size w ->
  lookup (r_domain r) (r_type r) (chain_of (r_domain r) (r_type r) w) w
    = Some (None, w) ->
  r_alloc r = false ->
  insert r w = Some (-1, w).
Proof.
  intros Hs Hl Ha.
  pose proof (get_miss (r_now r) _ _ _ Hs Hl) as Hg.
  apply (insert_nomem_eq r w w Hs Hg Ha).
Qed.

(** ** Insert and lookup, lookup and release *)

(** The lookup of a key whose entry is at the head of its chain. *)
Lemma lookup_chain_head (d : string) (t : dns_type_t) (w : world) (p : ptr)
  (rest : list ptr) (e : dns_cache) :
  chain_of d t w = p :: rest ->
  heap_get p (heap w) = Some e ->
  matches d t e = true ->
  lookup d t (chain_of d t w) w = Some (Some p, w).
Proof.
  intros Hc He Hm. rewrite Hc, (lookup_step _ _ _ _ _ _ He), Hm. reflexivity.
Qed.

Lemma entry_matches_own_key (r : request) :
  matches (r_domain r) (r_type r) (entry_of DNS_MAX_CNAME_LEN r) = true.
Proof. apply entry_key_match. reflexivity. Qed.

(** X4: insert, then lookup.  After a valid insert of a key the lookup did
    not find (its [malloc] returning a block), into a well-formed enabled
    table (with room, or with a non-empty list), the lookup of the same domain and type returns the new
    entry as long as [now - stamp <= ttl] (the clock being the one the insert
    stamped the entry with): it holds the first DNS_MAX_CNAME_LEN
    characters of the domain, the type, the ttl and the address bytes of the
    request, now with two references.  Later than that the lookup is a
    miss. *)
Theorem insert_then_get (r : request) (w : world) :
  0 < size w ->
  table_ok w ->
  num w < size w \/ cache_list w <> [] ->
  lookup (r_domain r) (r_type r) (chain_of (r_domain r) (r_type r) w) w
    = Some (None, w) ->
  r_alloc r = true ->
  valid_request r = true ->
  exists w1,
    insert r w = Some (0, w1) /\
    (forall now, now - r_stamp r <= r_ttl r ->
       exists w2,
         cache_get now (r_domain r) (r_type r) w1
         = Some (Some (List.length (heap w)), w2) /\
         heap_get (List.length (heap w)) (heap w2)
         = Some (set_ref (entry_of DNS_MAX_CNAME_LEN r) 2)) /\
    (forall now, now - r_stamp r > r_ttl r ->
       exists w2, cache_get now (r_domain r) (r_type r) w1 = Some (None, w2)).
Proof.
  intros Hs Hok Hroom Hl Ha Hv.
  pose proof (get_miss (r_now r) _ _ _ Hs Hl) as Hg.
  rewrite (insert_new_eq r w w Hs Hg Ha Hv), insert_evict_eq.
  set (p := List.length (heap w)).
  set (e := entry_of DNS_MAX_CNAME_LEN r).
  (* whatever the eviction does, the new entry heads its chain *)
  assert (Hgen : forall w1,
            size w1 = size w ->
            (exists rest, chain_of (r_domain r) (r_type r) w1 = p :: rest) ->
            heap_get p (heap w1) = Some e ->
            (forall now, now - r_stamp r <= r_ttl r ->
               exists w2,
                 cache_get now (r_domain r) (r_type r) w1 = Some (Some p, w2) /\
                 heap_get p (heap w2) = Some (set_ref e 2)) /\
            (forall now, now - r_stamp r > r_ttl r ->
               exists w2, cache_get now (r_domain r) (r_type r) w1 = Some (None, w2))).
  { intros w1 Hs1 [rest Hc] He.
    assert (Hs1' : 0 < size w1) by lia.
    pose proof (lookup_chain_head _ _ _ _ _ _ Hc He (entry_matches_own_key r)) as Hl1.
    split.
    - intros now Hnow. eexists. split.
      + apply (get_fresh now _ _ _ _ _ Hs1' Hl1 He). exact Hnow.
      + simpl. apply heap_get_set_same. apply heap_get_lt. congruence.
    - intros now Hnow. eexists.
      apply (get_stale now _ _ _ _ _ Hs1' Hl1 He). exact Hnow. }
  assert (Hnew : heap_get p (heap (linked r w)) = Some e).
  { simpl. apply heap_get_app_new. }
  destruct (num (linked r w) >? size (linked r w)) eqn:Hover.
  2:{ exists (linked r w). split; [reflexivity|].
      apply Hgen; [reflexivity | | exact Hnew].
      eexists. unfold chain_of, hash_possible. simpl. rewrite Z.eqb_refl.
      reflexivity. }
  simpl in Hover. apply Z.gtb_gt in Hover.
  destruct Hroom as [Hroom|Hroom]; [lia|].
  destruct (cache_list w) as [|p0 rest] eqn:Hlist; [contradiction|].
  change (cache_list (linked r w)) with (cache_list w ++ [p]).
  rewrite Hlist. simpl app. cbv iota.
  assert (Hp0 : heap_get p0 (heap w) <> None).
  { apply (ok_list_live w Hok). rewrite Hlist. left. reflexivity. }
  assert (Hlt : (p0 < p)%nat) by (apply heap_get_lt; exact Hp0).
  destruct (heap_get p0 (heap w)) as [e0|] eqn:He0; [|contradiction].
  assert (He0' : heap_get p0 (heap (linked r w)) = Some e0).
  { simpl. rewrite heap_get_app_old; [exact He0 | exact Hlt]. }
  rewrite (dns_cache_release_eq _ _ _ He0').
  assert (Hpp : Nat.eqb p p0 = false) by (apply Nat.eqb_neq; lia).
  eexists. split; [reflexivity|].
  destruct (ref e0 - 1 =? 0).
  - apply Hgen; [reflexivity | |].
    + eexists. unfold chain_of, hash_possible. simpl. fold p. rewrite Hpp.
      simpl. rewrite Z.eqb_refl. reflexivity.
    + simpl. rewrite heap_get_set_other by lia. apply heap_get_app_new.
  - apply Hgen; [reflexivity | |].
    + eexists. unfold chain_of, hash_possible. simpl. rewrite Z.eqb_refl.
      reflexivity.
    + simpl. rewrite heap_get_set_other by lia. apply heap_get_app_new.
Qed.

(** X5: lookup, then release.  A hit leaves the list, the chains and the
    count as they are and touches no other block: it only adds a reference
    to the entry; the release of the handle then gives back the world there
    was before the lookup. *)
Theorem get_then_release_restores (now : Z) (d : string) (t : dns_type_t)
  (w : world) (p : ptr) (e : dns_cache) :
  0 < size w ->
  lookup d t (chain_of d t w) w = Some (Some p, w) ->
  heap_get p (heap w) = Some e ->
  now - insert_time e <= ttl e ->
  1 <= ref e ->
  exists w1,
    cache_get now d t w = Some (Some p, w1) /\
    cache_list w1 = cache_list w /\
    cache_hash w1 = cache_hash w /\
    num w1 = num w /\
    (forall q, q <> p -> heap_get q (heap w1) = heap_get q (heap w)) /\
    heap_get p (heap w1) = Some (set_ref e (ref e + 1)) /\
    dns_cache_release p w1 = Some (tt, w).
Proof.
  intros Hs Hl He Hnew Href.
  exists (store p (set_ref e (ref e + 1)) w).
  split; [apply get_fresh; assumption|].
  split; [reflexivity|]. split; [reflexivity|]. split; [reflexivity|].
  assert (Hget : heap_get p (heap (store p (set_ref e (ref e + 1)) w))
                 = Some (set_ref e (ref e + 1))).
  { simpl. apply heap_get_set_same. apply heap_get_lt. congruence. }
  split; [intros q Hq; simpl; apply heap_get_set_other; exact Hq|].
  split; [exact Hget|].
  rewrite (dns_cache_release_eq _ _ _ Hget). simpl.
  assert (Hr : (ref e + 1 - 1 =? 0) = false) by (apply Z.eqb_neq; lia).
  rewrite Hr. repeat f_equal.
  replace (ref e + 1 - 1) with (ref e) by lia.
  rewrite set_ref_back. apply store_store_back. exact He.
Qed.

(** ** Explicit delete and teardown *)

Lemma heap_set_length_same (p : ptr) (v : option dns_cache)
  (h : list (option dns_cache)) :
  List.length (heap_set p v h) = List.length h.
Proof.
  revert p. induction h as [|x h IH]; intros [|p]; simpl; auto.
Qed.

Lemma dns_cache_delete_is_sweep_one (p : ptr) (e : dns_cache) (w : world) :
  heap_get p (heap w) = Some e -> dns_cache_delete p w = sweep_one p w.
Proof.
  intros He. unfold dns_cache_delete, sweep_one. unfold bind at 1.
  unfold deref. rewrite He. reflexivity.
Qed.

(** X6: [dns_cache_delete] through a valid handle takes the entry out of
    the list and of every chain and drops one reference, whatever the TTL.
    When that was the last reference the block is freed and the count goes
    down by one; when another handle remains the block stays allocated with
    one reference less and the count is NOT changed (it goes down when the
    block is freed).  No other block is touched. *)
Theorem explicit_delete_unlinks_and_releases (p : ptr) (e : dns_cache) (w : world) :
  heap_get p (heap w) = Some e ->
  exists w',
    dns_cache_delete p w = Some (tt, w') /\
    cache_list w' = filter (fun q => negb (Nat.eqb q p)) (cache_list w) /\
    ~ In p (cache_list w') /\
    (forall b, ~ In (b, p) (cache_hash w')) /\
    (forall q, q <> p -> heap_get q (heap w') = heap_get q (heap w)) /\
    (ref e = 1 -> heap_get p (heap w') = None /\ num w' = num w - 1) /\
    (ref e <> 1 ->
     heap_get p (heap w') = Some (set_ref e (ref e - 1)) /\ num w' = num w).
Proof.
  intros He. rewrite (dns_cache_delete_is_sweep_one p e w He).
  rewrite (sweep_one_eq p e w He).
  assert (Hlt : (p < List.length (heap w))%nat) by (apply heap_get_lt; congruence).
  eexists. split; [reflexivity|].
  assert (Hnotin : forall l, ~ In p (filter (fun q => negb (Nat.eqb q p)) l)).
  { intros l H. apply filter_In in H. destruct H as [_ H].
    rewrite Nat.eqb_refl in H. discriminate. }
  assert (Hnoth : forall b l,
            ~ In (b, p) (filter (fun bq : Z * ptr => negb (Nat.eqb (snd bq) p)) l)).
  { intros b l H. apply filter_In in H. destruct H as [_ H]. simpl in H.
    rewrite Nat.eqb_refl in H. discriminate. }
  destruct (ref e - 1 =? 0) eqn:Hr.
  - apply Z.eqb_eq in Hr. simpl.
    split; [reflexivity|]. split; [apply Hnotin|].
    split; [intros b; apply Hnoth|].
    split; [intros q Hq; apply heap_get_set_other; exact Hq|].
    split.
    + intros _. split; [apply heap_get_set_same; exact Hlt | reflexivity].
    + intros Hne. lia.
  - apply Z.eqb_neq in Hr. simpl.
    split; [reflexivity|]. split; [apply Hnotin|].
    split; [intros b; apply Hnoth|].
    split; [intros q Hq; apply heap_get_set_other; exact Hq|].
    split.
    + intros Hone. lia.
    + intros _. split; [apply heap_get_set_same; exact Hlt | reflexivity].
Qed.

(** X7: the deletion of a cached answer by a collaborator: lookup, explicit
    delete through the handle, release of the handle.  For an unexpired
    entry that only the table referenced, the three calls leave exactly the
    world of [_dns_cache_delete]: the entry unlinked from the list and the
    chains, its block freed, the count one less. *)
Theorem get_delete_release_removes (now : Z) (d : string) (t : dns_type_t)
  (w : world) (p : ptr) (e : dns_cache) :
  0 < size w ->
  lookup d t (chain_of d t w) w = Some (Some p, w) ->
  heap_get p (heap w) = Some e ->
  now - insert_time e <= ttl e ->
  ref e = 1 ->
  (h <- cache_get now d t ;;
   match h with
   | Some q => dns_cache_delete q ;; dns_cache_release q
   | None => ret tt
   end) w = Some (tt, deleted p w).
Proof.
  intros Hs Hl He Hnew Href.
  assert (Hlt : (p < List.length (heap w))%nat) by (apply heap_get_lt; congruence).
  unfold bind at 1. rewrite (get_fresh _ _ _ _ _ _ Hs Hl He Hnew).
  set (e2 := set_ref e (ref e + 1)).
  assert (H1 : heap_get p (heap (store p e2 w)) = Some e2).
  { simpl. apply heap_get_set_same. exact Hlt. }
  unfold bind at 1.
  rewrite (dns_cache_delete_is_sweep_one p e2 _ H1), (sweep_one_eq p e2 _ H1).
  assert (Hr2 : (ref e2 - 1 =? 0) = false).
  { apply Z.eqb_neq. unfold e2. simpl. lia. }
  rewrite Hr2.
  set (e1 := set_ref e2 (ref e2 - 1)).
  assert (H2 : heap_get p (heap (store p e1 (unlinked p (store p e2 w)))) = Some e1).
  { simpl. apply heap_get_set_same. rewrite heap_set_length_same. exact Hlt. }
  rewrite (dns_cache_release_eq _ _ _ H2).
  assert (Hr1 : (ref e1 - 1 =? 0) = true).
  { apply Z.eqb_eq. unfold e1, e2. simpl. lia. }
  rewrite Hr1. f_equal. f_equal.
  unfold deleted, store, unlinked, list_del_init, hash_del, set_heap,
    set_cache_list, set_cache_hash. simpl.
  rewrite !filter_idem, !heap_set_set. reflexivity.
Qed.

(** The loop of [dns_cache_destroy] on a duplicate-free sequence of
    allocated entries. *)
Lemma destroy_loop_spec (l : list ptr) :
  forall w,
    NoDup l ->
    (forall p, In p l -> heap_get p (heap w) <> None) ->
    exists w',
      destroy_loop l w = Some (tt, w') /\
      cache_list w' = filter (fun q => negb (mem_ptr q l)) (cache_list w) /\
      cache_hash w' = filter (fun bq => negb (mem_ptr (snd bq) l)) (cache_hash w) /\
      num w' = num w - Z.of_nat (List.length l) /\
      size w' = size w /\
      (forall q, In q l -> heap_get q (heap w') = None) /\
      (forall q, ~ In q l -> heap_get q (heap w') = heap_get q (heap w)).
Proof.
  induction l as [|p rest IH]; intros w Hnd Hlive.
  - exists w. split; [reflexivity|]. simpl.
    split; [symmetry; apply filter_all; reflexivity|].
    split; [symmetry; apply filter_all; reflexivity|].
    split; [lia|]. split; [reflexivity|].
    split; [intros q []|reflexivity].
  - inversion Hnd as [|? ? Hnotin Hnd']; subst.
    destruct (heap_get p (heap w)) as [e|] eqn:He.
    2:{ exfalso. apply (Hlive p); [left; reflexivity | exact He]. }
    destruct (IH (deleted p w) Hnd')
      as (w' & Hrun & Hlist & Hhash & Hnum & Hsize & Hfreed & Hother).
    { intros q Hq. simpl. rewrite heap_get_set_other.
      - apply Hlive. right. exact Hq.
      - intros ->. contradiction. }
    exists w'. split.
    { simpl. unfold bind at 1. unfold deref. rewrite He.
      unfold bind at 1. unfold _dns_cache_delete at 1.
      change ((modify (hash_del p);; modify (list_del_init p);;
               modify (fun w0 => set_num (num w0 - 1) w0);; modify (free p)) w)
        with (Some (tt, deleted p w)).
      exact Hrun. }
    split.
    { rewrite Hlist. simpl cache_list. rewrite filter_filter. apply filter_ext.
      intros q. simpl. rewrite negb_orb. reflexivity. }
    split.
    { rewrite Hhash. simpl cache_hash. rewrite filter_filter. apply filter_ext.
      intros q. simpl. rewrite negb_orb. reflexivity. }
    split.
    { rewrite Hnum. simpl num. simpl List.length. lia. }
    split; [rewrite Hsize; reflexivity|].
    split.
    { intros q [->|Hq]; [|apply Hfreed; exact Hq].
      rewrite Hother by exact Hnotin. simpl.
      apply heap_get_set_same. apply heap_get_lt. congruence. }
    intros q Hq. rewrite Hother.
    + simpl. apply heap_get_set_other. intros ->. apply Hq. left. reflexivity.
    + intros Hin. apply Hq. right. exact Hin.
Qed.

Lemma filter_none_of_itself (l : list ptr) :
  filter (fun q => negb (mem_ptr q l)) l = [].
Proof.
  assert (H : forall l0, (forall q, In q l0 -> In q l) ->
                         filter (fun q => negb (mem_ptr q l)) l0 = []).
  { induction l0 as [|q l0 IH]; intros Hl; [reflexivity|]. simpl.
    assert (Hq : mem_ptr q l = true)
      by (apply mem_ptr_iff; apply Hl; left; reflexivity).
    rewrite Hq. simpl. apply IH. intros q' Hq'. apply Hl. right. exact Hq'. }
  apply H. auto.
Qed.

(** X8: [dns_cache_destroy] on a well-formed table returns and tears the
    table down whatever the reference counts: the list is empty, every
    entry that was listed is out of the chains and its block is freed (a
    handle still held on it dangles), the count has gone down by the number
    of listed entries, and the blocks that were not listed are untouched. *)
Theorem destroy_frees_every_listed_entry (w : world) :
  table_ok w ->
  exists w',
    dns_cache_destroy w = Some (tt, w') /\
    cache_list w' = [] /\
    num w' = num w - Z.of_nat (List.length (cache_list w)) /\
    (forall p, In p (cache_list w) ->
       heap_get p (heap w') = None /\ forall b, ~ In (b, p) (cache_hash w')) /\
    (forall q, ~ In q (cache_list w) -> heap_get q (heap w') = heap_get q (heap w)).
Proof.
  intros Hok.
  destruct (destroy_loop_spec (cache_list w) w (ok_list_nodup w Hok) (ok_list_live w Hok))
    as (w' & Hrun & Hlist & Hhash & Hnum & _ & Hfreed & Hother).
  exists w'. split; [exact Hrun|].
  split; [rewrite Hlist; apply filter_none_of_itself|].
  split; [exact Hnum|]. split; [|exact Hother].
  intros p Hp. split; [apply Hfreed; exact Hp|].
  intros b Hb. rewrite Hhash in Hb. apply filter_In in Hb.
  destruct Hb as [_ Hb]. simpl in Hb.
  apply mem_ptr_iff in Hp. rewrite Hp in Hb. discriminate.
Qed.

(** ** Invariants of the operations, generically *)

Section Invariant.

(** A predicate on worlds that the elementary changes of the operations
    keep: the deletion of an allocated entry, the change of a reference count
    by the lookup (+1) or by a release that does not reach 0 (-1), the
    unlinking of an entry, the linking of a fresh entry, the [errout] exit
    and the move of a listed entry to the tail. *)
Variable P : world -> Prop.

Hypothesis P_deleted :
  forall p e w, P w -> heap_get p (heap w) = Some e -> P (deleted p w).
Hypothesis P_ref :
  forall p e r w, P w -> heap_get p (heap w) = Some e ->
    r = ref e + 1 \/ (r = ref e - 1 /\ r <> 0) ->
    P (store p (set_ref e r) w).
Hypothesis P_unlinked : forall p w, P w -> P (unlinked p w).
Hypothesis P_linked : forall r w, P w -> P (linked r w).
Hypothesis P_errout : forall w, P w -> P (set_heap (heap w ++ [None]) w).
Hypothesis P_moved :
  forall p w, P w -> In p (cache_list w) ->
    P (list_add_tail p (list_del_init p w)).

Lemma inv_release (p : ptr) (w w' : world) :
  P w -> dns_cache_release p w = Some (tt, w') -> P w'.
Proof.
  intros H Hrun. destruct (heap_get p (heap w)) as [e|] eqn:He.
  - rewrite (dns_cache_release_eq _ _ _ He) in Hrun. inversion Hrun.
    destruct (ref e - 1 =? 0) eqn:Hr.
    + apply (P_deleted p e w H He).
    + apply (P_ref p e _ w H He). right. split; [reflexivity|].
      apply Z.eqb_neq. exact Hr.
  - unfold dns_cache_release in Hrun. unfold_m. rewrite He in Hrun. discriminate.
Qed.

Lemma inv_get (now : Z) (d : string) (t : dns_type_t) (w w' : world)
  (r : option ptr) :
  P w -> cache_get now d t w = Some (r, w') -> P w'.
Proof.
  intros H. unfold dns_cache_get. unfold bind at 1. unfold get_world.
  destruct (size w <=? 0).
  { unfold ret. intros Hrun. inversion Hrun. subst. exact H. }
  unfold bind at 1.
  destruct (lookup d t (hash_possible (bucket_of d t) w) w) as [[found w1]|] eqn:Hl;
    [|discriminate].
  apply lookup_pure in Hl. subst w1. destruct found as [p|].
  - unfold_m. destruct (heap_get p (heap w)) as [e|] eqn:He; [|discriminate].
    destruct (now - insert_time e >? ttl e); intros Hrun; inversion Hrun.
    + apply (P_deleted p e w H He).
    + apply (P_ref p e _ w H He). left. reflexivity.
  - unfold ret. intros Hrun. inversion Hrun. subst. exact H.
Qed.

Lemma inv_evict (w w' : world) (s : Z) :
  P w -> insert_evict w = Some (s, w') -> P w'.
Proof.
  intros H. rewrite insert_evict_eq.
  destruct (num w >? size w).
  - destruct (cache_list w) as [|p0 l]; [discriminate|].
    destruct (dns_cache_release p0 w) as [[[] w1]|] eqn:Hrel; [|discriminate].
    intros Hrun. inversion Hrun. subst. exact (inv_release _ _ _ H Hrel).
  - intros Hrun. inversion Hrun. subst. exact H.
Qed.

Lemma inv_insert (r : request) (w w' : world) (s : Z) :
  P w -> insert r w = Some (s, w') -> P w'.
Proof.
  intros H Hrun.
  destruct (Z_le_gt_dec (size w) 0) as [Hs|Hs].
  { unfold insert_request in Hrun. rewrite insert_disabled in Hrun by exact Hs.
    inversion Hrun. subst. exact H. }
  assert (Hs' : 0 < size w) by lia.
  assert (Hsb : (size w <=? 0) = false) by (apply Z.leb_gt; exact Hs').
  destruct (cache_get (r_now r) (r_domain r) (r_type r) w) as [[found w1]|] eqn:Hg.
  2:{ unfold insert_request, dns_cache_insert in Hrun.
      unfold bind at 1 in Hrun. unfold get_world in Hrun.
      rewrite Hsb in Hrun. unfold bind at 1 in Hrun. rewrite Hg in Hrun.
      discriminate. }
  pose proof (inv_get _ _ _ _ _ _ H Hg) as H1.
  destruct found as [p|].
  - unfold insert_request, dns_cache_insert in Hrun.
    unfold bind at 1 in Hrun. unfold get_world in Hrun.
    rewrite Hsb in Hrun. unfold bind at 1 in Hrun. rewrite Hg in Hrun.
    unfold bind, ret in Hrun.
    destruct (dns_cache_release p w1) as [[[] w2]|] eqn:Hrel; [|discriminate].
    inversion Hrun. subst. exact (inv_release _ _ _ H1 Hrel).
  - destruct (r_alloc r) eqn:Ha.
    2:{ rewrite (insert_nomem_eq r w w1 Hs' Hg Ha) in Hrun.
        inversion Hrun. subst. exact H1. }
    destruct (valid_request r) eqn:Hv.
    + rewrite (insert_new_eq r w w1 Hs' Hg Ha Hv) in Hrun.
      apply (inv_evict _ _ _ (P_linked r w1 H1) Hrun).
    + rewrite (insert_invalid_eq r w w1 Hs' Hg Ha Hv) in Hrun.
      inversion Hrun. apply P_errout. exact H1.
Qed.

Lemma inv_update (p : ptr) (w w' : world) :
  P w -> dns_cache_update p w = Some (tt, w') -> P w'.
Proof.
  intros H. unfold dns_cache_update. unfold_m.
  destruct (heap_get p (heap w)) as [e|] eqn:He; [|discriminate].
  destruct (list_empty p w) eqn:Hemp; simpl; intros Hrun; inversion Hrun.
  - subst. exact H.
  - apply P_moved; [exact H|]. apply list_empty_false_iff. exact Hemp.
Qed.

Lemma inv_delete (p : ptr) (w w' : world) :
  P w -> dns_cache_delete p w = Some (tt, w') -> P w'.
Proof.
  intros H. unfold dns_cache_delete. unfold bind at 1. unfold deref.
  destruct (heap_get p (heap w)) as [e|]; [|discriminate].
  unfold bind at 1. unfold modify at 1. unfold bind at 1. unfold modify at 1.
  apply inv_release. apply (P_unlinked p w H).
Qed.

Lemma inv_invalidate_loop (now : Z) (l : list ptr) :
  forall w w', P w -> invalidate_loop now l w = Some (tt, w') -> P w'.
Proof.
  induction l as [|p rest IH]; intros w w' H; simpl.
  - unfold ret. intros Hrun. inversion Hrun. subst. exact H.
  - unfold bind at 1. unfold deref.
    destruct (heap_get p (heap w)) as [e|]; [|discriminate].
    destruct (int_of_time_t (insert_time e + ttl e - now) >? 0).
    + unfold ret. intros Hrun. inversion Hrun. subst. exact H.
    + unfold bind at 1. unfold modify at 1. unfold bind at 1. unfold modify at 1.
      unfold bind at 1.
      destruct (dns_cache_release p (list_del_init p (hash_del p w)))
        as [[[] w1]|] eqn:Hrel; [|discriminate].
      apply IH. apply (inv_release _ _ _ (P_unlinked p w H) Hrel).
Qed.

Lemma inv_invalidate (now : Z) (w w' : world) :
  P w -> dns_cache_invalidate now w = Some (tt, w') -> P w'.
Proof.
  intros H. unfold dns_cache_invalidate. unfold bind at 1. unfold get_world.
  destruct (size w <=? 0).
  - unfold ret. intros Hrun. inversion Hrun. subst. exact H.
  - apply inv_invalidate_loop. exact H.
Qed.

Lemma inv_run_op (o : op) (w w' : world) :
  P w -> run_op o w = Some (tt, w') -> P w'.
Proof.
  intros H. destruct o as [r|now d t|p|p|p|now]; simpl.
  - unfold bind, ret. destruct (insert r w) as [[s w1]|] eqn:Hrun; [|discriminate].
    intros Heq. inversion Heq. subst. exact (inv_insert _ _ _ _ H Hrun).
  - unfold bind, ret. destruct (cache_get now d t w) as [[r w1]|] eqn:Hrun;
      [|discriminate].
    intros Heq. inversion Heq. subst. exact (inv_get _ _ _ _ _ _ H Hrun).
  - apply inv_release. exact H.
  - apply inv_update. exact H.
  - apply inv_delete. exact H.
  - apply inv_invalidate. exact H.
Qed.

Lemma inv_run_ops (l : list op) :
  forall w w', P w -> run_ops l w = Some (tt, w') -> P w'.
Proof.
  induction l as [|o rest IH]; intros w w' H; simpl.
  - unfold ret. intros Hrun. inversion Hrun. subst. exact H.
  - unfold bind at 1. destruct (run_op o w) as [[[] w1]|] eqn:Hrun; [|discriminate].
    apply IH. exact (inv_run_op _ _ _ H Hrun).
Qed.

Lemma inv_destroy_loop (l : list ptr) :
  forall w w', P w -> destroy_loop l w = Some (tt, w') -> P w'.
Proof.
  induction l as [|p rest IH]; intros w w' H; simpl.
  - unfold ret. intros Hrun. inversion Hrun. subst. exact H.
  - unfold bind at 1. unfold deref.
    destruct (heap_get p (heap w)) as [e|] eqn:He; [|discriminate].
    unfold bind at 1.
    change (_dns_cache_delete p w) with (Some (tt, deleted p w)).
    cbv iota beta. apply IH. apply (P_deleted p e w H He).
Qed.

Lemma inv_destroy (w w' : world) :
  P w -> dns_cache_destroy w = Some (tt, w') -> P w'.
Proof.
  intros H. unfold dns_cache_destroy. unfold bind at 1. unfold get_world.
  apply inv_destroy_loop. exact H.
Qed.

(** From [dns_cache_init]: the calls, then possibly the teardown. *)
Lemma inv_reachable (c : Z) (l : list op) (w0 w : world) :
  (forall w1, dns_cache_init c w0 = Some (0, w1) -> P w1) ->
  (dns_cache_init c ;; run_ops l) w0 = Some (tt, w) ->
  P w /\ forall w', dns_cache_destroy w = Some (tt, w') -> P w'.
Proof.
  intros Hinit Hrun. unfold bind at 1 in Hrun.
  assert (Hw : P w).
  { revert Hrun. apply inv_run_ops. apply Hinit. reflexivity. }
  split; [exact Hw|]. intros w'. apply inv_destroy. exact Hw.
Qed.

End Invariant.

(** ** Four invariants *)

Lemma table_ok_errout (w : world) :
  table_ok w -> table_ok (set_heap (heap w ++ [None]) w).
Proof.
  intros H. constructor; simpl.
  - intros q Hq. rewrite heap_get_app_freed. exact (ok_list_live w H q Hq).
  - intros b q Hq. rewrite heap_get_app_freed. exact (ok_hash_live w H b q Hq).
  - exact (ok_list_nodup w H).
Qed.

Lemma table_ok_moved (p : ptr) (w : world) :
  table_ok w -> In p (cache_list w) ->
  table_ok (list_add_tail p (list_del_init p w)).
Proof.
  intros H Hin. constructor; simpl.
  - intros q Hq. apply in_app_or in Hq. destruct Hq as [Hq|[<-|[]]].
    + apply filter_In in Hq. exact (ok_list_live w H q (proj1 Hq)).
    + exact (ok_list_live w H p Hin).
  - intros b q Hq. exact (ok_hash_live w H b q Hq).
  - apply nodup_snoc; [apply NoDup_filter; exact (ok_list_nodup w H)|].
    intros Hp. apply filter_In in Hp. destruct Hp as [_ Hp].
    rewrite Nat.eqb_refl in Hp. discriminate.
Qed.

(** X9: every world that the operations reach from [dns_cache_init], in any
    order and with any arguments, without undefined behaviour, has a
    well-formed table: the nodes of the list and of the chains are allocated
    blocks (no freed entry is ever reachable from the table) and no entry is
    listed twice; the teardown of such a world returns and leaves a
    well-formed table too. *)
Theorem reachable_table_is_well_formed (c : Z) (l : list op) (w0 w : world) :
  (dns_cache_init c ;; run_ops l) w0 = Some (tt, w) ->
  table_ok w /\
  exists w', dns_cache_destroy w = Some (tt, w') /\ table_ok w'.
Proof.
  intros Hrun.
  destruct (inv_reachable table_ok
              (fun p e w1 H _ => table_ok_deleted p w1 H)
              (fun p e r w1 H _ _ => table_ok_store p (set_ref e r) w1 H)
              table_ok_unlinked table_ok_linked table_ok_errout table_ok_moved
              c l w0 w) as [Hw Hd].
  - intros w1 Hinit. destruct (table_ok_init c w0) as (w1' & Hinit' & H1).
    rewrite Hinit in Hinit'. inversion Hinit'. subst. exact H1.
  - exact Hrun.
  - split; [exact Hw|].
    destruct (destroy_loop_spec (cache_list w) w (ok_list_nodup w Hw)
                (ok_list_live w Hw)) as (w' & Hdes & _).
    exists w'. split; [exact Hdes|]. apply Hd. exact Hdes.
Qed.

(** *** An entry is in the list exactly when it is in a chain *)

Lemma in_filter_ne (p q : ptr) (l : list ptr) :
  In q (filter (fun x => negb (Nat.eqb x p)) l) <-> In q l /\ q <> p.
Proof.
  rewrite filter_In, negb_true_iff, Nat.eqb_neq. reflexivity.
Qed.

Lemma in_hash_filter_ne (p q : ptr) (b : Z) (l : list (Z * ptr)) :
  In (b, q) (filter (fun bq => negb (Nat.eqb (snd bq) p)) l) <->
  In (b, q) l /\ q <> p.
Proof.
  rewrite filter_In. simpl. rewrite negb_true_iff, Nat.eqb_neq. reflexivity.
Qed.

Lemma matches_unlinked (p : ptr) (w : world) (ch : list (Z * ptr)) (cl : list ptr) :
  list_matches_chains w ->
  cl = filter (fun x => negb (Nat.eqb x p)) (cache_list w) ->
  ch = filter (fun bq => negb (Nat.eqb (snd bq) p)) (cache_hash w) ->
  forall q, In q cl <-> exists b, In (b, q) ch.
Proof.
  intros H -> -> q. rewrite in_filter_ne, (H q). split.
  - intros [[b Hb] Hne]. exists b. apply in_hash_filter_ne. auto.
  - intros [b Hb]. apply in_hash_filter_ne in Hb. destruct Hb as [Hb Hne].
    split; [exists b; exact Hb | exact Hne].
Qed.

Lemma matches_deleted (p : ptr) (w : world) :
  list_matches_chains w -> list_matches_chains (deleted p w).
Proof.
  intros H. exact (matches_unlinked p w _ _ H eq_refl eq_refl).
Qed.

Lemma matches_unlinked_world (p : ptr) (w : world) :
  list_matches_chains w -> list_matches_chains (unlinked p w).
Proof.
  intros H. exact (matches_unlinked p w _ _ H eq_refl eq_refl).
Qed.

Lemma matches_linked (r : request) (w : world) :
  list_matches_chains w -> list_matches_chains (linked r w).
Proof.
  intros H q. simpl. rewrite in_app_iff, (H q). simpl. split.
  - intros [[b Hb]|[<-|[]]].
    + exists b. right. exact Hb.
    + eexists. left. reflexivity.
  - intros [b [Hb|Hb]].
    + inversion Hb. right. left. reflexivity.
    + left. exists b. exact Hb.
Qed.

Lemma matches_moved (p : ptr) (w : world) :
  list_matches_chains w -> In p (cache_list w) ->
  list_matches_chains (list_add_tail p (list_del_init p w)).
Proof.
  intros H Hin q. simpl. rewrite <- (H q), in_app_iff, in_filter_ne. simpl.
  split.
  - intros [[Hq _]|[<-|[]]]; assumption.
  - intros Hq. destruct (Nat.eq_dec q p) as [->|Hne]; [right; left; reflexivity|].
    left. split; assumption.
Qed.

(** X10: in every world that the operations reach from [dns_cache_init]
    without undefined behaviour, and after its teardown, an entry is in the
    list exactly when it is in a chain of the hash table. *)
Theorem listed_iff_chained (c : Z) (l : list op) (w0 w : world) :
  (dns_cache_init c ;; run_ops l) w0 = Some (tt, w) ->
  list_matches_chains w /\
  forall w', dns_cache_destroy w = Some (tt, w') -> list_matches_chains w'.
Proof.
  apply (inv_reachable list_matches_chains
           (fun p e w1 H _ => matches_deleted p w1 H)
           (fun p e r w1 H _ _ => H)
           matches_unlinked_world matches_linked (fun w1 H => H) matches_moved).
  intros w1 Hinit. inversion Hinit. intros q. simpl. split.
  - intros [].
  - intros [b []].
Qed.

(** *** Reference counts *)

Lemma heap_get_app_cases (q : ptr) (h : list (option dns_cache))
  (x : option dns_cache) (e : dns_cache) :
  heap_get q (h ++ [x]) = Some e ->
  heap_get q h = Some e \/ (q = List.length h /\ x = Some e).
Proof.
  intros H. destruct (Nat.lt_ge_cases q (List.length h)) as [Hlt|Hge].
  - left. rewrite heap_get_app_old in H by exact Hlt. exact H.
  - destruct (Nat.eq_dec q (List.length h)) as [->|Hne].
    + right. rewrite heap_get_app_new in H. auto.
    + exfalso. unfold heap_get in H. rewrite nth_error_app2 in H by exact Hge.
      destruct (q - List.length h)%nat as [|n] eqn:Hd; [lia|].
      simpl in H. destruct n; discriminate.
Qed.

Lemma refs_deleted (p : ptr) (w : world) :
  refs_positive w -> refs_positive (deleted p w).
Proof.
  intros H q e Hq. simpl in Hq. destruct (Nat.eq_dec q p) as [->|Hne].
  - destruct (heap_get p (heap w)) as [e0|] eqn:He0.
    + rewrite heap_get_set_same in Hq by (apply heap_get_lt; congruence).
      discriminate.
    + unfold heap_get in *.
      assert (Hn : nth_error (heap_set p None (heap w)) p = None \/
                   nth_error (heap_set p None (heap w)) p = Some None).
      { clear. revert p. induction (heap w) as [|x h IH]; intros [|p]; simpl; auto. }
      destruct Hn as [Hn|Hn]; rewrite Hn in Hq; discriminate.
  - rewrite heap_get_set_other in Hq by exact Hne. exact (H q e Hq).
Qed.

Lemma refs_changed (p : ptr) (e : dns_cache) (r : Z) (w : world) :
  refs_positive w -> heap_get p (heap w) = Some e ->
  r = ref e + 1 \/ (r = ref e - 1 /\ r <> 0) ->
  refs_positive (store p (set_ref e r) w).
Proof.
  intros H He Hr q e' Hq. simpl in Hq. pose proof (H p e He) as Hpos.
  destruct (Nat.eq_dec q p) as [->|Hne].
  - rewrite heap_get_set_same in Hq by (apply heap_get_lt; congruence).
    inversion Hq. simpl. lia.
  - rewrite heap_get_set_other in Hq by exact Hne. exact (H q e' Hq).
Qed.

Lemma refs_linked (r : request) (w : world) :
  refs_positive w -> refs_positive (linked r w).
Proof.
  intros H q e Hq. simpl in Hq. apply heap_get_app_cases in Hq.
  destruct Hq as [Hq|[_ Hq]]; [exact (H q e Hq)|].
  inversion Hq. simpl. lia.
Qed.

Lemma refs_errout (w : world) :
  refs_positive w -> refs_positive (set_heap (heap w ++ [None]) w).
Proof.
  intros H q e Hq. simpl in Hq. rewrite heap_get_app_freed in Hq. exact (H q e Hq).
Qed.

(** X11: when every entry allocated before [dns_cache_init] holds at least
    one reference, so does every allocated entry in every world that the
    operations reach without undefined behaviour: a block whose count
    reaches 0 is freed in the same call, and no count is ever negative. *)
Theorem allocated_entries_are_referenced (c : Z) (l : list op) (w0 w : world) :
  refs_positive w0 ->
  (dns_cache_init c ;; run_ops l) w0 = Some (tt, w) ->
  refs_positive w /\
  forall w', dns_cache_destroy w = Some (tt, w') -> refs_positive w'.
Proof.
  intros H0.
  apply (inv_reachable refs_positive
           (fun p e w1 H _ => refs_deleted p w1 H)
           refs_changed
           (fun p w1 H => H) refs_linked refs_errout (fun p w1 H _ => H)).
  intros w1 Hinit. inversion Hinit. exact H0.
Qed.

(** *** What [num] counts *)

Lemma live_count_app (h : list (option dns_cache)) (x : option dns_cache) :
  live_count (h ++ [x])
  = live_count h + match x with Some _ => 1 | None => 0 end.
Proof.
  induction h as [|[e|] h IH]; cbn [live_count app].
  - destruct x; reflexivity.
  - rewrite IH. lia.
  - exact IH.
Qed.

Lemma live_count_free (p : ptr) (e : dns_cache) (h : list (option dns_cache)) :
  heap_get p h = Some e -> live_count (heap_set p None h) = live_count h - 1.
Proof.
  unfold heap_get. revert p.
  induction h as [|x h IH]; intros [|p] H; cbn [nth_error heap_set live_count] in *;
    try discriminate.
  - destruct x; [lia | discriminate].
  - rewrite (IH p H). destruct x; lia.
Qed.

Lemma live_count_store (p : ptr) (e e' : dns_cache) (h : list (option dns_cache)) :
  heap_get p h = Some e -> live_count (heap_set p (Some e') h) = live_count h.
Proof.
  unfold heap_get. revert p.
  induction h as [|x h IH]; intros [|p] H; cbn [nth_error heap_set live_count] in *;
    try discriminate.
  - destruct x; [reflexivity | discriminate].
  - rewrite (IH p H). reflexivity.
Qed.

(** X12: [num] is not the number of listed entries but the number of
    allocated ones.  In every world that the operations reach from
    [dns_cache_init] without undefined behaviour, and after its teardown,
    [num] is the number of allocated blocks less the number of blocks that
    were allocated when the table was initialised: entries that were
    unlinked under an outstanding handle are still counted. *)
Theorem num_counts_allocated_entries (c : Z) (l : list op) (w0 w : world) :
  (dns_cache_init c ;; run_ops l) w0 = Some (tt, w) ->
  counts_blocks (live_count (heap w0)) w /\
  forall w', dns_cache_destroy w = Some (tt, w') ->
             counts_blocks (live_count (heap w0)) w'.
Proof.
  apply (inv_reachable (counts_blocks (live_count (heap w0)))).
  - intros p e w1 H He. unfold counts_blocks in *. simpl.
    rewrite (live_count_free p e _ He). lia.
  - intros p e r w1 H He _. unfold counts_blocks in *. simpl.
    rewrite (live_count_store p e _ _ He). exact H.
  - intros p w1 H. exact H.
  - intros r w1 H. unfold counts_blocks in *. simpl.
    rewrite live_count_app. lia.
  - intros w1 H. unfold counts_blocks in *. simpl.
    rewrite live_count_app. lia.
  - intros p w1 H _. exact H.
  - intros w1 Hinit. inversion Hinit. unfold counts_blocks. simpl. lia.
Qed.

(** ** The sweep *)

Lemma expired_prefix_decompose (now : Z) (w : world) (l : list ptr) :
  exists suf,
    l = expired_prefix now w l ++ suf /\
    match suf with
    | [] => True
    | q :: _ => sweep_expired now w q = false
    end.
Proof.
  induction l as [|p rest IH]; simpl.
  - exists []. split; [reflexivity | exact I].
  - destruct (sweep_expired now w p) eqn:Hp.
    + destruct IH as (suf & Heq & Hsuf). exists suf. split; [|exact Hsuf].
      simpl. f_equal. exact Heq.
    + exists (p :: rest). split; [reflexivity | exact Hp].
Qed.

(** X13: the sweep never removes an entry that is not expired, as far as
    [insert_time + ttl - now] is representable in the [int] of line 207.
    After [dns_cache_invalidate] on a well-formed enabled table, every
    listed entry with a representable value whose remaining TTL
    max(0, insert_time + ttl - now) is positive is still listed and chained
    as before and its block is untouched; every listed entry with a
    representable value that has left the list had a remaining TTL of 0. *)
Theorem invalidate_keeps_unexpired (now : Z) (w : world) :
  0 < size w ->
  table_ok w ->
  exists w',
    dns_cache_invalidate now w = Some (tt, w') /\
    (forall p n, In p (cache_list w) ->
       ttl_fits_int now w p = true ->
       spec_remaining_ttl now p w = Some n -> 0 < n ->
       In p (cache_list w') /\
       heap_get p (heap w') = heap_get p (heap w) /\
       forall b, In (b, p) (cache_hash w') <-> In (b, p) (cache_hash w)) /\
    (forall p, In p (cache_list w) ->
       ttl_fits_int now w p = true ->
       ~ In p (cache_list w') ->
       spec_remaining_ttl now p w = Some 0).
Proof.
  intros Hs Hok.
  destruct (invalidate_spec now w Hs Hok)
    as (w' & Hrun & _ & Hl & Hh & Hother & _).
  set (xs := expired_prefix now w (cache_list w)) in *.
  assert (Hexp : forall p, In p xs -> sweep_expired now w p = true).
  { intros p. unfold xs. clear.
    induction (cache_list w) as [|q l IH]; simpl; [contradiction|].
    destruct (sweep_expired now w q) eqn:Hq; [|contradiction].
    intros [<-|Hin]; [exact Hq | apply IH; exact Hin]. }
  exists w'. split; [exact Hrun|]. split.
  - intros p n Hin Hfit Hrem Hpos.
    assert (Hnot : ~ In p xs).
    { intros Hx. apply Hexp in Hx. apply (sweep_expired_spec _ _ _ Hfit) in Hx.
      rewrite Hx in Hrem. inversion Hrem. lia. }
    assert (Hm : mem_ptr p xs = false).
    { destruct (mem_ptr p xs) eqn:Hm; [|reflexivity].
      apply mem_ptr_iff in Hm. contradiction. }
    split; [|split].
    + rewrite Hl. apply filter_In. split; [exact Hin|]. rewrite Hm. reflexivity.
    + apply Hother. exact Hnot.
    + intros b. rewrite Hh, filter_In. simpl. rewrite Hm. simpl.
      split; [intros [H _]; exact H | intros H; split; [exact H | reflexivity]].
  - intros p Hin Hfit Hgone. apply (sweep_expired_spec _ _ _ Hfit). apply Hexp.
    destruct (mem_ptr p xs) eqn:Hm; [apply mem_ptr_iff; exact Hm|].
    exfalso. apply Hgone. rewrite Hl. apply filter_In.
    split; [exact Hin|]. rewrite Hm. reflexivity.
Qed.

(** X14: a second sweep at the same time does nothing: on a well-formed
    enabled table, [dns_cache_invalidate] twice with the same clock leaves
    the world of the first sweep. *)
Theorem invalidate_twice_is_once (now : Z) (w : world) :
  0 < size w ->
  table_ok w ->
  exists w',
    dns_cache_invalidate now w = Some (tt, w') /\
    (dns_cache_invalidate now ;; dns_cache_invalidate now) w = Some (tt, w').
Proof.
  intros Hs Hok.
  destruct (invalidate_spec now w Hs Hok)
    as (w' & Hrun & _ & Hl & _ & Hother & _).
  exists w'. split; [exact Hrun|].
  unfold bind. rewrite Hrun.
  assert (Hs' : size w' = size w).
  { destruct (sweep_all_spec (expired_prefix now w (cache_list w)) w)
      as (w'' & Hrun'' & _ & _ & Hsz & _).
    - apply expired_prefix_nodup. exact (ok_list_nodup w Hok).
    - intros p Hin. apply (ok_list_live w Hok).
      apply (expired_prefix_incl _ _ _ _ Hin).
    - destruct (invalidate_spec now w Hs Hok) as (w3 & Hrun3 & Heach3 & _).
      rewrite Hrun in Hrun3. inversion Hrun3. subst w3.
      rewrite Hrun'' in Heach3. inversion Heach3. subst. exact Hsz. }
  pose proof (table_ok_invalidate _ _ _ Hok Hrun) as Hok'.
  destruct (expired_prefix_decompose now w (cache_list w)) as (suf & Hsplit & Hsuf).
  assert (Hlist' : cache_list w' = suf).
  { rewrite Hl.
    transitivity (filter (fun q => negb (mem_ptr q (expired_prefix now w (cache_list w))))
                    (expired_prefix now w (cache_list w) ++ suf)).
    - f_equal. exact Hsplit.
    - apply filter_out_prefix. rewrite <- Hsplit. exact (ok_list_nodup w Hok). }
  assert (Hnone : expired_prefix now w' (cache_list w') = []).
  { rewrite Hlist'. destruct suf as [|q suf']; [reflexivity|].
    simpl. unfold sweep_expired. rewrite Hother.
    - unfold sweep_expired in Hsuf. rewrite Hsuf. reflexivity.
    - intros Hin.
      assert (Hnd : NoDup (expired_prefix now w (cache_list w) ++ q :: suf')).
      { rewrite <- Hsplit. exact (ok_list_nodup w Hok). }
      apply NoDup_remove_2 in Hnd. apply Hnd. apply in_or_app. left. exact Hin. }
  unfold dns_cache_invalidate. unfold bind at 1. unfold get_world.
  assert (Hsb : (size w' <=? 0) = false) by (apply Z.leb_gt; lia).
  rewrite Hsb.
  rewrite invalidate_loop_prefix;
    [|exact (ok_list_nodup w' Hok') | exact (ok_list_live w' Hok')].
  rewrite Hnone. reflexivity.
Qed.

(** ** A touch and the eviction *)

(** The lookup reads the chain and the heap only. *)
Lemma lookup_same_heap (d : string) (t : dns_type_t) (chain : list ptr)
  (w w2 : world) (r : option ptr) :
  heap w2 = heap w ->
  lookup d t chain w = Some (r, w) ->
  lookup d t chain w2 = Some (r, w2).
Proof.
  intros Hh. induction chain as [|p rest IH]; simpl; unfold_m.
  - intros H. inversion H. reflexivity.
  - rewrite Hh. destruct (heap_get p (heap w)) as [e|]; [|discriminate].
    destruct (negb (dns_type_eqb (qtype e) t)); [exact IH|].
    destruct (negb (strncmp d (domain e) DNS_MAX_CNAME_LEN =? 0)); [exact IH|].
    intros H. inversion H. reflexivity.
Qed.

Lemma update_listed_eq (p : ptr) (e : dns_cache) (w : world) :
  heap_get p (heap w) = Some e ->
  In p (cache_list w) ->
  dns_cache_update p w = Some (tt, list_add_tail p (list_del_init p w)).
Proof.
  intros He Hin. unfold dns_cache_update. unfold_m. rewrite He.
  apply list_empty_false_iff in Hin. rewrite Hin. reflexivity.
Qed.

Lemma filter_ne_notin (p : ptr) (l : list ptr) :
  ~ In p l -> filter (fun q => negb (Nat.eqb q p)) l = l.
Proof.
  intros H. apply filter_all. intros q Hq. apply negb_true_iff.
  apply Nat.eqb_neq. intros ->. contradiction.
Qed.

(** X15: a touch changes which entry the next insert evicts.  On a full
    table whose two oldest entries [p0], [p1] are referenced by the table
    only, a valid insert of a new key (its [malloc] returning a block)
    evicts and frees [p0]; when
    [dns_cache_update p0] is called first, the same insert evicts and frees
    [p1] instead and [p0] stays, now next to the tail. *)
Theorem update_saves_from_eviction (r : request) (w : world) (p0 p1 : ptr)
  (rest : list ptr) (e0 e1 : dns_cache) :
  0 < size w ->
  num w = size w ->
  cache_list w = p0 :: p1 :: rest ->
  NoDup (cache_list w) ->
  heap_get p0 (heap w) = Some e0 ->
  heap_get p1 (heap w) = Some e1 ->
  ref e0 = 1 ->
  ref e1 = 1 ->
  lookup (r_domain r) (r_type r) (chain_of (r_domain r) (r_type r) w) w
    = Some (None, w) ->
  r_alloc r = true ->
  valid_request r = true ->
  (exists wa,
     insert r w = Some (0, wa) /\
     cache_list wa = p1 :: rest ++ [List.length (heap w)] /\
     heap_get p0 (heap wa) = None /\
     heap_get p1 (heap wa) = Some e1) /\
  (exists wb,
     (dns_cache_update p0 ;; insert r) w = Some (0, wb) /\
     cache_list wb = rest ++ [p0; List.length (heap w)] /\
     heap_get p1 (heap wb) = None /\
     heap_get p0 (heap wb) = Some e0).
Proof.
  intros Hs Hfull Hlist Hnd He0 He1 Hr0 Hr1 Hl Ha Hv.
  rewrite Hlist in Hnd.
  inversion Hnd as [|? ? Hn0 Hnd1]; subst.
  inversion Hnd1 as [|? ? Hn1 Hnd2]; subst.
  assert (Hne : p0 <> p1) by (intros ->; apply Hn0; left; reflexivity).
  assert (Hn0' : ~ In p0 rest) by (intros H; apply Hn0; right; exact H).
  set (p := List.length (heap w)).
  assert (Hlt0 : (p0 < p)%nat) by (apply heap_get_lt; congruence).
  assert (Hlt1 : (p1 < p)%nat) by (apply heap_get_lt; congruence).
  split.
  - pose proof (get_miss (r_now r) _ _ _ Hs Hl) as Hg.
    rewrite (insert_new_eq r w w Hs Hg Ha Hv), insert_evict_eq.
    assert (Hover : (num (linked r w) >? size (linked r w)) = true)
      by (simpl; apply Z.gtb_gt; lia).
    rewrite Hover.
    change (cache_list (linked r w)) with (cache_list w ++ [p]).
    rewrite Hlist. simpl app. cbv iota.
    assert (He0' : heap_get p0 (heap (linked r w)) = Some e0).
    { simpl. rewrite heap_get_app_old; [exact He0 | exact Hlt0]. }
    rewrite (dns_cache_release_eq _ _ _ He0'), Hr0.
    change (1 - 1 =? 0) with true. cbv iota.
    eexists. split; [reflexivity|]. simpl. rewrite Hlist. simpl.
    rewrite Nat.eqb_refl. simpl.
    assert (Hq1 : Nat.eqb p1 p0 = false) by (apply Nat.eqb_neq; congruence).
    rewrite Hq1. simpl. split; [|split].
    + apply (f_equal (cons p1)). apply filter_ne_notin.
      intros Hin. apply in_app_or in Hin.
      destruct Hin as [Hin|[Heq|[]]]; [contradiction|].
      fold p in Heq. lia.
    + apply heap_get_set_same. rewrite length_app. simpl. lia.
    + rewrite heap_get_set_other by congruence.
      rewrite heap_get_app_old; [exact He1 | exact Hlt1].
  - unfold bind at 1.
    rewrite (update_listed_eq p0 e0 w He0)
      by (rewrite Hlist; left; reflexivity).
    set (wu := list_add_tail p0 (list_del_init p0 w)).
    assert (Hlu : cache_list wu = p1 :: rest ++ [p0]).
    { unfold wu. simpl. rewrite Hlist. simpl. rewrite Nat.eqb_refl. simpl.
      assert (Hq1 : Nat.eqb p1 p0 = false) by (apply Nat.eqb_neq; congruence).
      rewrite Hq1. simpl. rewrite (filter_ne_notin p0 rest Hn0'). reflexivity. }
    assert (Hsu : 0 < size wu) by exact Hs.
    assert (Hlu' : lookup (r_domain r) (r_type r)
                     (chain_of (r_domain r) (r_type r) wu) wu = Some (None, wu)).
    { apply (lookup_same_heap _ _ _ w wu); [reflexivity | exact Hl]. }
    pose proof (get_miss (r_now r) _ _ _ Hsu Hlu') as Hg.
    rewrite (insert_new_eq r wu wu Hsu Hg Ha Hv), insert_evict_eq.
    assert (Hover : (num (linked r wu) >? size (linked r wu)) = true)
      by (simpl; apply Z.gtb_gt; lia).
    rewrite Hover.
    change (cache_list (linked r wu)) with (cache_list wu ++ [p]).
    rewrite Hlu. simpl app. cbv iota.
    assert (He1' : heap_get p1 (heap (linked r wu)) = Some e1).
    { simpl. rewrite heap_get_app_old; [exact He1 | exact Hlt1]. }
    rewrite (dns_cache_release_eq _ _ _ He1'), Hr1.
    change (1 - 1 =? 0) with true. cbv iota.
    eexists. split; [reflexivity|].
    split; [|split].
    + change (cache_list (deleted p1 (linked r wu)))
        with (filter (fun q => negb (Nat.eqb q p1)) (cache_list wu ++ [p])).
      rewrite Hlu. simpl. rewrite Nat.eqb_refl. simpl.
      rewrite filter_ne_notin.
      * rewrite <- app_assoc. reflexivity.
      * intros Hin. apply in_app_or in Hin.
        destruct Hin as [Hin|[Heq|[]]].
        -- apply in_app_or in Hin. destruct Hin as [Hin|[Heq|[]]];
             [contradiction | congruence].
        -- lia.
    + simpl. apply heap_get_set_same. rewrite length_app. simpl. lia.
    + simpl. rewrite heap_get_set_other by congruence.
      rewrite heap_get_app_old; [exact He0 | exact Hlt0].
Qed.

(** ** Defined results and plain misses *)

(** On a table whose chain nodes are allocated the lookup returns. *)
Lemma get_is_defined (now : Z) (d : string) (t : dns_type_t) (w : world) :
  (forall b p, In (b, p) (cache_hash w) -> heap_get p (heap w) <> None) ->
  exists r w', cache_get now d t w = Some (r, w').
Proof.
  intros Hlive.
  destruct (Z_le_gt_dec (size w) 0) as [Hs|Hs].
  { exists None, w. apply get_disabled. exact Hs. }
  assert (Hs' : 0 < size w) by lia.
  destruct (lookup_defined d t (chain_of d t w) w) as [r0 Hl].
  { intros p Hin. apply chain_of_in in Hin. exact (Hlive _ _ Hin). }
  destruct r0 as [p|].
  - destruct (lookup_sound _ _ _ _ _ _ Hl) as (_ & e & He & _).
    destruct (Z_le_gt_dec (now - insert_time e) (ttl e)) as [Hnew|Hold].
    + eexists. eexists. apply (get_fresh _ _ _ _ _ _ Hs' Hl He Hnew).
    + eexists. eexists. apply (get_stale _ _ _ _ _ _ Hs' Hl He Hold).
  - exists None, w. apply (get_miss _ _ _ _ Hs' Hl).
Qed.

(** X16: on a well-formed table [dns_cache_insert] always returns: the
    lookup walks allocated nodes only and [_dns_cache_first] is called on a
    list that holds at least the new entry.  The status is 0 or -1; a
    request with a supported type and the matching address length for which
    [malloc] returns a block gets 0, and -1 is only returned when [malloc]
    returned NULL or the request fails these checks. *)
Theorem insert_is_defined (r : request) (w : world) :
  table_ok w ->
  exists s w',
    insert r w = Some (s, w') /\
    (s = 0 \/ s = -1) /\
    (r_alloc r = true -> valid_request r = true -> s = 0) /\
    (s = -1 -> r_alloc r = false \/ valid_request r = false).
Proof.
  intros Hok.
  destruct (Z_le_gt_dec (size w) 0) as [Hs|Hs].
  { exists 0, w. unfold insert_request. rewrite insert_disabled by exact Hs.
    split; [reflexivity|]. split; [left; reflexivity|].
    split; [reflexivity | discriminate]. }
  assert (Hs' : 0 < size w) by lia.
  assert (Hsb : (size w <=? 0) = false) by (apply Z.leb_gt; exact Hs').
  destruct (get_is_defined (r_now r) (r_domain r) (r_type r) w (ok_hash_live w Hok))
    as (found & w1 & Hg).
  pose proof (table_ok_get _ _ _ _ _ _ Hok Hg) as Hok1.
  destruct found as [p|].
  - (* the reference taken by the lookup is released *)
    assert (Hp : heap_get p (heap w1) <> None).
    { revert Hg. unfold dns_cache_get. unfold bind at 1. unfold get_world.
      rewrite Hsb. unfold bind at 1.
      destruct (lookup (r_domain r) (r_type r)
                  (hash_possible (bucket_of (r_domain r) (r_type r)) w) w)
        as [[f w2]|] eqn:Hl; [|discriminate].
      apply lookup_pure in Hl. subst w2. destruct f as [q|].
      - unfold_m. destruct (heap_get q (heap w)) as [e|] eqn:He; [|discriminate].
        destruct (r_now r - insert_time e >? ttl e); intros H; inversion H; subst.
        simpl. rewrite heap_get_set_same by (apply heap_get_lt; congruence).
        discriminate.
      - unfold ret. discriminate. }
    destruct (heap_get p (heap w1)) as [e1|] eqn:He1; [|contradiction].
    exists 0. eexists. split.
    + unfold insert_request, dns_cache_insert.
      unfold bind at 1. unfold get_world. rewrite Hsb.
      unfold bind at 1. rewrite Hg. unfold bind at 1.
      rewrite (dns_cache_release_eq _ _ _ He1). reflexivity.
    + split; [left; reflexivity|]. split; [reflexivity | discriminate].
  - destruct (r_alloc r) eqn:Ha.
    2:{ rewrite (insert_nomem_eq r w w1 Hs' Hg Ha).
        exists (-1), w1. split; [reflexivity|].
        split; [right; reflexivity|].
        split; [discriminate | left; reflexivity]. }
    destruct (valid_request r) eqn:Hv.
    + rewrite (insert_new_eq r w w1 Hs' Hg Ha Hv), insert_evict_eq.
      pose proof (table_ok_linked r w1 Hok1) as Hokl.
      destruct (num (linked r w1) >? size (linked r w1)).
      * change (cache_list (linked r w1))
          with (cache_list w1 ++ [List.length (heap w1)]).
        destruct (cache_list w1 ++ [List.length (heap w1)]) as [|p0 l] eqn:Hlist.
        { destruct (cache_list w1); discriminate. }
        assert (Hp0 : heap_get p0 (heap (linked r w1)) <> None).
        { apply (ok_list_live _ Hokl).
          change (cache_list (linked r w1))
            with (cache_list w1 ++ [List.length (heap w1)]).
          rewrite Hlist. left. reflexivity. }
        destruct (heap_get p0 (heap (linked r w1))) as [e0|] eqn:He0;
          [|contradiction].
        rewrite (dns_cache_release_eq _ _ _ He0).
        exists 0. eexists. split; [reflexivity|].
        split; [left; reflexivity|]. split; [reflexivity | discriminate].
      * exists 0, (linked r w1). split; [reflexivity|].
        split; [left; reflexivity|]. split; [reflexivity | discriminate].
    + rewrite (insert_invalid_eq r w w1 Hs' Hg Ha Hv).
      exists (-1). eexists. split; [reflexivity|].
      split; [right; reflexivity|].
      split; [discriminate | right; reflexivity].
Qed.

(** X17: the lookup of a key that no entry of its chain holds (another
    domain within the compared characters, or another record type) is a miss
    that changes nothing, not even a reference count. *)
Theorem get_absent_key_is_plain_miss (now : Z) (d : string) (t : dns_type_t)
  (w : world) :
  0 < size w ->
  (forall p, In p (chain_of d t w) ->
     exists e, heap_get p (heap w) = Some e /\
               (qtype e <> t \/
                str_prefix DNS_MAX_CNAME_LEN (domain e)
                <> str_prefix DNS_MAX_CNAME_LEN d)) ->
  cache_get now d t w = Some (None, w).
Proof.
  intros Hs Hchain. apply get_miss; [exact Hs|].
  apply lookup_miss. intros p Hin.
  destruct (Hchain p Hin) as (e & He & Hdiff).
  exists e. split; [exact He|].
  unfold key_match.
  destruct (dns_type_eqb (qtype e) t) eqn:Ht; [|reflexivity].
  apply dns_type_eqb_eq in Ht.
  destruct (strncmp d (domain e) DNS_MAX_CNAME_LEN =? 0) eqn:Hc; [|reflexivity].
  apply Z.eqb_eq in Hc. apply strncmp_zero in Hc.
  destruct Hdiff as [Hd|Hd]; [contradiction|]. exfalso. apply Hd. congruence.
Qed.

(** X18: the ends of the list.  After [dns_cache_update] on a listed entry
    [_dns_cache_last] returns that entry; and [_dns_cache_first], the entry
    that the next overflow releases, is the former second entry when the
    touched entry was the first, and unchanged otherwise. *)
Theorem touched_entry_is_last (p : ptr) (e : dns_cache) (w : world) :
  heap_get p (heap w) = Some e ->
  In p (cache_list w) ->
  NoDup (cache_list w) ->
  exists w',
    dns_cache_update p w = Some (tt, w') /\
    _dns_cache_last w' = Some (p, w') /\
    (forall q rest, cache_list w = q :: rest -> q <> p ->
       _dns_cache_first w' = Some (q, w')) /\
    (forall q rest, cache_list w = p :: q :: rest ->
       _dns_cache_first w' = Some (q, w')).
Proof.
  intros He Hin Hnd. rewrite (update_listed_eq p e w He Hin).
  eexists. split; [reflexivity|]. split; [|split].
  - unfold _dns_cache_last. unfold_m. simpl. rewrite rev_app_distr.
    reflexivity.
  - intros q rest Hlist Hne. unfold _dns_cache_first. unfold_m. simpl.
    rewrite Hlist. simpl.
    assert (Hq : Nat.eqb q p = false) by (apply Nat.eqb_neq; exact Hne).
    rewrite Hq. reflexivity.
  - intros q rest Hlist. unfold _dns_cache_first. unfold_m. simpl.
    rewrite Hlist in *. simpl. rewrite Nat.eqb_refl. simpl.
    inversion Hnd as [|? ? Hnotin _]; subst.
    assert (Hq : Nat.eqb q p = false).
    { apply Nat.eqb_neq. intros ->. apply Hnotin. left. reflexivity. }
    rewrite Hq. reflexivity.
Qed.

End Properties.

(** * The properties on concrete runs *)

Ltac in_cases H :=
  repeat (destruct H as [H|H]; [inversion H; subst|]); try contradiction.

(** The sample worlds are reached from [dns_cache_init]. *)
Lemma w_two_ok : table_ok w_two.
Proof.
  apply (table_ok_reachable sample_hash_string sample_jhash sample_hash_min
           sample_len 3 [OpInsert req_x; OpInsert req_a] boot).
  vm_compute. reflexivity.
Qed.

Lemma w_behind_ok : table_ok w_behind.
Proof.
  apply (table_ok_reachable sample_hash_string sample_jhash sample_hash_min
           sample_len 3 [OpInsert req_a; OpInsert req_x] boot).
  vm_compute. reflexivity.
Qed.

Lemma w_empty_ok : table_ok w_empty.
Proof.
  apply (table_ok_reachable sample_hash_string sample_jhash sample_hash_min
           sample_len 2 [] boot).
  vm_compute. reflexivity.
Qed.

(** "x.com" with ttl 1 is looked up at time 0 and the handle kept; the
    lookup at time 2 frees the entry under the handle. *)
Lemma get_frees_stale_entry_with_handle_witness :
  2 <= 2 /\
  exists w',
    s_get 2 "x.com" DNS_T_A w_stale = Some (None, w') /\
    nth_error (heap w') 0 = Some None /\
    ~ In 0%nat (cache_list w') /\
    num w' = num w_stale - 1 /\
    dns_cache_release 0%nat w' = None.
Proof.
  split; [lia|].
  apply (get_frees_stale_entry_with_handle
           sample_hash_string sample_jhash sample_hash_min sample_len
           2 "x.com" DNS_T_A w_stale 0%nat
           (mk_dns_cache "x.com" DNS_T_A 1 (addr4 x01 x01 x01 x01) 0 2)).
  - simpl. lia.
  - vm_compute. reflexivity.
  - reflexivity.
  - simpl. lia.
  - simpl. lia.
Defined.

(** Capacity 1, "a.com" held by a handle: the insert of "b.com" leaves
    two entries in the table. *)
Lemma insert_overflow_keeps_held_head_witness :
  exists w',
    s_insert req_b w_held = Some (0, w') /\
    cache_list w' = [0%nat; 1%nat] /\
    size w' = 1 /\
    num w' = 2 /\
    Z.of_nat (List.length (cache_list w')) = 2.
Proof.
  destruct (insert_overflow_keeps_held_head
              sample_hash_string sample_jhash sample_hash_min sample_len
              req_b w_held 0%nat []
              (mk_dns_cache "a.com" DNS_T_A 10 (addr4 x01 x02 x03 x04) 0 2))
    as (w' & Hrun & Hlist & Hsize & Hnum & Hlen & _).
  - simpl. lia.
  - reflexivity.
  - reflexivity.
  - vm_compute. reflexivity.
  - reflexivity.
  - reflexivity.
  - reflexivity.
  - reflexivity.
  - simpl. lia.
  - exists w'. rewrite Hsize in Hnum, Hlen.
    repeat split; assumption.
Defined.

(** The lookup of "x.com" (ttl 1, inserted at time 0) at time 2 is a miss
    and unlinks the entry. *)
Lemma get_never_returns_expired_witness :
  exists r w',
    s_get 2 "x.com" DNS_T_A w_stale = Some (r, w') /\
    r = None /\
    ~ In 0%nat (cache_list w').
Proof.
  destruct (get_never_returns_expired
              sample_hash_string sample_jhash sample_hash_min sample_len
              2 "x.com" DNS_T_A w_stale)
    as (r & w' & Hrun & _ & Hstale).
  - intros b p H. simpl in H. in_cases H. vm_compute. discriminate.
  - exists r, w'. split; [exact Hrun|].
    destruct (Hstale 0%nat
                (mk_dns_cache "x.com" DNS_T_A 1 (addr4 x01 x01 x01 x01) 0 2))
      as (Hr & Hl & _).
    + simpl. lia.
    + vm_compute. reflexivity.
    + reflexivity.
    + simpl. lia.
    + split; assumption.
Defined.

(** A domain of 260 characters, bound 256: the insert returns 0 and the
    table has changed. *)
Lemma insert_long_domain_counterexample :
  (256 < String.length long_domain)%nat /\
  exists w',
    s_insert req_long w_empty = Some (0, w') /\
    num w' = 1 /\
    cache_list w' = [0%nat] /\
    w' <> w_empty.
Proof.
  split; [vm_compute; lia|].
  eexists. split; [vm_compute; reflexivity|].
  split; [reflexivity|]. split; [reflexivity|]. discriminate.
Qed.

(** The entry stored for the domain of 260 characters holds 256 of them. *)
Lemma insert_long_domain_truncates_witness :
  exists w' e,
    s_insert req_long w_empty = Some (0, w') /\
    heap_get 0%nat (heap w') = Some e /\
    String.length (domain e) = 256%nat /\
    In 0%nat (cache_list w').
Proof.
  destruct (insert_long_domain_truncates
              sample_hash_string sample_jhash sample_hash_min sample_len
              req_long w_empty)
    as (w' & e & Hrun & Hheap & _ & Hlen & _ & Hlist & _).
  - vm_compute. lia.
  - simpl. lia.
  - exact w_empty_ok.
  - left. simpl. lia.
  - reflexivity.
  - reflexivity.
  - reflexivity.
  - exists w', e. repeat split; assumption.
Defined.


(** The scenario of the specification: capacity 2, inserts of "a.com",
    "b.com" and "c.com"; then "a.com" is a miss and "b.com" a hit. *)
Lemma eviction_order_without_touches_witness :
  exists w,
    (dns_cache_init 2 ;;
     insert_all sample_hash_string sample_jhash sample_hash_min sample_len
       [req_a; req_b; req_c]) boot = Some ([0; 0; 0], w) /\
    s_get 0 "a.com" DNS_T_A w = Some (None, w) /\
    exists p w', s_get 0 "b.com" DNS_T_A w = Some (Some p, w').
Proof.
  destruct (eviction_order_without_touches
              sample_hash_string sample_jhash sample_hash_min sample_len
              2 boot req_a [req_b; req_c])
    as (w & Hrun & _ & _ & _ & Hmiss & Hhit).
  - lia.
  - reflexivity.
  - reflexivity.
  - reflexivity.
  - repeat constructor; simpl; intuition discriminate.
  - exists w. split; [exact Hrun|]. split; [exact (Hmiss 0)|].
    destruct (Hhit req_b 0) as (p & w' & Hget & _).
    + left. reflexivity.
    + simpl. lia.
    + exists p, w'. exact Hget.
Defined.

(** At time 5 the sweep removes "x.com" (ttl 1) at the head and stops at
    "a.com" (ttl 10). *)
Lemma invalidate_stops_at_first_unexpired_witness :
  exists w',
    dns_cache_invalidate 5 w_two = Some (tt, w') /\
    cache_list w' = [1%nat] /\
    heap_get 0%nat (heap w') = None /\
    heap_get 1%nat (heap w') = heap_get 1%nat (heap w_two).
Proof.
  destruct (invalidate_stops_at_first_unexpired 5 w_two [0%nat] [1%nat])
    as (w' & Hrun & _ & Hlist & _ & Hrel & Hother).
  - simpl. lia.
  - exact w_two_ok.
  - reflexivity.
  - repeat constructor.
  - repeat constructor.
  - exists 5. split; [reflexivity | lia].
  - exists w'. split; [exact Hrun|]. split; [exact Hlist|]. split.
    + apply (Hrel 0%nat
               (mk_dns_cache "x.com" DNS_T_A 1 (addr4 x01 x01 x01 x01) 0 1)).
      * left. reflexivity.
      * reflexivity.
    + apply (Hother 1%nat). simpl. intuition discriminate.
Defined.

(** An entry stamped 0 with ttl 10 is alone in the list and swept at time
    2147483700: its remaining TTL is 0 and the lookup at that time removes
    it as stale, yet line 207 narrows -2147483690 to 2147483606 > 0 and the
    sweep stops at it.  An entry stamped 10 with ttl 2147483647 is swept at
    time 0 (the clock was set back): its remaining TTL 2147483657 is
    positive and the lookup returns it, yet line 207 narrows the value to a
    negative [int] and the sweep removes the entry. *)
Lemma invalidate_wraps_counterexample :
  (cache_list w_one = [0%nat] /\
   spec_remaining_ttl 2147483700 0%nat w_one = Some 0 /\
   s_get 2147483700 "a.com" DNS_T_A w_one = Some (None, deleted 0%nat w_one) /\
   dns_cache_invalidate 2147483700 w_one = Some (tt, w_one)) /\
  (cache_list w_far = [0%nat] /\
   spec_remaining_ttl 0 0%nat w_far = Some 2147483657 /\
   (exists w1, s_get 0 "a.com" DNS_T_A w_far = Some (Some 0%nat, w1)) /\
   dns_cache_invalidate 0 w_far = Some (tt, deleted 0%nat w_far)).
Proof.
  split.
  - repeat split.
  - split; [reflexivity|]. split; [reflexivity|].
    split; [eexists; vm_compute; reflexivity | reflexivity].
Qed.

(** Touching the head entry of a list of two moves it behind the other. *)
Lemma update_only_moves_entry_witness :
  exists w',
    dns_cache_update 0%nat w_two = Some (tt, w') /\
    heap w' = heap w_two /\
    num w' = num w_two /\
    cache_list w' = [1%nat; 0%nat].
Proof.
  destruct (update_only_moves_entry 0%nat w_two)
    as (w' & Hrun & Hheap & _ & Hnum & _ & Hmove & _).
  - vm_compute. discriminate.
  - exists w'. repeat split; try assumption.
    apply Hmove. left. reflexivity.
Defined.

(** An entry stamped 0 (a clock still at the epoch) with ttl 10, read at
    time 2147483700 (a clock set to January 2038): the difference
    -2147483690 is below the least [int] and becomes 2147483606, where
    max(0, _) is 0. *)
Lemma get_ttl_wraps_counterexample :
  heap_get 0%nat (heap w_one)
  = Some (mk_dns_cache "a.com" DNS_T_A 10 (addr4 x01 x02 x03 x04) 0 1) /\
  dns_cache_get_ttl 2147483700 0%nat w_one = Some (2147483606, w_one) /\
  Z.max 0 (0 + 10 - 2147483700) = 0.
Proof.
  repeat split.
Qed.

(** Seven seconds remain at time 3, none at time 30. *)
Lemma get_ttl_is_clamped_remaining_witness :
  dns_cache_get_ttl 3 0%nat w_one = Some (7, w_one) /\
  dns_cache_get_ttl 30 0%nat w_one = Some (0, w_one).
Proof.
  split.
  - apply (get_ttl_is_clamped_remaining 3 0%nat w_one
             (mk_dns_cache "a.com" DNS_T_A 10 (addr4 x01 x02 x03 x04) 0 1)).
    + reflexivity.
    + vm_compute. split; discriminate.
  - apply (get_ttl_is_clamped_remaining 30 0%nat w_one
             (mk_dns_cache "a.com" DNS_T_A 10 (addr4 x01 x02 x03 x04) 0 1)).
    + reflexivity.
    + vm_compute. split; discriminate.
Defined.

(** "a.com" (ttl 10) is followed by "x.com" (ttl 1), both inserted at time
    0.  At time 1 the age of "x.com" is its ttl: the lookup returns it and
    its remaining TTL is 0, but the sweep at time 1 stops at "a.com" and
    leaves the world as it is, "x.com" included. *)
Lemma boundary_entry_survives_sweep_counterexample :
  cache_list w_behind = [0%nat; 1%nat] /\
  heap_get 1%nat (heap w_behind)
  = Some (mk_dns_cache "x.com" DNS_T_A 1 (addr4 x01 x01 x01 x01) 0 1) /\
  (exists w1, s_get 1 "x.com" DNS_T_A w_behind = Some (Some 1%nat, w1)) /\
  dns_cache_get_ttl 1 1%nat w_behind = Some (0, w_behind) /\
  dns_cache_invalidate 1 w_behind = Some (tt, w_behind).
Proof.
  split; [reflexivity|]. split; [reflexivity|].
  split; [eexists; vm_compute; reflexivity|].
  split; reflexivity.
Qed.

(** "a.com" (ttl 10, inserted at time 0) at time 10: a hit for the lookup
    and a remaining TTL of 0.  Behind the expired "x.com" it is removed by
    the sweep; behind the unexpired "a.com", "x.com" at time 1 is not. *)
Lemma boundary_age_equals_ttl_witness :
  ((exists w1, s_get 10 "a.com" DNS_T_A w_two = Some (Some 1%nat, w1)) /\
   dns_cache_get_ttl 10 1%nat w_two = Some (0, w_two) /\
   exists w',
     dns_cache_invalidate 10 w_two = Some (tt, w') /\
     ~ In 1%nat (cache_list w') /\
     heap_get 1%nat (heap w') = None) /\
  (exists w',
     dns_cache_invalidate 1 w_behind = Some (tt, w') /\
     In 1%nat (cache_list w')).
Proof.
  split.
  - destruct (boundary_age_equals_ttl
                sample_hash_string sample_jhash sample_hash_min sample_len
                10 "a.com" DNS_T_A w_two 1%nat
                (mk_dns_cache "a.com" DNS_T_A 10 (addr4 x01 x02 x03 x04) 0 1)
                [0%nat] [])
      as (Hget & Httl & w' & Hrun & Hgone & _).
    + simpl. lia.
    + exact w_two_ok.
    + reflexivity.
    + reflexivity.
    + vm_compute. reflexivity.
    + reflexivity.
    + repeat constructor.
    + split; [eexists; exact Hget|]. split; [exact Httl|].
      exists w'. split; [exact Hrun|].
      destruct Hgone as (Hlist & _ & Hheap); [repeat constructor|].
      split; assumption.
  - destruct (boundary_age_equals_ttl
                sample_hash_string sample_jhash sample_hash_min sample_len
                1 "x.com" DNS_T_A w_behind 1%nat
                (mk_dns_cache "x.com" DNS_T_A 1 (addr4 x01 x01 x01 x01) 0 1)
                [0%nat] [])
      as (_ & _ & w' & Hrun & _ & Hstays).
    + simpl. lia.
    + exact w_behind_ok.
    + reflexivity.
    + reflexivity.
    + vm_compute. reflexivity.
    + reflexivity.
    + repeat constructor.
    + exists w'. split; [exact Hrun|].
      destruct Hstays as (Hlist & _).
      * left. exists 9. split; [reflexivity | lia].
      * exact Hlist.
Defined.

(** * The further properties on concrete runs *)

(** The disabled cache of a process that has not called [dns_cache_init]
    with a positive capacity ignores an insert, a lookup and a sweep. *)
Lemma disabled_cache_is_inert_witness :
  run_ops sample_hash_string sample_jhash sample_hash_min sample_len
    [OpInsert req_a; OpGet 0 "a.com" DNS_T_A; OpInvalidate 5] boot
  = Some (tt, boot).
Proof.
  apply (disabled_cache_is_inert sample_hash_string sample_jhash sample_hash_min
           sample_len).
  - simpl. lia.
  - reflexivity.
Defined.

(** "a.com" of type A with an address length of 5 is rejected. *)
Lemma invalid_request_is_rejected_witness :
  exists w',
    s_insert req_bad w_empty = Some (-1, w') /\
    cache_list w' = [] /\ num w' = 0.
Proof.
  destruct (invalid_request_is_rejected
              sample_hash_string sample_jhash sample_hash_min sample_len
              req_bad w_empty)
    as (w' & Hrun & Hlist & _ & Hnum & _).
  - simpl. lia.
  - reflexivity.
  - reflexivity.
  - exists w'. repeat split; assumption.
Defined.

(** A valid request for "b.com" whose [malloc] returns NULL is answered -1
    and the table that holds "a.com" is as before. *)
Lemma failed_allocation_changes_nothing_witness :
  valid_request req_nomem = true /\
  s_insert req_nomem w_one = Some (-1, w_one).
Proof.
  split; [reflexivity|].
  apply (failed_allocation_changes_nothing
           sample_hash_string sample_jhash sample_hash_min sample_len
           req_nomem w_one).
  - simpl. lia.
  - vm_compute. reflexivity.
  - reflexivity.
Defined.

(** At time 2 a request for "x.com" with a wrong address length is rejected,
    and the expired "x.com" (ttl 1) is gone. *)
Lemma rejected_insert_still_expires_witness :
  exists w',
    s_insert req_x_bad w_two = Some (-1, w') /\
    ~ In 0%nat (cache_list w') /\
    num w' = 1.
Proof.
  destruct (rejected_insert_still_expires
              sample_hash_string sample_jhash sample_hash_min sample_len
              req_x_bad w_two 0%nat
              (mk_dns_cache "x.com" DNS_T_A 1 (addr4 x01 x01 x01 x01) 0 1))
    as (w' & Hrun & Hlist & _ & _ & Hnum).
  - simpl. lia.
  - vm_compute. reflexivity.
  - reflexivity.
  - simpl. lia.
  - reflexivity.
  - exists w'. repeat split; assumption.
Defined.

(** "a.com" inserted with ttl 10 at time 0 is found at time 10 with its
    address, and not at time 11. *)
Lemma insert_then_get_witness :
  exists w1,
    s_insert req_a w_empty = Some (0, w1) /\
    (exists w2,
       s_get 10 "a.com" DNS_T_A w1 = Some (Some 0%nat, w2) /\
       option_map addr (heap_get 0%nat (heap w2))
       = Some (addr4 x01 x02 x03 x04)) /\
    (exists w2, s_get 11 "a.com" DNS_T_A w1 = Some (None, w2)).
Proof.
  destruct (insert_then_get
              sample_hash_string sample_jhash sample_hash_min sample_len
              req_a w_empty)
    as (w1 & Hrun & Hhit & Hmiss).
  - simpl. lia.
  - exact w_empty_ok.
  - left. simpl. lia.
  - reflexivity.
  - reflexivity.
  - reflexivity.
  - exists w1. split; [exact Hrun|]. split.
    + destruct (Hhit 10) as (w2 & Hget & Hheap); [simpl; lia|].
      exists w2. split; [exact Hget|].
      change (List.length (heap w_empty)) with 0%nat in Hheap.
      rewrite Hheap. reflexivity.
    + apply (Hmiss 11). simpl. lia.
Defined.

(** A lookup of "a.com" and the release of its handle. *)
Lemma get_then_release_restores_witness :
  exists w1,
    s_get 5 "a.com" DNS_T_A w_one = Some (Some 0%nat, w1) /\
    dns_cache_release 0%nat w1 = Some (tt, w_one).
Proof.
  destruct (get_then_release_restores
              sample_hash_string sample_jhash sample_hash_min sample_len
              5 "a.com" DNS_T_A w_one 0%nat
              (mk_dns_cache "a.com" DNS_T_A 10 (addr4 x01 x02 x03 x04) 0 1))
    as (w1 & Hget & _ & _ & _ & _ & _ & Hrel).
  - simpl. lia.
  - vm_compute. reflexivity.
  - reflexivity.
  - simpl. lia.
  - simpl. lia.
  - exists w1. split; assumption.
Defined.

(** "a.com" is held by a handle and deleted: it leaves the list, its block
    stays and the count is still 1. *)
Lemma explicit_delete_unlinks_and_releases_witness :
  exists w',
    dns_cache_delete 0%nat w_held = Some (tt, w') /\
    cache_list w' = [] /\
    num w' = 1 /\
    option_map ref (heap_get 0%nat (heap w')) = Some 1.
Proof.
  destruct (explicit_delete_unlinks_and_releases 0%nat
              (mk_dns_cache "a.com" DNS_T_A 10 (addr4 x01 x02 x03 x04) 0 2)
              w_held)
    as (w' & Hrun & Hlist & _ & _ & _ & _ & Hheld).
  - reflexivity.
  - destruct Hheld as [Hheap Hnum]; [simpl; lia|].
    exists w'. split; [exact Hrun|]. split; [exact Hlist|].
    split; [exact Hnum|]. rewrite Hheap. reflexivity.
Defined.

(** Lookup, delete and release of "a.com" empty the table of [w_one]. *)
Lemma get_delete_release_removes_witness :
  (h <- s_get 5 "a.com" DNS_T_A ;;
   match h with
   | Some q => dns_cache_delete q ;; dns_cache_release q
   | None => ret tt
   end) w_one
  = Some (tt, mk_world [] [] 0 1 [None]).
Proof.
  apply (get_delete_release_removes
           sample_hash_string sample_jhash sample_hash_min sample_len
           5 "a.com" DNS_T_A w_one 0%nat
           (mk_dns_cache "a.com" DNS_T_A 10 (addr4 x01 x02 x03 x04) 0 1)).
  - simpl. lia.
  - vm_compute. reflexivity.
  - reflexivity.
  - simpl. lia.
  - reflexivity.
Defined.

(** The teardown of a table of two entries. *)
Lemma destroy_frees_every_listed_entry_witness :
  exists w',
    dns_cache_destroy w_two = Some (tt, w') /\
    cache_list w' = [] /\
    num w' = 0 /\
    heap_get 0%nat (heap w') = None /\
    heap_get 1%nat (heap w') = None.
Proof.
  destruct (destroy_frees_every_listed_entry w_two w_two_ok)
    as (w' & Hrun & Hlist & Hnum & Hfreed & _).
  exists w'. split; [exact Hrun|]. split; [exact Hlist|].
  split; [exact Hnum|]. split.
  - apply (Hfreed 0%nat). left. reflexivity.
  - apply (Hfreed 1%nat). right. left. reflexivity.
Defined.

Lemma reachable_table_is_well_formed_witness :
  table_ok w_calls /\
  exists w', dns_cache_destroy w_calls = Some (tt, w') /\ table_ok w'.
Proof.
  apply (reachable_table_is_well_formed
           sample_hash_string sample_jhash sample_hash_min sample_len
           3 sample_calls boot).
  vm_compute. reflexivity.
Defined.

Lemma listed_iff_chained_witness :
  list_matches_chains w_calls.
Proof.
  apply (listed_iff_chained
           sample_hash_string sample_jhash sample_hash_min sample_len
           3 sample_calls boot).
  vm_compute. reflexivity.
Defined.

Lemma allocated_entries_are_referenced_witness :
  refs_positive w_calls.
Proof.
  apply (allocated_entries_are_referenced
           sample_hash_string sample_jhash sample_hash_min sample_len
           3 sample_calls boot).
  - intros p e H. destruct p; discriminate H.
  - vm_compute. reflexivity.
Defined.

(** After the sample calls one entry is listed and two are counted: the
    deleted "x.com" is still allocated under its handle. *)
Lemma num_counts_allocated_entries_witness :
  num w_calls + 0 = live_count (heap w_calls) /\
  num w_calls = 2 /\
  List.length (cache_list w_calls) = 1%nat.
Proof.
  destruct (num_counts_allocated_entries
              sample_hash_string sample_jhash sample_hash_min sample_len
              3 sample_calls boot w_calls) as [Hcount _].
  - vm_compute. reflexivity.
  - split; [exact Hcount|]. split; reflexivity.
Defined.

(** At time 5 "a.com" (ttl 10) survives the sweep. *)
Lemma invalidate_keeps_unexpired_witness :
  exists w',
    dns_cache_invalidate 5 w_two = Some (tt, w') /\
    In 1%nat (cache_list w') /\
    heap_get 1%nat (heap w') = heap_get 1%nat (heap w_two).
Proof.
  destruct (invalidate_keeps_unexpired 5 w_two)
    as (w' & Hrun & Hkeep & _).
  - simpl. lia.
  - exact w_two_ok.
  - exists w'. split; [exact Hrun|].
    destruct (Hkeep 1%nat 5) as (Hin & Hheap & _).
    + right. left. reflexivity.
    + reflexivity.
    + reflexivity.
    + lia.
    + split; assumption.
Defined.

Lemma invalidate_twice_is_once_witness :
  exists w',
    dns_cache_invalidate 5 w_two = Some (tt, w') /\
    (dns_cache_invalidate 5 ;; dns_cache_invalidate 5) w_two = Some (tt, w').
Proof.
  apply (invalidate_twice_is_once 5 w_two).
  - simpl. lia.
  - exact w_two_ok.
Defined.

(** Capacity 2 with "a.com" and "b.com": the insert of "c.com" frees
    "a.com", and frees "b.com" when "a.com" was touched first. *)
Lemma update_saves_from_eviction_witness :
  (exists wa,
     s_insert req_c w_full = Some (0, wa) /\
     cache_list wa = [1%nat; 2%nat] /\
     heap_get 0%nat (heap wa) = None) /\
  (exists wb,
     (dns_cache_update 0%nat ;; s_insert req_c) w_full = Some (0, wb) /\
     cache_list wb = [0%nat; 2%nat] /\
     heap_get 1%nat (heap wb) = None).
Proof.
  destruct (update_saves_from_eviction
              sample_hash_string sample_jhash sample_hash_min sample_len
              req_c w_full 0%nat 1%nat []
              (mk_dns_cache "a.com" DNS_T_A 10 (addr4 x01 x02 x03 x04) 0 1)
              (mk_dns_cache "b.com" DNS_T_A 10 (addr4 x05 x06 x07 x08) 0 1))
    as [(wa & Ha & Hla & Hfa & _) (wb & Hb & Hlb & Hfb & _)].
  - simpl. lia.
  - reflexivity.
  - reflexivity.
  - simpl. repeat constructor; simpl; intuition discriminate.
  - reflexivity.
  - reflexivity.
  - reflexivity.
  - reflexivity.
  - vm_compute. reflexivity.
  - reflexivity.
  - reflexivity.
  - split; [exists wa | exists wb]; repeat split; assumption.
Defined.

Lemma insert_is_defined_witness :
  exists s w', s_insert req_c w_two = Some (s, w') /\ s = 0.
Proof.
  destruct (insert_is_defined
              sample_hash_string sample_jhash sample_hash_min sample_len
              req_c w_two w_two_ok)
    as (s & w' & Hrun & _ & Hvalid & _).
  exists s, w'. split; [exact Hrun|]. apply Hvalid; reflexivity.
Defined.

(** "wj.com" shares the chain of "a.com" under the sample hash and is not
    found. *)
Lemma get_absent_key_is_plain_miss_witness :
  chain_of sample_hash_string sample_jhash sample_hash_min "wj.com" DNS_T_A w_one
  = [0%nat] /\
  s_get 0 "wj.com" DNS_T_A w_one = Some (None, w_one).
Proof.
  split; [vm_compute; reflexivity|].
  apply (get_absent_key_is_plain_miss
           sample_hash_string sample_jhash sample_hash_min sample_len).
  - simpl. lia.
  - intros p Hin. vm_compute in Hin. destruct Hin as [<-|[]].
    eexists. split; [reflexivity|]. right. vm_compute. discriminate.
Defined.

Lemma touched_entry_is_last_witness :
  exists w',
    dns_cache_update 0%nat w_two = Some (tt, w') /\
    _dns_cache_last w' = Some (0%nat, w') /\
    _dns_cache_first w' = Some (1%nat, w').
Proof.
  destruct (touched_entry_is_last 0%nat
              (mk_dns_cache "x.com" DNS_T_A 1 (addr4 x01 x01 x01 x01) 0 1) w_two)
    as (w' & Hrun & Hlast & _ & Hfirst).
  - reflexivity.
  - left. reflexivity.
  - exact (ok_list_nodup w_two w_two_ok).
  - exists w'. split; [exact Hrun|]. split; [exact Hlast|].
    apply (Hfirst 1%nat []). reflexivity.
Defined.

(** Three inserts at capacity 2 leave two entries. *)
Lemma inserts_respect_capacity_witness :
  exists ss w,
    (dns_cache_init 2 ;;
     insert_all sample_hash_string sample_jhash sample_hash_min sample_len
       [req_a; req_b; req_c]) boot = Some (ss, w) /\
    num w <= 2.
Proof.
  destruct (inserts_respect_capacity
              sample_hash_string sample_jhash sample_hash_min sample_len
              2 boot [req_a; req_b; req_c])
    as (ss & w & Hrun & Hnum & _).
  - lia.
  - exists ss, w. split; assumption.
Defined.
